(** * A model of the chat server: WebSocket handlers over the MariaDB schema

    The development follows the server code that is shipped in
    [src/db/init.sql] (the SQL schema, followed by the Node.js server) and
    embeds:
    - the tables of the schema with their PRIMARY KEY and FOREIGN KEY
      constraints and their AUTO_INCREMENT counters;
    - the in-memory presence registry ([connectionsByUser],
      [sessionBySocket]) and the socket set of the WebSocket server;
    - the helpers [isUserOnline], [sendUsersList], [safeSend],
      [sendToUser], [getOrCreateDM], [deliverPendingToUser];
    - the [message] and [close] handlers of a connection;
    - [signToken] and [verifyToken], and the endpoints [POST /api/register]
      and [POST /api/login];
    - of the client in [src/public/main.js], [escapeHtml] and the chat
      pane ([appendMsg], [markDelivered], [clearChat]).

    A handler is modelled as a function from the server state to a new
    state, the list of transport calls ([ws.send], [ws.close]) it makes, in
    order, and the way it ends (it returns, or its promise rejects). The
    handlers are taken one at a time, each run to its end; the two awaits
    of [getOrCreateDM] are modelled apart, to follow calls that overlap.

    The database is reached through the [mariadb] connector as its version
    3 behaves with the options of the pool in the source: a value of a
    BIGINT column and [insertId] are BigInt, a value of an INT column is a
    number, and the parameters are written into the text of the statement.
    The database runs in its default strict SQL mode. *)

From stdpp Require Import gmap list sorting strings.

Local Open Scope Z_scope.

(** ** JavaScript values *)

(** The result of [Number(x)]: no number, an integer, a finite number given
    as a quotient (2.4 is [Frac 24 10]), or an infinity. *)
Inductive jsnum :=
| NaN
| Num (z : Z)
| Frac (num : Z) (den : positive)
| Infinite.

(** [!n] is true for [NaN] and [0]. *)
Definition truthy (n : jsnum) : bool :=
  match n with
  | NaN => false
  | Num z => negb (z =? 0)
  | Frac num _ => negb (num =? 0)
  | Infinite => true
  end.

(** *** Numbers in a statement

    The driver writes a number into the text of a statement as JavaScript
    prints it. [NaN] and [Infinity] are then read as names of columns, and
    the statement fails. A number that is no integer equals no value of a
    column of integers; stored in such a column it is rounded to the nearest
    integer, a half away from zero. *)

(** The integer that the number is, when it is one: what [WHERE id = ?]
    and [Map.prototype.get] can find. *)
Definition as_integer (n : jsnum) : option Z :=
  match n with
  | Num z => Some z
  | Frac num den =>
      if num mod Z.pos den =? 0 then Some (num / Z.pos den) else None
  | NaN | Infinite => None
  end.

(** The integer that [INSERT] stores for the number; [None] when the
    statement cannot be read. *)
Definition sql_round (n : jsnum) : option Z :=
  match n with
  | Num z => Some z
  | Frac num den =>
      Some (Z.sgn num * ((2 * Z.abs num + Z.pos den) / (2 * Z.pos den)))
  | NaN | Infinite => None
  end.

(** A key as the handler holds it: a number, or the BigInt that the driver
    hands for a column of type BIGINT. [Number(r.insertId)] is a number. *)
Inductive jskey :=
| AsNumber (z : Z)
| AsBigInt (z : Z).

Definition key_value (k : jskey) : Z :=
  match k with AsNumber z | AsBigInt z => z end.

(** A JavaScript string is a sequence of UTF-16 code units. *)
Abbreviation jsstring := (list N).

(** The code units of an ASCII literal. *)
Fixpoint js (s : string) : jsstring :=
  match s with
  | EmptyString => []
  | String a s' => Ascii.N_of_ascii a :: js s'
  end.

(** WhiteSpace and LineTerminator code units, the ones [String.prototype.trim]
    strips. *)
Definition is_js_space (c : N) : bool :=
  ((9 <=? c) && (c <=? 13) || (c =? 32) || (c =? 160) || (c =? 5760)
   || (8192 <=? c) && (c <=? 8202) || (c =? 8232) || (c =? 8233)
   || (c =? 8239) || (c =? 8287) || (c =? 12288) || (c =? 65279))%N.

Fixpoint trim_start (s : jsstring) : jsstring :=
  match s with
  | [] => []
  | c :: s' => if is_js_space c then trim_start s' else s
  end.

Definition trim_end (s : jsstring) : jsstring :=
  reverse (trim_start (reverse s)).

Definition trim (s : jsstring) : jsstring := trim_end (trim_start s).

(** *** Strings in a statement

    The driver writes a string in UTF-8: a high surrogate followed by a low
    one as one sequence of four bytes, a surrogate without its pair as a
    question mark. *)
Definition high_surrogate (c : N) : bool := ((55296 <=? c) && (c <=? 56319))%N.
Definition low_surrogate (c : N) : bool := ((56320 <=? c) && (c <=? 57343))%N.
Definition surrogate (c : N) : bool := ((55296 <=? c) && (c <=? 57343))%N.

(** The code unit that is written for a code unit that is not part of a
    pair, and the bytes it takes. *)
Definition written (c : N) : N := if surrogate c then 63%N else c.

Definition utf8_bytes (c : N) : Z :=
  if (c <? 128)%N then 1
  else if (c <? 2048)%N then 2
  else if surrogate c then 1
  else 3.

Fixpoint utf8_length (s : jsstring) : Z :=
  match s with
  | [] => 0
  | c :: s' =>
      match s' with
      | lo :: rest =>
          if high_surrogate c && low_surrogate lo then 4 + utf8_length rest
          else utf8_bytes c + utf8_length s'
      | [] => utf8_bytes c
      end
  end.

(** The text that the column holds afterwards. *)
Fixpoint db_text (s : jsstring) : jsstring :=
  match s with
  | [] => []
  | c :: s' =>
      match s' with
      | lo :: rest =>
          if high_surrogate c && low_surrogate lo then c :: lo :: db_text rest
          else written c :: db_text s'
      | [] => [written c]
      end
  end.

(** ** Errors of the database *)

Inductive db_error :=
| ER_DUP_ENTRY            (* 1062: duplicate value of a PRIMARY or UNIQUE key *)
| ER_NO_REFERENCED_ROW    (* 1452: a FOREIGN KEY names no row *)
| ER_DATA_TOO_LONG        (* 1406: value longer than the column *)
| ER_BAD_FIELD_ERROR.     (* 1054: a name that is no column *)

Inductive result (A : Type) :=
| Ok (a : A)
| Err (e : db_error).
Arguments Ok {A} a.
Arguments Err {A} e.

(** Statements run in sequence; the first error ends the sequence. *)
#[global] Instance result_bind : MBind result := λ A B k r,
  match r with
  | Ok a => k a
  | Err e => Err e
  end.

#[global] Instance result_ret : MRet result := λ A a, Ok a.

Definition is_ok {A} (r : result A) : bool :=
  match r with Ok _ => true | Err _ => false end.

(** ** The schema

    One record per table, with the columns the server reads or writes. A
    table whose PRIMARY KEY is a pair is a finite map keyed by that pair; a
    table with an AUTO_INCREMENT key is the list of its rows in insertion
    order, with the counter kept beside it. Timestamps are integers. *)

Record user_row := {
  u_id : Z;
  u_username : string;
  u_email : string;
  u_is_active : bool
}.

Inductive conv_type := dm | group.

Record conv_row := {
  c_id : Z;
  c_type : conv_type;
  c_title : option string;
  c_created_by : option Z;
  c_created_at : Z
}.

Inductive member_role := member | admin.

Record member_row := {
  cm_role : member_role;
  cm_joined_at : Z;
  cm_left_at : option Z
}.

Inductive msg_type := text | system.

Record msg_row := {
  m_id : Z;
  m_conversation_id : Z;
  m_sender_user_id : Z;
  m_body : jsstring;
  m_msg_type : msg_type;
  m_created_at : Z
}.

Record receipt_row := {
  r_device_id : option Z;
  r_delivered_at : option Z;
  r_read_at : option Z
}.

Record DB := {
  users : list user_row;
  conversations : list conv_row;
  conv_auto_inc : Z;
  (* PRIMARY KEY (conversation_id, user_id) *)
  conversation_members : gmap (Z * Z) member_row;
  messages : list msg_row;
  msg_auto_inc : Z;
  (* PRIMARY KEY (message_id, user_id) *)
  message_receipts : gmap (Z * Z) receipt_row;
  (* PRIMARY KEY (blocker_user_id, blocked_user_id) *)
  user_blocks : gset (Z * Z)
}.

Definition set_users (db : DB) (us : list user_row) : DB :=
  {| users := us; conversations := conversations db;
     conv_auto_inc := conv_auto_inc db;
     conversation_members := conversation_members db;
     messages := messages db; msg_auto_inc := msg_auto_inc db;
     message_receipts := message_receipts db; user_blocks := user_blocks db |}.

Definition set_conversations (db : DB) (cs : list conv_row) (next : Z) : DB :=
  {| users := users db; conversations := cs; conv_auto_inc := next;
     conversation_members := conversation_members db;
     messages := messages db; msg_auto_inc := msg_auto_inc db;
     message_receipts := message_receipts db; user_blocks := user_blocks db |}.

Definition set_members (db : DB) (ms : gmap (Z * Z) member_row) : DB :=
  {| users := users db; conversations := conversations db;
     conv_auto_inc := conv_auto_inc db; conversation_members := ms;
     messages := messages db; msg_auto_inc := msg_auto_inc db;
     message_receipts := message_receipts db; user_blocks := user_blocks db |}.

Definition set_messages (db : DB) (ms : list msg_row) (next : Z) : DB :=
  {| users := users db; conversations := conversations db;
     conv_auto_inc := conv_auto_inc db;
     conversation_members := conversation_members db;
     messages := ms; msg_auto_inc := next;
     message_receipts := message_receipts db; user_blocks := user_blocks db |}.

Definition set_receipts (db : DB) (rs : gmap (Z * Z) receipt_row) : DB :=
  {| users := users db; conversations := conversations db;
     conv_auto_inc := conv_auto_inc db;
     conversation_members := conversation_members db;
     messages := messages db; msg_auto_inc := msg_auto_inc db;
     message_receipts := rs; user_blocks := user_blocks db |}.

(** ** Statements *)

Definition some {A} (o : option A) : bool :=
  match o with Some _ => true | None => false end.

(** [SELECT ... FROM users WHERE id = ? LIMIT 1] *)
Definition select_user (db : DB) (id : Z) : option user_row :=
  find (λ u, bool_decide (u_id u = id)) (users db).

(** A row that comes into [users] while the server runs: [POST
    /api/register] inserts one, under a key that is new. The checks and the
    hashing of that endpoint are not part of the model. *)
Definition add_user (db : DB) (u : user_row) : DB :=
  if some (select_user db (u_id u)) then db
  else set_users db (users db ++ [u]).

Definition select_conversation (db : DB) (id : Z) : option conv_row :=
  find (λ c, bool_decide (c_id c = id)) (conversations db).

(** [SELECT sender_user_id FROM messages WHERE id = ? LIMIT 1] and the
    lookup behind [fk_receipts_message]. *)
Definition select_message (db : DB) (id : Z) : option msg_row :=
  find (λ m, bool_decide (m_id m = id)) (messages db).

(** [SELECT 1 FROM user_blocks WHERE blocker_user_id = ? AND
    blocked_user_id = ? LIMIT 1] has a row. *)
Definition select_blocked (db : DB) (blocker blocked : Z) : bool :=
  bool_decide ((blocker, blocked) ∈ user_blocks db).

Definition is_member (db : DB) (conv user : Z) : bool :=
  some (conversation_members db !! (conv, user)).

Definition is_dm (c : conv_row) : bool :=
  match c_type c with dm => true | group => false end.

(** The lookup of [getOrCreateDM]: a [dm] conversation that has a member
    row for each of the two ids. The statement has [LIMIT 1] and no [ORDER
    BY]: of several such conversations the model takes the first in the
    order of the table. *)
Definition select_dm (db : DB) (minId maxId : Z) : option Z :=
  c_id <$> find (λ c, is_dm c && is_member db (c_id c) minId
                       && is_member db (c_id c) maxId)
                (conversations db).

(** [INSERT INTO conversations (type, title, created_by) VALUES ('dm', NULL,
    ?)]: the counter moves also when [fk_conv_created_by] refuses the row. *)
Definition insert_conversation (db : DB) (created_by now : Z)
    : result Z * DB :=
  let id := conv_auto_inc db in
  if some (select_user db created_by) then
    (Ok id,
     set_conversations db
       (conversations db ++
        [{| c_id := id; c_type := dm; c_title := None;
            c_created_by := Some created_by; c_created_at := now |}])
       (id + 1))
  else (Err ER_NO_REFERENCED_ROW, set_conversations db (conversations db) (id + 1)).

(** One row of [INSERT INTO conversation_members (conversation_id, user_id,
    role) VALUES (?, ?, 'member')]. *)
Definition insert_member (db : DB) (conv user now : Z) : result DB :=
  if some (conversation_members db !! (conv, user)) then Err ER_DUP_ENTRY
  else if negb (some (select_conversation db conv)) then Err ER_NO_REFERENCED_ROW
  else if negb (some (select_user db user)) then Err ER_NO_REFERENCED_ROW
  else Ok (set_members db
             (<[(conv, user) := {| cm_role := member; cm_joined_at := now;
                                   cm_left_at := None |}]>
                (conversation_members db))).

(** [TEXT] holds 65535 bytes; under the strict SQL mode, the default of the
    server, a longer value is refused. *)
Definition text_max : Z := 65535.

(** [INSERT INTO messages (conversation_id, sender_user_id, body, msg_type)
    VALUES (?, ?, ?, 'text')] *)
Definition insert_message (db : DB) (conv sender : Z) (body : jsstring)
    (now : Z) : result Z * DB :=
  let id := msg_auto_inc db in
  if bool_decide (text_max < utf8_length body) then (Err ER_DATA_TOO_LONG, db)
  else if some (select_conversation db conv) && some (select_user db sender) then
    (Ok id,
     set_messages db
       (messages db ++
        [{| m_id := id; m_conversation_id := conv; m_sender_user_id := sender;
            m_body := db_text body; m_msg_type := text; m_created_at := now |}])
       (id + 1))
  else (Err ER_NO_REFERENCED_ROW, set_messages db (messages db) (id + 1)).

(** [COALESCE(delivered_at, VALUES(delivered_at))] *)
Definition coalesce {A} (a b : option A) : option A :=
  match a with Some _ => a | None => b end.

(** [INSERT INTO message_receipts (message_id, user_id, delivered_at)
    VALUES (?, ?, NOW()) ON DUPLICATE KEY UPDATE delivered_at =
    COALESCE(delivered_at, VALUES(delivered_at))] *)
Definition upsert_receipt (db : DB) (msg user now : Z) : result DB :=
  match message_receipts db !! (msg, user) with
  | Some r =>
      Ok (set_receipts db
            (<[(msg, user) := {| r_device_id := r_device_id r;
                                 r_delivered_at := coalesce (r_delivered_at r) (Some now);
                                 r_read_at := r_read_at r |}]>
               (message_receipts db)))
  | None =>
      if negb (some (select_message db msg)) then Err ER_NO_REFERENCED_ROW
      else if negb (some (select_user db user)) then Err ER_NO_REFERENCED_ROW
      else Ok (set_receipts db
                 (<[(msg, user) := {| r_device_id := None;
                                      r_delivered_at := Some now;
                                      r_read_at := None |}]>
                    (message_receipts db)))
  end.

(** The receipt of [user] for [msg] has [delivered_at] set. *)
Definition delivered_at (db : DB) (msg user : Z) : option Z :=
  r ← message_receipts db !! (msg, user); r_delivered_at r.

(** The row filter of [deliverPendingToUser]: the JOIN finds the member row
    of the user, the LEFT JOIN finds no receipt or one whose [delivered_at]
    is NULL. *)
Definition pending (db : DB) (user : Z) (m : msg_row) : bool :=
  is_member db (m_conversation_id m) user
  && negb (some (delivered_at db (m_id m) user)).

Definition created_le (a b : msg_row) : Prop := m_created_at a ≤ m_created_at b.

#[global] Instance created_le_dec : RelDecision created_le :=
  λ a b, Z.le_dec (m_created_at a) (m_created_at b).

(** [LIMIT 500] *)
Definition page_size : nat := 500.

(** The query of [deliverPendingToUser]. Rows of one [created_at] come in
    an order the database is free to choose; here it is the one of the
    sort. *)
Definition select_pending (db : DB) (user : Z) : list msg_row :=
  take page_size
    (merge_sort created_le
       (filter (λ m, pending db user m = true) (messages db))).

(** ** What the schema keeps true

    Keys handed out by AUTO_INCREMENT are positive and below the counter;
    a member row and a receipt row name rows that exist
    ([fk_members_conversation], [fk_members_user], [fk_receipts_message],
    [fk_receipts_user]). *)
Record schema_ok (d : DB) : Prop := {
  ok_counters : 0 < conv_auto_inc d ∧ 0 < msg_auto_inc d;
  ok_conv_id : ∀ c, c ∈ conversations d → 0 < c_id c < conv_auto_inc d;
  ok_msg_id : ∀ m, m ∈ messages d → 0 < m_id m < msg_auto_inc d;
  ok_member_fk : ∀ c u, is_member d c u = true →
    some (select_conversation d c) = true ∧ some (select_user d u) = true;
  ok_receipt_fk : ∀ m u, some (message_receipts d !! (m, u)) = true →
    some (select_message d m) = true ∧ some (select_user d u) = true
}.

(** ** [getOrCreateDM]

    The transaction of [getOrCreateDM]: a new [dm] conversation created by
    [userA] and one member row per user. When a statement fails, the catch
    block rolls the tables back and rethrows; the AUTO_INCREMENT counter is
    not transactional and keeps the value it reached. *)
Definition rollback (before after : DB) : DB :=
  set_conversations before (conversations before) (conv_auto_inc after).

Definition create_dm (db : DB) (userA userB now : Z) : result Z * DB :=
  let '(r, db1) := insert_conversation db userA now in
  match r with
  | Err e => (Err e, rollback db db1)
  | Ok conversationId =>
      match (db2 ← insert_member db1 conversationId userA now;
             insert_member db2 conversationId userB now) with
      | Ok db3 => (Ok conversationId, db3)
      | Err e => (Err e, rollback db db1)
      end
  end.

Arguments create_dm : simpl never.

Definition min_max (userA userB : Z) : Z * Z :=
  if bool_decide (userA < userB) then (userA, userB) else (userB, userA).

Definition getOrCreateDM (db : DB) (userA userB now : Z) : result Z * DB :=
  let '(minId, maxId) := min_max userA userB in
  match select_dm db minId maxId with
  | Some id => (Ok id, db)
  | None => create_dm db userA userB now
  end.

(** *** The call of [msg_send]

    [getOrCreateDM(fromUserId, toUserId)] as the handler calls it: [userB]
    is the number of the message, and the value returned is [rows[0].id],
    a BigInt, when the lookup finds a conversation, and
    [Number(r.insertId)] when the transaction creates one. A [userB] that
    is no integer matches no member row and is rounded in the member row
    that is inserted. *)
Definition getOrCreateDM_call (db : DB) (userA : Z) (userB : jsnum) (now : Z)
    : result jskey * DB :=
  match as_integer userB with
  | Some b =>
      let '(minId, maxId) := min_max userA b in
      match select_dm db minId maxId with
      | Some id => (Ok (AsBigInt id), db)
      | None =>
          let '(r, db') := create_dm db userA b now in
          (conversationId ← r; Ok (AsNumber conversationId), db')
      end
  | None =>
      match sql_round userB with
      | Some b =>
          let '(r, db') := create_dm db userA b now in
          (conversationId ← r; Ok (AsNumber conversationId), db')
      | None => (Err ER_BAD_FIELD_ERROR, db)
      end
  end.

(** [SELECT 1 FROM user_blocks WHERE blocker_user_id = ? AND
    blocked_user_id = ? LIMIT 1] with the number of the message as the
    blocker. *)
Definition select_blocked_by (db : DB) (blocker : jsnum) (blocked : Z)
    : result bool :=
  match sql_round blocker with
  | None => Err ER_BAD_FIELD_ERROR
  | Some _ =>
      Ok (match as_integer blocker with
          | Some b => select_blocked db b blocked
          | None => false
          end)
  end.

(** *** Two calls in flight

    [getOrCreateDM] awaits the SELECT and then, on another connection of the
    pool, the transaction: other handlers run between the two. The
    transaction itself is one step, its rows being read by nobody before it
    commits. A call in flight is at one of these points. *)
Inductive dm_call :=
| AtSelect (userA userB : Z)
| AtCreate (userA userB : Z)
| Resolved (r : result Z).

Definition dm_step (c : dm_call) (db : DB) (now : Z) : dm_call * DB :=
  match c with
  | AtSelect userA userB =>
      let '(minId, maxId) := min_max userA userB in
      match select_dm db minId maxId with
      | Some id => (Resolved (Ok id), db)
      | None => (AtCreate userA userB, db)
      end
  | AtCreate userA userB =>
      let '(r, db') := create_dm db userA userB now in (Resolved r, db')
  | Resolved r => (Resolved r, db)
  end.

(** A schedule names, step by step, which of two calls runs next. *)
Inductive turn := First | Second.

Fixpoint dm_run (sched : list turn) (c1 c2 : dm_call) (db : DB) (now : Z)
    : dm_call * dm_call * DB :=
  match sched with
  | [] => (c1, c2, db)
  | First :: sched' =>
      let '(c1', db') := dm_step c1 db now in dm_run sched' c1' c2 db' now
  | Second :: sched' =>
      let '(c2', db') := dm_step c2 db now in dm_run sched' c1 c2' db' now
  end.

(** The [dm] conversations that have both users as members. *)
Definition dm_rows (db : DB) (a b : Z) : list conv_row :=
  filter (λ c, (is_dm c && is_member db (c_id c) a && is_member db (c_id c) b) = true)
         (conversations db).

(** ** The server state *)

Inductive ready_state := CONNECTING | OPEN | CLOSING | CLOSED.

(** A socket object is named by a number. *)
Abbreviation sock := nat.

Record session := {
  s_userId : Z;
  s_username : string
}.

Record server := {
  db : DB;
  (* userId -> Set(ws), a Set in insertion order *)
  connectionsByUser : gmap Z (list sock);
  (* ws -> { userId, username } *)
  sessionBySocket : gmap sock session;
  (* wss.clients, in insertion order *)
  clients : list sock;
  (* ws.readyState of the sockets created so far *)
  readyState : gmap sock ready_state
}.

Definition set_db (s : server) (d : DB) : server :=
  {| db := d; connectionsByUser := connectionsByUser s;
     sessionBySocket := sessionBySocket s; clients := clients s;
     readyState := readyState s |}.

Definition set_registry (s : server) (r : gmap Z (list sock)) : server :=
  {| db := db s; connectionsByUser := r;
     sessionBySocket := sessionBySocket s; clients := clients s;
     readyState := readyState s |}.

Definition set_sessions (s : server) (m : gmap sock session) : server :=
  {| db := db s; connectionsByUser := connectionsByUser s;
     sessionBySocket := m; clients := clients s;
     readyState := readyState s |}.

Definition set_transport (s : server) (cl : list sock)
    (rs : gmap sock ready_state) : server :=
  {| db := db s; connectionsByUser := connectionsByUser s;
     sessionBySocket := sessionBySocket s; clients := cl;
     readyState := rs |}.

(** The server as it starts: no socket, no session. *)
Definition boot (d : DB) : server :=
  {| db := d; connectionsByUser := ∅; sessionBySocket := ∅;
     clients := []; readyState := ∅ |}.

(** [Set.prototype.add] and [Set.prototype.delete] *)
Definition set_add (ws : sock) (l : list sock) : list sock :=
  if bool_decide (ws ∈ l) then l else l ++ [ws].

Definition set_remove (ws : sock) (l : list sock) : list sock :=
  filter (λ x, x ≠ ws) l.

(** [ws.readyState === ws.OPEN] *)
Definition is_open (s : server) (ws : sock) : bool :=
  match readyState s !! ws with
  | Some OPEN => true
  | _ => false
  end.

(** ** Messages of the wire protocol *)

Inductive error_code :=
| invalid_json | unauthorized | bad_request | blocked | unknown_type.

(** An element of [users] in a [users] message: [{id, username, email,
    online}]. *)
Record roster_entry := {
  e_id : Z;
  e_username : string;
  e_email : string;
  e_online : bool
}.

(** What the server serialises with [JSON.stringify]. *)
Inductive server_msg :=
| error (e : error_code)
| hello_ok (userId : Z) (username : string)
| users_list (users : list roster_entry)
| msg_new (msgId conversationId fromUserId : Z) (body : jsstring) (createdAt : Z)
| msg_sent (msgId conversationId : Z)
| msg_delivered (msgId byUserId : Z).

(** What a parsed client message asks for, read as the handler reads it:
    [token] is [msg.token], [toUserId] is [Number(msg.toUserId)], [body] is
    [String(msg.body ?? '')], [msgId] is [Number(msg.msgId)]. [Number] and
    [String] throw on an object that has no callable [toString] or
    [valueOf]: a message with such a field is [msg_send_unreadable] or
    [msg_delivered_unreadable]. *)
Inductive client_msg :=
| hello (token : string)
| msg_send (toUserId : jsnum) (body : jsstring)
| msg_delivered_ack (msgId : jsnum)
| other_type
| msg_send_unreadable
| msg_delivered_unreadable.

(** A frame: text that [JSON.parse] refuses, the text [null] (reading
    [msg.type] throws), or a value with a [type] to read. *)
Inductive frame :=
| BadJson
| JsonNull
| Json (m : client_msg).

(** The calls a handler makes on the transport. *)
Inductive action :=
| Send (ws : sock) (m : server_msg)
| Close (ws : sock) (code : Z) (reason : string).

Inductive js_error :=
| TypeError
| RangeError
| SqlError (e : db_error).

(** The objects that hold a key of a BIGINT column. [JSON.stringify] throws
    a TypeError on a BigInt. *)
Inductive obj :=
| msg_new_obj (msgId conversationId : jskey) (fromUserId : Z) (body : jsstring)
              (createdAt : Z)
| msg_sent_obj (msgId : Z) (conversationId : jskey).

Definition stringify (o : obj) : option server_msg :=
  match o with
  | msg_new_obj (AsNumber msgId) (AsNumber conversationId) fromUserId body createdAt =>
      Some (msg_new msgId conversationId fromUserId body createdAt)
  | msg_sent_obj msgId (AsNumber conversationId) =>
      Some (msg_sent msgId conversationId)
  | _ => None
  end.

(** The handlers are async functions that nothing awaits: an exception
    rejects the promise and the client gets no message. *)
Inductive completion :=
| Returned
| Rejected (e : js_error).

Record outcome := {
  st : server;
  out : list action;
  how : completion
}.

(** A stretch of a handler: the calls it makes on the transport and the way
    it ends. What follows a stretch that throws does not run. *)
Record script := {
  sends : list action;
  ends : completion
}.

Definition said (l : list action) : script := {| sends := l; ends := Returned |}.

Definition thrown (e : js_error) : script := {| sends := []; ends := Rejected e |}.

Definition and_then (a b : script) : script :=
  match ends a with
  | Returned => {| sends := sends a ++ sends b; ends := ends b |}
  | Rejected _ => a
  end.

(** The clocks a handler reads: [NOW()] and [CURRENT_TIMESTAMP] of the
    database, [new Date()] of the server. *)
Record clock := {
  db_now : Z;
  js_now : Z
}.

(** ** What the server takes from outside

    [verifyToken] rests on the HMAC of the token: it is taken as given, by
    what the handshake sees of it. It throws on a signature that has not
    the length of the digest ([Thrown]); it answers [null], or a payload
    whose [userId] is missing, [0], empty or another value that [!] takes
    for false ([NoUserId]); or it answers a payload whose [userId] passes
    that test, and [Number(payload.userId)] is the number given ([UserId])
    or throws, on an object whose [toString] is no function
    ([Unreadable]). [collate_le] is the order of [ORDER BY username ASC] under
    the collation of the database ([utf8mb4_uca1400_ai_ci]): a total
    preorder on strings. *)
Inductive verified :=
| Thrown
| Unreadable
| NoUserId
| UserId (n : jsnum).

Class Collaborators := {
  verifyToken : string → verified;
  collate_le : relation string;
  collate_dec :: RelDecision collate_le;
  collate_total :: Total collate_le;
  collate_trans :: Transitive collate_le
}.

(** ** The helpers and the handlers *)

Section Server.

Context `{Collaborators}.

Definition by_username (a b : user_row) : Prop :=
  collate_le (u_username a) (u_username b).

#[global] Instance by_username_dec : RelDecision by_username :=
  λ a b, decide_rel collate_le (u_username a) (u_username b).

Definition isUserOnline (s : server) (userId : Z) : bool :=
  match connectionsByUser s !! userId with
  | Some set => bool_decide (0 < length set)%nat
  | None => false
  end.

Definition safeSend (s : server) (ws : sock) (m : server_msg) : list action :=
  if is_open s ws then [Send ws m] else [].

Definition sendToUser (s : server) (userId : Z) (m : server_msg)
    : list action :=
  match connectionsByUser s !! userId with
  | None => []
  | Some set => set ≫= λ ws, safeSend s ws m
  end.

(** [SELECT id, username, email, is_active FROM users ORDER BY username
    ASC], then [filter] and [map]. *)
Definition roster (s : server) : list roster_entry :=
  (λ u, {| e_id := u_id u; e_username := u_username u;
           e_email := u_email u; e_online := isUserOnline s (u_id u) |})
    <$> filter (λ u, u_is_active u = true)
               (merge_sort by_username (users (db s))).

Definition sendUsersList (s : server) (toWs : option sock) : list action :=
  let msg := users_list (roster s) in
  match toWs with
  | Some ws => safeSend s ws msg
  | None => clients s ≫= λ ws, safeSend s ws msg
  end.

(** [safeSend] and [sendToUser] with an object that may hold a BigInt:
    [JSON.stringify] runs, and throws, when the socket is open and when the
    user has a connection set. *)
Definition safeSend_obj (s : server) (ws : sock) (o : obj) : script :=
  if is_open s ws then
    match stringify o with
    | Some m => said [Send ws m]
    | None => thrown TypeError
    end
  else said [].

Definition sendToUser_obj (s : server) (userId : jsnum) (o : obj) : script :=
  match as_integer userId ≫= (λ u, connectionsByUser s !! u) with
  | None => said []
  | Some set =>
      match stringify o with
      | Some m => said (set ≫= λ ws, safeSend s ws m)
      | None => thrown TypeError
      end
  end.

(** The object made of a row of the query: [m.id] and [m.conversation_id]
    are BIGINT columns, [m.sender_user_id] is an INT column. *)
Definition msg_new_of (m : msg_row) : obj :=
  msg_new_obj (AsBigInt (m_id m)) (AsBigInt (m_conversation_id m))
              (m_sender_user_id m) (m_body m) (m_created_at m).

Definition deliverPendingToUser (s : server) (userId : Z) : script :=
  foldr (λ m rest, and_then (sendToUser_obj s (Num userId) (msg_new_of m)) rest)
        (said []) (select_pending (db s) userId).

(** [ws.close(code, reason)] starts the closing handshake of an open
    socket. *)
Definition ws_close (s : server) (ws : sock) : server :=
  if is_open s ws
  then set_transport s (clients s) (<[ws := CLOSING]> (readyState s))
  else s.

Definition refuse (s : server) (ws : sock) : outcome :=
  {| st := ws_close s ws;
     out := safeSend s ws (error unauthorized) ++ [Close ws 1008 "unauthorized"];
     how := Returned |}.

Definition reply (s : server) (ws : sock) (m : server_msg) : outcome :=
  {| st := s; out := safeSend s ws m; how := Returned |}.

Definition register (s : server) (ws : sock) (userId : Z) (name : string)
    : server :=
  let s1 := set_sessions s (<[ws := {| s_userId := userId; s_username := name |}]>
                              (sessionBySocket s)) in
  let set := default [] (connectionsByUser s1 !! userId) in
  set_registry s1 (<[userId := set_add ws set]> (connectionsByUser s1)).

Definition throw (s : server) (e : js_error) : outcome :=
  {| st := s; out := []; how := Rejected e |}.

(** 1) handshake *)
Definition on_hello (s : server) (ws : sock) (token : string) : outcome :=
  match verifyToken token with
  | Thrown => throw s RangeError
  | Unreadable => throw s TypeError
  | NoUserId => refuse s ws
  | UserId n =>
      match sql_round n with
      | None => throw s (SqlError ER_BAD_FIELD_ERROR)
      | Some _ =>
          match as_integer n with
          | Some userId =>
              match select_user (db s) userId with
              | Some u =>
                  if u_is_active u then
                    let s1 := register s ws userId (u_username u) in
                    let replay := deliverPendingToUser s1 userId in
                    {| st := s1;
                       out := safeSend s1 ws (hello_ok userId (u_username u))
                              ++ sendUsersList s1 None
                              ++ sends replay;
                       how := ends replay |}
                  else refuse s ws
              | None => refuse s ws
              end
          | None => refuse s ws
          end
      end
  end.

(** 2) send a message (DM) *)
Definition on_msg_send (s : server) (ws : sock) (sess : session)
    (toUserId : jsnum) (body0 : jsstring) (clk : clock) : outcome :=
  let fromUserId := s_userId sess in
  let body := trim body0 in
  if negb (truthy toUserId) || bool_decide (body = [])
  then reply s ws (error bad_request)
  else
    match select_blocked_by (db s) toUserId fromUserId with
    | Err e => throw s (SqlError e)
    | Ok true => reply s ws (error blocked)
    | Ok false =>
        let '(r, db1) := getOrCreateDM_call (db s) fromUserId toUserId (db_now clk) in
        match r with
        | Err e => throw (set_db s db1) (SqlError e)
        | Ok conversationId =>
            let '(r2, db2) := insert_message db1 (key_value conversationId)
                                             fromUserId body (db_now clk) in
            match r2 with
            | Err e => throw (set_db s db2) (SqlError e)
            | Ok msgId =>
                let s2 := set_db s db2 in
                let push :=
                  and_then
                    (sendToUser_obj s2 toUserId
                       (msg_new_obj (AsNumber msgId) conversationId fromUserId body
                                    (js_now clk)))
                    (safeSend_obj s2 ws (msg_sent_obj msgId conversationId)) in
                {| st := s2; out := sends push; how := ends push |}
            end
        end
    end.

(** 3) delivery ACK *)
Definition on_msg_delivered (s : server) (ws : sock) (sess : session)
    (msgId : jsnum) (clk : clock) : outcome :=
  let userId := s_userId sess in
  if negb (truthy msgId) then reply s ws (error bad_request)
  else
    match sql_round msgId with
    | None => throw s (SqlError ER_BAD_FIELD_ERROR)
    | Some stored =>
        match upsert_receipt (db s) stored userId (db_now clk) with
        | Err e => throw s (SqlError e)
        | Ok db1 =>
            let s1 := set_db s db1 in
            {| st := s1;
               out := match as_integer msgId with
                      | Some mid =>
                          match select_message db1 mid with
                          | Some m => sendToUser s1 (m_sender_user_id m)
                                        (msg_delivered mid userId)
                          | None => []
                          end
                      | None => []
                      end;
               how := Returned |}
        end
    end.

(** [ws.on('message', ...)] *)
Definition on_message (s : server) (ws : sock) (f : frame) (clk : clock)
    : outcome :=
  match f with
  | BadJson => reply s ws (error invalid_json)
  | JsonNull => throw s TypeError
  | Json (hello token) => on_hello s ws token
  | Json m =>
      match sessionBySocket s !! ws with
      | None => reply s ws (error unauthorized)
      | Some sess =>
          match m with
          | msg_send toUserId body => on_msg_send s ws sess toUserId body clk
          | msg_delivered_ack msgId => on_msg_delivered s ws sess msgId clk
          | msg_send_unreadable | msg_delivered_unreadable => throw s TypeError
          | _ => reply s ws (error unknown_type)
          end
      end
  end.

(** [ws.on('close', ...)] *)
Definition on_close (s : server) (ws : sock) : outcome :=
  match sessionBySocket s !! ws with
  | None => {| st := s; out := []; how := Returned |}
  | Some sess =>
      let userId := s_userId sess in
      let s1 :=
        match connectionsByUser s !! userId with
        | Some set =>
            let set' := set_remove ws set in
            if bool_decide (length set' = 0%nat)
            then set_registry s (delete userId (connectionsByUser s))
            else set_registry s (<[userId := set']> (connectionsByUser s))
        | None => s
        end in
      {| st := s1; out := sendUsersList s1 None; how := Returned |}
  end.

(** ** Events of the WebSocket server *)

Inductive event :=
| Connection (ws : sock)                      (* a socket is accepted *)
| Message (ws : sock) (f : frame) (clk : clock)
| Closed (ws : sock)                          (* the socket has closed *)
| Registered (u : user_row).                  (* a user row has been inserted *)

(** The library adds an accepted socket to [wss.clients]; when a socket
    closes it removes it before the [close] handler of the server runs. *)
Definition accept (s : server) (ws : sock) : server :=
  set_transport s (set_add ws (clients s)) (<[ws := OPEN]> (readyState s)).

Definition detach (s : server) (ws : sock) : server :=
  set_transport s (set_remove ws (clients s)) (<[ws := CLOSED]> (readyState s)).

Definition step (s : server) (e : event) : outcome :=
  match e with
  | Connection ws => {| st := accept s ws; out := []; how := Returned |}
  | Message ws f clk => on_message s ws f clk
  | Closed ws => on_close (detach s ws) ws
  | Registered u =>
      {| st := set_db s (add_user (db s) u); out := []; how := Returned |}
  end.

Definition run (s : server) (es : list event) : server :=
  foldl (λ s e, st (step s e)) s es.

(** The states the server reaches from its start, over a database that
    satisfies its schema, through the events above. *)
Inductive reachable : server → Prop :=
| reach_boot d : schema_ok d → reachable (boot d)
| reach_step s e : reachable s → reachable (st (step s e)).

(** [connectionsOf(userId)]: the connection set of a user, empty when the
    registry has no entry. *)
Definition connectionsOf (s : server) (userId : Z) : list sock :=
  default [] (connectionsByUser s !! userId).

(** What holds in every reachable state. *)
Record invariant (s : server) : Prop := {
  inv_schema : schema_ok (db s);
  inv_nonempty : ∀ u set, connectionsByUser s !! u = Some set → set ≠ [];
  inv_nodup : ∀ u set, connectionsByUser s !! u = Some set → NoDup set;
  inv_session : ∀ ws sess, sessionBySocket s !! ws = Some sess →
    some (select_user (db s) (s_userId sess)) = true
}.

End Server.

(** ** The words of the specification *)

(** *** The backlog of a user

    A message is undelivered to a user when it is in a conversation the
    user is a member of and no receipt of the user for it has
    [delivered_at] set. *)
Definition undelivered (d : DB) (user : Z) (m : msg_row) : Prop :=
  is_Some (conversation_members d !! (m_conversation_id m, user))
  ∧ ∀ r, message_receipts d !! (m_id m, user) = Some r → r_delivered_at r = None.

#[global] Instance undelivered_dec d user m : Decision (undelivered d user m).
Proof.
  unfold undelivered.
  destruct (decide (is_Some (conversation_members d !! (m_conversation_id m, user))))
    as [Hm|Hm]; [|right; tauto].
  destruct (message_receipts d !! (m_id m, user)) as [r|].
  - destruct (r_delivered_at r) as [t|] eqn:Hr.
    + right. intros [_ Hn]. specialize (Hn r eq_refl). congruence.
    + left. split; [exact Hm|]. intros r' Hr'. congruence.
  - left. split; [exact Hm|]. intros r' Hr'. discriminate.
Defined.

(** A backlog is the undelivered messages of the user, oldest first, cut
    to a page: what it leaves out is no older than what it holds, and it
    leaves nothing out unless the page is full. *)
Record is_backlog (d : DB) (user : Z) (l : list msg_row) : Prop := {
  backlog_sorted : StronglySorted created_le l;
  backlog_bound : (length l ≤ page_size)%nat;
  backlog_oldest : ∃ rest,
    l ++ rest ≡ₚ filter (undelivered d user) (messages d)
    ∧ (∀ a b, a ∈ l → b ∈ rest → created_le a b)
    ∧ (rest ≠ [] → length l = page_size)
}.

(** *** The roster

    Exactly the active users, each as [{id, username, email, online}] with
    [online] as [isUserOnline] answers, in the order of their usernames. *)
Section Words.

Context `{Collaborators}.

Definition entry_of (s : server) (u : user_row) : roster_entry :=
  {| e_id := u_id u; e_username := u_username u; e_email := u_email u;
     e_online := isUserOnline s (u_id u) |}.

Definition by_entry_name (a b : roster_entry) : Prop :=
  collate_le (e_username a) (e_username b).

Record is_roster (s : server) (l : list roster_entry) : Prop := {
  roster_exact : l ≡ₚ entry_of s <$> filter (λ u, u_is_active u = true) (users (db s));
  roster_sorted : StronglySorted by_entry_name l
}.

(** Every connected client is sent the roster of the state the event
    leaves. *)
Definition broadcast_after (s : server) (e : event) : Prop :=
  let o := step s e in
  is_roster (st o) (roster (st o))
  ∧ ∀ c, c ∈ clients (st o) → is_open (st o) c = true →
      Send c (users_list (roster (st o))) ∈ out o.

(** A handshake that succeeds: the token names an active user. *)
Inductive handshake (s : server) (userId : Z) : event → Prop :=
| handshake_hello ws token clk n u :
    verifyToken token = UserId n →
    as_integer n = Some userId →
    select_user (db s) userId = Some u →
    u_is_active u = true →
    handshake s userId (Message ws (Json (hello token)) clk).

(** *** Sentences of the specification that the code does not meet, as
    they are stated *)


(** [toUserId] resolves to an existing active user. *)
Definition resolves_active (d : DB) (toUserId : jsnum) : bool :=
  match as_integer toUserId with
  | Some z => match select_user d z with
              | Some u => u_is_active u
              | None => false
              end
  | None => false
  end.

(** [toUserId], as a member row would store it, names a row of [users]. *)
Definition names_user (d : DB) (toUserId : jsnum) : bool :=
  match sql_round toUserId with
  | Some z => some (select_user d z)
  | None => false
  end.

(** A [msg_send] whose recipient is no active user, or whose body is empty
    once trimmed, is answered [bad_request] and inserts no message. *)
Definition rejects_unknown_recipient : Prop :=
  ∀ s ws sess toUserId body clk,
    reachable s →
    sessionBySocket s !! ws = Some sess →
    resolves_active (db s) toUserId = false ∨ trim body = [] →
    let o := step s (Message ws (Json (msg_send toUserId body)) clk) in
    out o = safeSend s ws (error bad_request)
    ∧ messages (db (st o)) = messages (db s).

(** [msgId] is a positive integer that names an existing message. *)
Definition names_message (d : DB) (msgId : jsnum) : bool :=
  match as_integer msgId with
  | Some z => bool_decide (0 < z) && some (select_message d z)
  | None => false
  end.

(** [msgId], as a receipt row would store it, names a row of [messages]. *)
Definition stores_message (d : DB) (msgId : jsnum) : bool :=
  match sql_round msgId with
  | Some z => some (select_message d z)
  | None => false
  end.

(** A [msg_delivered] whose [msgId] names no message is answered
    [bad_request] and changes no receipt. *)
Definition rejects_unknown_message : Prop :=
  ∀ s ws sess msgId clk,
    reachable s →
    sessionBySocket s !! ws = Some sess →
    names_message (db s) msgId = false →
    let o := step s (Message ws (Json (msg_delivered_ack msgId)) clk) in
    out o = safeSend s ws (error bad_request)
    ∧ message_receipts (db (st o)) = message_receipts (db s).

End Words.

(** * Properties *)

(** ** Lookups in a table that grows *)

Lemma find_some_app {A} (f : A → bool) (l l' : list A) :
  some (find f l) = true → find f (l ++ l') = find f l.
Proof.
  induction l as [|x l IH]; simpl; [done|].
  destruct (f x); auto.
Qed.

Lemma find_none_app {A} (f : A → bool) (l l' : list A) :
  find f l = None → find f (l ++ l') = find f l'.
Proof.
  induction l as [|x l IH]; simpl; [done|].
  destruct (f x); [done|auto].
Qed.

Lemma find_some_elem {A} (f : A → bool) (l : list A) (x : A) :
  find f l = Some x → x ∈ l ∧ f x = true.
Proof.
  intros Hf. apply find_some in Hf as [Hin Hx].
  split; [by apply list_elem_of_In|done].
Qed.

Lemma find_none_elem {A} (f : A → bool) (l : list A) (x : A) :
  find f l = None → x ∈ l → f x = false.
Proof.
  intros Hf Hin. apply list_elem_of_In in Hin.
  by apply (find_none f l Hf).
Qed.

Lemma some_true {A} (o : option A) : some o = true ↔ is_Some o.
Proof. destruct o; simpl; split; intros Ho; done. Qed.

Lemma some_false {A} (o : option A) : some o = false ↔ o = None.
Proof. destruct o; simpl; split; done. Qed.

(** ** The statements keep the schema *)

Lemma insert_conversation_ok d created_by now :
  schema_ok d → schema_ok (insert_conversation d created_by now).2.
Proof.
  intros [[Hc Hm] Hcid Hmid Hfk Hrk]. unfold insert_conversation.
  destruct (some (select_user d created_by)); simpl.
  - split; simpl; [lia| |done| |done].
    + intros c [Hin| ->%list_elem_of_singleton]%elem_of_app; simpl; [|lia].
      specialize (Hcid c Hin). lia.
    + intros c u Hmem. destruct (Hfk c u Hmem) as [Hconv Hu]. split; [|done].
      unfold select_conversation in *. simpl. by rewrite find_some_app.
  - split; simpl; [lia| |done|done|done].
    intros c Hin. specialize (Hcid c Hin). lia.
Qed.

Lemma rollback_ok d created_by now :
  schema_ok d → schema_ok (rollback d (insert_conversation d created_by now).2).
Proof.
  intros [[Hc Hm] Hcid Hmid Hfk Hrk]. unfold rollback, insert_conversation.
  destruct (some (select_user d created_by)); simpl.
  all: split; simpl; [lia| |done|done|done].
  all: intros c Hin; specialize (Hcid c Hin); lia.
Qed.

Lemma insert_member_ok d conv user now d' :
  schema_ok d → insert_member d conv user now = Ok d' → schema_ok d'.
Proof.
  intros [Hcnt Hcid Hmid Hfk Hrk]. unfold insert_member.
  destruct (some (conversation_members d !! (conv, user))); [done|].
  destruct (some (select_conversation d conv)) eqn:Hconv; [|done].
  destruct (some (select_user d user)) eqn:Hu; [|done].
  simpl. intros [= <-]. split; simpl; try done.
  intros c u. unfold is_member. simpl.
  destruct (decide ((conv, user) = (c, u))) as [[= <- <-]|Hne].
  - done.
  - rewrite lookup_insert_ne; [|done]. apply Hfk.
Qed.

Lemma create_dm_ok d userA userB now :
  schema_ok d → schema_ok (create_dm d userA userB now).2.
Proof.
  intros Hd. unfold create_dm.
  pose proof (insert_conversation_ok d userA now Hd) as H1.
  pose proof (rollback_ok d userA now Hd) as H2.
  destruct (insert_conversation d userA now) as [[cid|e] d1]; simpl in *; [|done].
  destruct (insert_member d1 cid userA now) as [d2|e] eqn:E2; simpl; [|done].
  destruct (insert_member d2 cid userB now) as [d3|e] eqn:E3; simpl; [|done].
  eauto using insert_member_ok.
Qed.

Lemma getOrCreateDM_ok d userA userB now :
  schema_ok d → schema_ok (getOrCreateDM d userA userB now).2.
Proof.
  intros Hd. unfold getOrCreateDM.
  destruct (min_max userA userB) as [minId maxId].
  destruct (select_dm d minId maxId); [done|by apply create_dm_ok].
Qed.

Lemma insert_message_ok d conv sender body now :
  schema_ok d → schema_ok (insert_message d conv sender body now).2.
Proof.
  intros [[Hc Hm] Hcid Hmid Hfk Hrk]. unfold insert_message.
  case_bool_decide; [done|].
  destruct (some (select_conversation d conv) && some (select_user d sender)); simpl.
  - split; simpl; [lia|done| |done|].
    + intros m [Hin| ->%list_elem_of_singleton]%elem_of_app; simpl; [|lia].
      specialize (Hmid m Hin). lia.
    + intros m u Hr. destruct (Hrk m u Hr) as [Hmsg Hu]. split; [|done].
      unfold select_message in *. simpl. by rewrite find_some_app.
  - split; simpl; [lia|done| |done|done].
    intros m Hin. specialize (Hmid m Hin). lia.
Qed.

Lemma upsert_receipt_ok d msg user now d' :
  schema_ok d → upsert_receipt d msg user now = Ok d' → schema_ok d'.
Proof.
  intros [Hcnt Hcid Hmid Hfk Hrk]. unfold upsert_receipt.
  destruct (message_receipts d !! (msg, user)) as [r|] eqn:Hr.
  - intros [= <-]. split; simpl; try done.
    intros m u.
    destruct (decide ((msg, user) = (m, u))) as [[= <- <-]|Hne].
    + intros _. apply Hrk. by rewrite Hr.
    + rewrite lookup_insert_ne; [|done]. apply Hrk.
  - destruct (some (select_message d msg)) eqn:Hmsg; [|done].
    destruct (some (select_user d user)) eqn:Hu; [|done].
    simpl. intros [= <-]. split; simpl; try done.
    intros m u.
    destruct (decide ((msg, user) = (m, u))) as [[= <- <-]|Hne].
    + done.
    + rewrite lookup_insert_ne; [|done]. apply Hrk.
Qed.

Lemma select_user_add_user d u userId :
  some (select_user d userId) = true →
  some (select_user (add_user d u) userId) = true.
Proof.
  intros Hu. unfold add_user.
  destruct (some (select_user d (u_id u))); [done|].
  unfold select_user in *. simpl. by rewrite find_some_app.
Qed.

Lemma add_user_ok d u : schema_ok d → schema_ok (add_user d u).
Proof.
  intros [Hcnt Hcid Hmid Hfk Hrk].
  assert (add_user d u = d ∨ add_user d u = set_users d (users d ++ [u])) as [-> | Hadd].
  { unfold add_user. destruct (some (select_user d (u_id u))); auto. }
  { by split. }
  split.
  - by rewrite Hadd.
  - by rewrite Hadd.
  - by rewrite Hadd.
  - intros c v Hmem. destruct (Hfk c v) as [Hc Hv]; [by rewrite Hadd in Hmem|].
    split; [by rewrite Hadd|by apply select_user_add_user].
  - intros m v Hr. destruct (Hrk m v) as [Hm Hv]; [by rewrite Hadd in Hr|].
    split; [by rewrite Hadd|by apply select_user_add_user].
Qed.

Lemma add_user_receipts d u : message_receipts (add_user d u) = message_receipts d.
Proof. unfold add_user. by destruct (some (select_user d (u_id u))). Qed.

(** ** The statements leave the users alone *)

Lemma insert_conversation_users d created_by now :
  users (insert_conversation d created_by now).2 = users d.
Proof. unfold insert_conversation. by destruct (some _). Qed.

Lemma insert_member_users d conv user now d' :
  insert_member d conv user now = Ok d' → users d' = users d.
Proof.
  unfold insert_member.
  destruct (some (conversation_members d !! (conv, user))); [done|].
  destruct (some (select_conversation d conv)); [|done].
  destruct (some (select_user d user)); [|done].
  by intros [= <-].
Qed.

Lemma create_dm_users d userA userB now :
  users (create_dm d userA userB now).2 = users d.
Proof.
  unfold create_dm.
  pose proof (insert_conversation_users d userA now) as H1.
  destruct (insert_conversation d userA now) as [[cid|e] d1]; simpl in *; [|done].
  destruct (insert_member d1 cid userA now) as [d2|e] eqn:E2; simpl; [|done].
  destruct (insert_member d2 cid userB now) as [d3|e] eqn:E3; simpl; [|done].
  apply insert_member_users in E2, E3. congruence.
Qed.

Lemma getOrCreateDM_users d userA userB now :
  users (getOrCreateDM d userA userB now).2 = users d.
Proof.
  unfold getOrCreateDM. destruct (min_max userA userB).
  case_match; [done|apply create_dm_users].
Qed.

Lemma insert_message_users d conv sender body now :
  users (insert_message d conv sender body now).2 = users d.
Proof.
  unfold insert_message. case_bool_decide; [done|].
  by destruct (some (select_conversation d conv) && some (select_user d sender)).
Qed.

Lemma upsert_receipt_users d msg user now d' :
  upsert_receipt d msg user now = Ok d' → users d' = users d.
Proof.
  unfold upsert_receipt.
  destruct (message_receipts d !! (msg, user)); [by intros [= <-]|].
  destruct (some (select_message d msg)); [|done].
  destruct (some (select_user d user)); [|done].
  by intros [= <-].
Qed.

Lemma select_user_users d d' userId :
  users d' = users d → select_user d' userId = select_user d userId.
Proof. unfold select_user. by intros ->. Qed.

(** ** The call of [msg_send] and [getOrCreateDM] *)

(** The call leaves the database as it is or as the transaction leaves
    it. *)
Lemma getOrCreateDM_call_db d userA userB now :
  (getOrCreateDM_call d userA userB now).2 = d
  ∨ ∃ b, (getOrCreateDM_call d userA userB now).2 = (create_dm d userA b now).2.
Proof.
  unfold getOrCreateDM_call. destruct (as_integer userB) as [b|].
  - destruct (min_max userA b) as [minId maxId].
    destruct (select_dm d minId maxId); [by left|].
    right. exists b. by destruct (create_dm d userA b now) as [[id|e] d'].
  - destruct (sql_round userB) as [b|]; [|by left].
    right. exists b. by destruct (create_dm d userA b now) as [[id|e] d'].
Qed.

(** For an integer it is the call of [getOrCreateDM]; the id is a BigInt
    when the lookup found it. *)
Lemma getOrCreateDM_call_integer d userA userB b now :
  as_integer userB = Some b →
  getOrCreateDM_call d userA userB now =
    (match (getOrCreateDM d userA b now).1 with
     | Ok id =>
         Ok (if some (select_dm d (min_max userA b).1 (min_max userA b).2)
             then AsBigInt id else AsNumber id)
     | Err e => Err e
     end,
     (getOrCreateDM d userA b now).2).
Proof.
  intros Hb. unfold getOrCreateDM_call, getOrCreateDM. rewrite Hb.
  destruct (min_max userA b) as [minId maxId]. simpl.
  destruct (select_dm d minId maxId); simpl; [done|].
  by destruct (create_dm d userA b now) as [[id|e] d'].
Qed.

Lemma getOrCreateDM_call_ok d userA userB now :
  schema_ok d → schema_ok (getOrCreateDM_call d userA userB now).2.
Proof.
  intros Hd. destruct (getOrCreateDM_call_db d userA userB now) as [-> | [b ->]];
    [done|by apply create_dm_ok].
Qed.

Lemma getOrCreateDM_call_users d userA userB now :
  users (getOrCreateDM_call d userA userB now).2 = users d.
Proof.
  destruct (getOrCreateDM_call_db d userA userB now) as [-> | [b ->]];
    [done|apply create_dm_users].
Qed.

(** ** The invariant *)

Section Invariant.

Context `{Collaborators}.

Lemma set_add_nonempty ws l : set_add ws l ≠ [].
Proof.
  unfold set_add. case_bool_decide as Hin.
  - intros ->. by apply not_elem_of_nil in Hin.
  - by destruct l.
Qed.

Lemma set_add_NoDup ws l : NoDup l → NoDup (set_add ws l).
Proof.
  intros Hl. unfold set_add. case_bool_decide as Hin; [done|].
  apply NoDup_app. split_and!; [done| |apply NoDup_singleton].
  intros x Hx ->%list_elem_of_singleton. done.
Qed.

Lemma set_add_elem ws l x : x ∈ set_add ws l ↔ x = ws ∨ x ∈ l.
Proof.
  unfold set_add. case_bool_decide as Hin.
  - split; [auto|]. by intros [->|Hx].
  - rewrite elem_of_app, list_elem_of_singleton. tauto.
Qed.

Lemma set_remove_elem ws l x : x ∈ set_remove ws l ↔ x ≠ ws ∧ x ∈ l.
Proof. unfold set_remove. by rewrite list_elem_of_filter. Qed.

Lemma set_remove_NoDup ws l : NoDup l → NoDup (set_remove ws l).
Proof. apply NoDup_filter. Qed.

(** What a handler changes besides the database. *)
Lemma on_msg_send_frame s ws sess toUserId body clk :
  let o := on_msg_send s ws sess toUserId body clk in
  connectionsByUser (st o) = connectionsByUser s
  ∧ sessionBySocket (st o) = sessionBySocket s
  ∧ clients (st o) = clients s
  ∧ readyState (st o) = readyState s
  ∧ users (db (st o)) = users (db s)
  ∧ (schema_ok (db s) → schema_ok (db (st o))).
Proof.
  unfold on_msg_send, reply, throw.
  destruct (negb (truthy toUserId) || bool_decide (trim body = [])); simpl; [done|].
  destruct (select_blocked_by (db s) toUserId (s_userId sess)) as [[|]|e]; simpl;
    [done| |done].
  pose proof (getOrCreateDM_call_users (db s) (s_userId sess) toUserId (db_now clk)) as Hu1.
  pose proof (getOrCreateDM_call_ok (db s) (s_userId sess) toUserId (db_now clk)) as Hk1.
  destruct (getOrCreateDM_call (db s) (s_userId sess) toUserId (db_now clk))
    as [[cid|e] d1]; simpl in *; [|done].
  pose proof (insert_message_users d1 (key_value cid) (s_userId sess) (trim body)
                (db_now clk)) as Hu2.
  pose proof (insert_message_ok d1 (key_value cid) (s_userId sess) (trim body)
                (db_now clk)) as Hk2.
  destruct (insert_message d1 (key_value cid) (s_userId sess) (trim body) (db_now clk))
    as [[mid|e] d2]; simpl in *.
  all: split_and!; try done; try congruence; auto.
Qed.

Lemma on_msg_delivered_frame s ws sess msgId clk :
  let o := on_msg_delivered s ws sess msgId clk in
  connectionsByUser (st o) = connectionsByUser s
  ∧ sessionBySocket (st o) = sessionBySocket s
  ∧ clients (st o) = clients s
  ∧ readyState (st o) = readyState s
  ∧ users (db (st o)) = users (db s)
  ∧ (schema_ok (db s) → schema_ok (db (st o))).
Proof.
  unfold on_msg_delivered, reply, throw.
  destruct (negb (truthy msgId)); simpl; [done|].
  destruct (sql_round msgId) as [mid|]; simpl; [|done].
  destruct (upsert_receipt (db s) mid (s_userId sess) (db_now clk)) as [d1|e] eqn:E;
    simpl; [|done].
  split_and!; try done.
  - by apply upsert_receipt_users in E.
  - intros Hd. by eapply upsert_receipt_ok.
Qed.

Lemma refuse_invariant s ws : invariant s → invariant (st (refuse s ws)).
Proof.
  intros [Hd Hne Hnd Hs]. unfold refuse, ws_close. simpl.
  destruct (is_open s ws); by split.
Qed.

Lemma register_invariant s ws userId u :
  invariant s → select_user (db s) userId = Some u →
  invariant (register s ws userId (u_username u)).
Proof.
  intros [Hd Hne Hnd Hs] Hu. unfold register. split; simpl.
  - done.
  - intros v set. destruct (decide (userId = v)) as [<-|Hv].
    + rewrite lookup_insert_eq. intros [= <-]. apply set_add_nonempty.
    + rewrite lookup_insert_ne; [|done]. apply Hne.
  - intros v set. destruct (decide (userId = v)) as [<-|Hv].
    + rewrite lookup_insert_eq. intros [= <-]. apply set_add_NoDup.
      destruct (connectionsByUser s !! userId) as [l|] eqn:El; simpl.
      * by eapply Hnd.
      * apply NoDup_nil_2.
    + rewrite lookup_insert_ne; [|done]. apply Hnd.
  - intros ws' sess. destruct (decide (ws = ws')) as [<-|Hw].
    + rewrite lookup_insert_eq. intros [= <-]. simpl. by rewrite Hu.
    + rewrite lookup_insert_ne; [|done]. apply Hs.
Qed.

Lemma on_hello_invariant s ws token :
  invariant s → invariant (st (on_hello s ws token)).
Proof.
  intros Hi. unfold on_hello, throw.
  destruct (verifyToken token) as [| | |n]; [done|done|by apply refuse_invariant|].
  destruct (sql_round n); [|done].
  destruct (as_integer n) as [userId|]; [|by apply refuse_invariant].
  destruct (select_user (db s) userId) as [u|] eqn:Hu; [|by apply refuse_invariant].
  destruct (u_is_active u); [|by apply refuse_invariant].
  simpl. by apply register_invariant.
Qed.

Lemma on_message_invariant s ws f clk :
  invariant s → invariant (st (on_message s ws f clk)).
Proof.
  intros Hi. destruct f as [| |m]; simpl; try done.
  destruct m as [token|toUserId body|msgId| | |]; simpl.
  - by apply on_hello_invariant.
  - destruct (sessionBySocket s !! ws) as [sess|]; simpl; [|done].
    destruct (on_msg_send_frame s ws sess toUserId body clk)
      as (Hr & Hs & _ & _ & Hu & Hk).
    destruct Hi as [Hd Hne Hnd Hss]. split.
    + auto.
    + by rewrite Hr.
    + by rewrite Hr.
    + rewrite Hs. intros ws' sess' Hl.
      rewrite (select_user_users _ _ _ Hu). by eapply Hss.
  - destruct (sessionBySocket s !! ws) as [sess|]; simpl; [|done].
    destruct (on_msg_delivered_frame s ws sess msgId clk)
      as (Hr & Hs & _ & _ & Hu & Hk).
    destruct Hi as [Hd Hne Hnd Hss]. split.
    + auto.
    + by rewrite Hr.
    + by rewrite Hr.
    + rewrite Hs. intros ws' sess' Hl.
      rewrite (select_user_users _ _ _ Hu). by eapply Hss.
  - by destruct (sessionBySocket s !! ws).
  - by destruct (sessionBySocket s !! ws).
  - by destruct (sessionBySocket s !! ws).
Qed.

Lemma on_close_invariant s ws : invariant s → invariant (st (on_close s ws)).
Proof.
  intros [Hd Hne Hnd Hs]. unfold on_close.
  destruct (sessionBySocket s !! ws) as [sess|]; simpl; [|by split].
  destruct (connectionsByUser s !! s_userId sess) as [set|] eqn:Hset; [|by split].
  case_bool_decide as Hlen; split; simpl; try done.
  - intros v l [_ Hl]%lookup_delete_Some. by eapply Hne.
  - intros v l [_ Hl]%lookup_delete_Some. by eapply Hnd.
  - intros v l. destruct (decide (s_userId sess = v)) as [<-|Hv].
    + rewrite lookup_insert_eq. intros [= <-] Hnil. by rewrite Hnil in Hlen.
    + rewrite lookup_insert_ne; [|done]. apply Hne.
  - intros v l. destruct (decide (s_userId sess = v)) as [<-|Hv].
    + rewrite lookup_insert_eq. intros [= <-]. apply set_remove_NoDup. by eapply Hnd.
    + rewrite lookup_insert_ne; [|done]. apply Hnd.
Qed.

Lemma step_invariant s e : invariant s → invariant (st (step s e)).
Proof.
  intros Hi. destruct e as [ws|ws f clk|ws|u]; simpl.
  - by destruct Hi.
  - by apply on_message_invariant.
  - apply on_close_invariant. by destruct Hi.
  - destruct Hi as [Hd Hne Hnd Hs]. split; simpl; [by apply add_user_ok|done|done|].
    intros ws sess Hl. apply select_user_add_user. by eapply Hs.
Qed.

Lemma boot_invariant d : schema_ok d → invariant (boot d).
Proof. intros Hd. split; simpl; [done|by intros ?? ?..]. Qed.

Lemma reachable_invariant s : reachable s → invariant s.
Proof.
  induction 1 as [d Hd|s e _ IH].
  - by apply boot_invariant.
  - by apply step_invariant.
Qed.

End Invariant.

(** ** The session registry *)

Section Registry.

Context `{Collaborators}.

Lemma isUserOnline_connectionsOf s userId :
  isUserOnline s userId = true ↔ connectionsOf s userId ≠ [].
Proof.
  unfold isUserOnline, connectionsOf.
  destruct (connectionsByUser s !! userId) as [set|]; simpl; [|done].
  rewrite bool_decide_eq_true. destruct set; simpl; split; try done; lia.
Qed.

(** The close handler takes the socket out of the set of its user and
    leaves the other sets as they are. *)
Lemma on_close_connectionsOf s ws sess v :
  sessionBySocket s !! ws = Some sess →
  connectionsOf (st (on_close s ws)) v =
    if decide (v = s_userId sess) then set_remove ws (connectionsOf s v)
    else connectionsOf s v.
Proof.
  intros Hs. unfold on_close, connectionsOf. rewrite Hs. simpl.
  destruct (connectionsByUser s !! s_userId sess) as [set|] eqn:Hset; simpl.
  - case_bool_decide as Hlen; simpl; case_decide as Hv; subst.
    + rewrite lookup_delete_eq, Hset. simpl.
      by destruct (set_remove ws set).
    + by rewrite lookup_delete_ne.
    + by rewrite lookup_insert_eq, Hset.
    + by rewrite lookup_insert_ne.
  - case_decide as Hv; [|done]. subst. by rewrite Hset.
Qed.

Lemma on_close_entry_gone s ws sess :
  sessionBySocket s !! ws = Some sess →
  set_remove ws (connectionsOf s (s_userId sess)) = [] →
  connectionsByUser (st (on_close s ws)) !! s_userId sess = None.
Proof.
  intros Hs. unfold on_close, connectionsOf. rewrite Hs. simpl.
  destruct (connectionsByUser s !! s_userId sess) as [set|] eqn:Hset; simpl; [|done].
  intros ->. simpl. by rewrite lookup_delete_eq.
Qed.

(** C9. A user is online exactly when the connection set of the user is
    not empty. The close handler removes the closing socket from the set of
    its user; when that set becomes empty the entry is deleted and the user
    is offline. No reachable state of the registry holds an entry with an
    empty set. *)
Theorem registry_online_iff_nonempty s :
  reachable s →
  (∀ userId, isUserOnline s userId = true ↔ connectionsOf s userId ≠ [])
  ∧ (∀ userId set, connectionsByUser s !! userId = Some set → set ≠ [])
  ∧ (∀ ws sess, sessionBySocket s !! ws = Some sess →
       let s' := st (step s (Closed ws)) in
       connectionsOf s' (s_userId sess) = set_remove ws (connectionsOf s (s_userId sess))
       ∧ (ws ∉ connectionsOf s' (s_userId sess))
       ∧ (∀ v, v ≠ s_userId sess → connectionsOf s' v = connectionsOf s v)
       ∧ (set_remove ws (connectionsOf s (s_userId sess)) = [] →
            isUserOnline s' (s_userId sess) = false
            ∧ connectionsByUser s' !! s_userId sess = None)).
Proof.
  intros Hr. split_and!.
  - apply isUserOnline_connectionsOf.
  - apply reachable_invariant in Hr. apply (inv_nonempty _ Hr).
  - intros ws sess Hs s'. subst s'. simpl.
    assert (sessionBySocket (detach s ws) !! ws = Some sess) as Hs' by done.
    assert (∀ v, connectionsOf (detach s ws) v = connectionsOf s v) as Hd by done.
    pose proof (on_close_connectionsOf (detach s ws) ws sess (s_userId sess) Hs') as Hc.
    rewrite decide_True in Hc by done. rewrite Hd in Hc.
    split_and!.
    + done.
    + rewrite Hc. rewrite set_remove_elem. tauto.
    + intros v Hv. rewrite (on_close_connectionsOf _ _ _ _ Hs').
      by rewrite decide_False.
    + intros Hnil. split.
      * apply not_true_is_false. rewrite isUserOnline_connectionsOf.
        rewrite Hc, Hnil. tauto.
      * apply (on_close_entry_gone _ _ _ Hs'). by rewrite Hd.
Qed.

End Registry.

(** ** Delivery receipts *)

Lemma upsert_receipt_delivered d msg user now d' :
  upsert_receipt d msg user now = Ok d' →
  delivered_at d' msg user = Some (default now (delivered_at d msg user)).
Proof.
  unfold upsert_receipt, delivered_at.
  destruct (message_receipts d !! (msg, user)) as [r|] eqn:Hr; simpl.
  - intros [= <-]. simpl. rewrite lookup_insert_eq. simpl.
    by destruct (r_delivered_at r).
  - destruct (some (select_message d msg)); [|done].
    destruct (some (select_user d user)); [|done].
    simpl. intros [= <-]. simpl. by rewrite lookup_insert_eq.
Qed.

Lemma upsert_receipt_others d msg user now d' m u :
  upsert_receipt d msg user now = Ok d' →
  (m, u) ≠ (msg, user) →
  message_receipts d' !! (m, u) = message_receipts d !! (m, u).
Proof.
  unfold upsert_receipt. intros Hup Hne.
  destruct (message_receipts d !! (msg, user)) as [r|] eqn:Hr; simpl in *.
  - injection Hup as <-. simpl. by rewrite lookup_insert_ne.
  - destruct (some (select_message d msg)); [|done].
    destruct (some (select_user d user)); [|done].
    injection Hup as <-. simpl. by rewrite lookup_insert_ne.
Qed.

Lemma upsert_receipt_messages d msg user now d' :
  upsert_receipt d msg user now = Ok d' → messages d' = messages d.
Proof.
  unfold upsert_receipt.
  destruct (message_receipts d !! (msg, user)); [by intros [= <-]|].
  destruct (some (select_message d msg)); [|done].
  destruct (some (select_user d user)); [|done].
  by intros [= <-].
Qed.

(** A receipt that has [delivered_at] set keeps its value under the upsert,
    whatever key the upsert is for. *)
Lemma upsert_receipt_keeps d msg user now d' m u t :
  upsert_receipt d msg user now = Ok d' →
  delivered_at d m u = Some t → delivered_at d' m u = Some t.
Proof.
  intros Hup Ht. destruct (decide ((m, u) = (msg, user))) as [[= -> ->]|Hne].
  - rewrite (upsert_receipt_delivered _ _ _ _ _ Hup), Ht. done.
  - unfold delivered_at in *. by rewrite (upsert_receipt_others _ _ _ _ _ _ _ Hup Hne).
Qed.

(** With a receipt row in place the upsert takes the UPDATE branch, which
    cannot fail. *)
Lemma upsert_receipt_again d msg user now t :
  delivered_at d msg user = Some t → is_ok (upsert_receipt d msg user now) = true.
Proof.
  unfold delivered_at, upsert_receipt.
  by destruct (message_receipts d !! (msg, user)).
Qed.

Lemma upsert_receipt_fresh d msg user now :
  some (select_message d msg) = true → some (select_user d user) = true →
  is_ok (upsert_receipt d msg user now) = true.
Proof.
  unfold upsert_receipt. intros -> ->.
  by destruct (message_receipts d !! (msg, user)).
Qed.

Lemma create_dm_receipts d userA userB now :
  message_receipts (create_dm d userA userB now).2 = message_receipts d.
Proof.
  unfold create_dm, insert_conversation.
  destruct (some (select_user d userA)); simpl; [|done].
  unfold insert_member. simpl.
  repeat (match goal with |- context [if ?b then _ else _] => destruct b end; simpl);
    done.
Qed.

Lemma getOrCreateDM_receipts d userA userB now :
  message_receipts (getOrCreateDM d userA userB now).2 = message_receipts d.
Proof.
  unfold getOrCreateDM. destruct (min_max userA userB) as [minId maxId].
  destruct (select_dm d minId maxId); [done|apply create_dm_receipts].
Qed.

Lemma getOrCreateDM_call_receipts d userA userB now :
  message_receipts (getOrCreateDM_call d userA userB now).2 = message_receipts d.
Proof.
  destruct (getOrCreateDM_call_db d userA userB now) as [-> | [b ->]];
    [done|apply create_dm_receipts].
Qed.

Lemma insert_message_receipts d conv sender body now :
  message_receipts (insert_message d conv sender body now).2 = message_receipts d.
Proof.
  unfold insert_message. case_bool_decide; [done|].
  by destruct (some (select_conversation d conv) && some (select_user d sender)).
Qed.

Section Receipts.

Context `{Collaborators}.

Lemma elem_of_safeSend s ws m a :
  a ∈ safeSend s ws m ↔ a = Send ws m ∧ is_open s ws = true.
Proof.
  unfold safeSend. destruct (is_open s ws).
  - rewrite list_elem_of_singleton. tauto.
  - split; [by intros ?%not_elem_of_nil|by intros [_ ?]].
Qed.

(** [sendToUser] reaches the open sockets of the connection set of the
    user, and no other. *)
Lemma elem_of_sendToUser s userId m a :
  a ∈ sendToUser s userId m ↔
  ∃ ws, a = Send ws m ∧ ws ∈ connectionsOf s userId ∧ is_open s ws = true.
Proof.
  unfold sendToUser, connectionsOf.
  destruct (connectionsByUser s !! userId) as [set|]; simpl.
  - rewrite list_elem_of_bind. split.
    + intros (ws & Ha & Hin). apply elem_of_safeSend in Ha as [-> Ho]. eauto.
    + intros (ws & -> & Hin & Ho). exists ws. by rewrite elem_of_safeSend.
  - split; [by intros ?%not_elem_of_nil|].
    by intros (ws & _ & ?%not_elem_of_nil & _).
Qed.

Lemma sendToUser_set_db s d userId m :
  sendToUser (set_db s d) userId m = sendToUser s userId m.
Proof. done. Qed.

Lemma on_hello_db s ws token : db (st (on_hello s ws token)) = db s.
Proof.
  unfold on_hello, refuse, ws_close, register, throw.
  destruct (verifyToken token) as [| | |n]; simpl;
    try (by destruct (is_open s ws)).
  destruct (sql_round n); simpl; [|done].
  destruct (as_integer n) as [userId|]; simpl; [|by destruct (is_open s ws)].
  destruct (select_user (db s) userId) as [u|]; simpl;
    [|by destruct (is_open s ws)].
  destruct (u_is_active u); simpl; [done|by destruct (is_open s ws)].
Qed.

Lemma on_close_db s ws : db (st (on_close s ws)) = db s.
Proof.
  unfold on_close. destruct (sessionBySocket s !! ws) as [sess|]; simpl; [|done].
  destruct (connectionsByUser s !! s_userId sess) as [set|]; simpl; [|done].
  by case_bool_decide.
Qed.

Lemma on_msg_send_receipts s ws sess toUserId body clk :
  message_receipts (db (st (on_msg_send s ws sess toUserId body clk)))
  = message_receipts (db s).
Proof.
  unfold on_msg_send, reply, throw.
  destruct (negb (truthy toUserId) || bool_decide (trim body = [])); simpl; [done|].
  destruct (select_blocked_by (db s) toUserId (s_userId sess)) as [[|]|e]; simpl;
    [done| |done].
  pose proof (getOrCreateDM_call_receipts (db s) (s_userId sess) toUserId (db_now clk))
    as H1.
  destruct (getOrCreateDM_call (db s) (s_userId sess) toUserId (db_now clk))
    as [[cid|e] d1]; simpl in *; [|done].
  pose proof (insert_message_receipts d1 (key_value cid) (s_userId sess) (trim body)
                (db_now clk)) as H2.
  destruct (insert_message d1 (key_value cid) (s_userId sess) (trim body) (db_now clk))
    as [[mid|e] d2]; simpl in *; congruence.
Qed.

(** What the delivery ACK does when its upsert goes through. *)
Lemma on_msg_delivered_returns s ws sess mid clk :
  mid ≠ 0 →
  is_ok (upsert_receipt (db s) mid (s_userId sess) (db_now clk)) = true →
  let o := on_msg_delivered s ws sess (Num mid) clk in
  how o = Returned
  ∧ out o = match select_message (db s) mid with
            | Some m => sendToUser (st o) (m_sender_user_id m)
                          (msg_delivered mid (s_userId sess))
            | None => []
            end
  ∧ delivered_at (db (st o)) mid (s_userId sess)
    = Some (default (db_now clk) (delivered_at (db s) mid (s_userId sess))).
Proof.
  intros Hmid Hok. unfold on_msg_delivered. simpl.
  apply Z.eqb_neq in Hmid. rewrite Hmid. simpl.
  destruct (upsert_receipt (db s) mid (s_userId sess) (db_now clk)) as [d1|e] eqn:E;
    [|done].
  simpl. split_and!; [done| |by apply upsert_receipt_delivered].
  unfold select_message. by rewrite (upsert_receipt_messages _ _ _ _ _ E).
Qed.

(** No event clears or moves a [delivered_at] that is set. *)
Lemma step_keeps_delivered s e m u t :
  delivered_at (db s) m u = Some t →
  delivered_at (db (st (step s e))) m u = Some t.
Proof.
  intros Ht. destruct e as [ws|ws f clk|ws|r]; simpl;
    [done| |by rewrite on_close_db|by unfold delivered_at; rewrite add_user_receipts].
  destruct f as [| |c]; simpl; try done.
  destruct c as [token|toUserId body|msgId| | |]; simpl.
  - by rewrite on_hello_db.
  - destruct (sessionBySocket s !! ws) as [sess|]; simpl; [|done].
    unfold delivered_at in *. by rewrite on_msg_send_receipts.
  - destruct (sessionBySocket s !! ws) as [sess|]; simpl; [|done].
    unfold on_msg_delivered, reply, throw.
    destruct (negb (truthy msgId)); simpl; [done|].
    destruct (sql_round msgId) as [mid|]; simpl; [|done].
    destruct (upsert_receipt (db s) mid (s_userId sess) (db_now clk)) as [d1|e] eqn:E;
      simpl; [|done].
    by eapply upsert_receipt_keeps.
  - by destruct (sessionBySocket s !! ws).
  - by destruct (sessionBySocket s !! ws).
  - by destruct (sessionBySocket s !! ws).
Qed.

Lemma run_keeps_delivered s es m u t :
  delivered_at (db s) m u = Some t →
  delivered_at (db (run s es)) m u = Some t.
Proof.
  revert s. induction es as [|e es IH]; intros s Ht; simpl; [done|].
  apply IH. by apply step_keeps_delivered.
Qed.

Lemma select_message_elem d m :
  m ∈ messages d → some (select_message d (m_id m)) = true.
Proof.
  intros Hin. unfold select_message.
  destruct (find _ (messages d)) eqn:E; [done|].
  apply (find_none_elem _ _ m) in E; [|done].
  by rewrite bool_decide_eq_false in E.
Qed.

(** C5. Once the delivery ACK of a user for a message has run, the receipt
    has [delivered_at] set, and that value stays through every later event
    of the server; a second ACK of the same user for the same message
    returns without an error and leaves the value where the first ACK put
    it. *)
Theorem delivery_ack_idempotent s ws sess m clk1 es ws2 sess2 clk2 :
  reachable s →
  sessionBySocket s !! ws = Some sess →
  m ∈ messages (db s) →
  let o1 := step s (Message ws (Json (msg_delivered_ack (Num (m_id m)))) clk1) in
  let s2 := run (st o1) es in
  sessionBySocket s2 !! ws2 = Some sess2 →
  s_userId sess2 = s_userId sess →
  let o2 := step s2 (Message ws2 (Json (msg_delivered_ack (Num (m_id m)))) clk2) in
  ∃ t,
    how o1 = Returned
    ∧ delivered_at (db (st o1)) (m_id m) (s_userId sess) = Some t
    ∧ delivered_at (db s2) (m_id m) (s_userId sess) = Some t
    ∧ how o2 = Returned
    ∧ (∀ c e, Send c (error e) ∉ out o2)
    ∧ delivered_at (db (st o2)) (m_id m) (s_userId sess) = Some t
    ∧ (∀ es', delivered_at (db (run (st o2) es')) (m_id m) (s_userId sess) = Some t).
Proof.
  intros Hr Hs Hm o1 s2 Hs2 Hu o2.
  apply reachable_invariant in Hr. destruct Hr as [Hd _ _ Hss].
  assert (m_id m ≠ 0) as Hmid.
  { pose proof (ok_msg_id _ Hd m Hm). lia. }
  assert (is_ok (upsert_receipt (db s) (m_id m) (s_userId sess) (db_now clk1)) = true)
    as Hok1.
  { apply upsert_receipt_fresh; [by apply select_message_elem|by eapply Hss]. }
  destruct (on_msg_delivered_returns s ws sess (m_id m) clk1 Hmid Hok1)
    as (Hhow1 & _ & Ht1).
  assert (st o1 = st (on_msg_delivered s ws sess (Num (m_id m)) clk1)
          ∧ how o1 = how (on_msg_delivered s ws sess (Num (m_id m)) clk1)) as [Eo1 Eh1].
  { subst o1. simpl. by rewrite Hs. }
  set (t := default (db_now clk1) (delivered_at (db s) (m_id m) (s_userId sess))) in *.
  exists t.
  assert (delivered_at (db s2) (m_id m) (s_userId sess) = Some t) as Ht2.
  { subst s2. apply run_keeps_delivered. by rewrite Eo1. }
  assert (is_ok (upsert_receipt (db s2) (m_id m) (s_userId sess2) (db_now clk2)) = true)
    as Hok2.
  { rewrite Hu. by eapply upsert_receipt_again. }
  destruct (on_msg_delivered_returns s2 ws2 sess2 (m_id m) clk2 Hmid Hok2)
    as (Hhow2 & Hout2 & Ht3).
  assert (o2 = on_msg_delivered s2 ws2 sess2 (Num (m_id m)) clk2) as Eo2.
  { subst o2. simpl. by rewrite Hs2. }
  rewrite Hu, Ht2 in Ht3. simpl in Ht3.
  split_and!.
  - by rewrite Eh1.
  - by rewrite Eo1.
  - done.
  - by rewrite Eo2.
  - intros c e Hin. rewrite Eo2, Hout2 in Hin.
    destruct (select_message (db s2) (m_id m)); [|by apply not_elem_of_nil in Hin].
    apply elem_of_sendToUser in Hin as (ws' & Heq & _). discriminate.
  - by rewrite Eo2.
  - intros es'. apply run_keeps_delivered. by rewrite Eo2.
Qed.

(** C10. The delivery ACK of an authenticated user for an existing message
    upserts the receipt of that user for the message and relays
    [msg_delivered] with the id of the user to every open socket of the
    sender of the message. Nothing is asked about the user being a member
    of the conversation of the message or its recipient. *)
Theorem delivery_ack_unchecked s ws sess msgId m clk :
  reachable s →
  sessionBySocket s !! ws = Some sess →
  select_message (db s) msgId = Some m →
  let o := step s (Message ws (Json (msg_delivered_ack (Num msgId))) clk) in
  how o = Returned
  ∧ delivered_at (db (st o)) msgId (s_userId sess)
    = Some (default (db_now clk) (delivered_at (db s) msgId (s_userId sess)))
  ∧ out o = sendToUser (st o) (m_sender_user_id m)
              (msg_delivered msgId (s_userId sess))
  ∧ connectionsByUser (st o) = connectionsByUser s
  ∧ (∀ a, a ∈ out o ↔
       ∃ c, a = Send c (msg_delivered msgId (s_userId sess))
            ∧ c ∈ connectionsOf s (m_sender_user_id m) ∧ is_open s c = true).
Proof.
  intros Hr Hs Hm o.
  apply reachable_invariant in Hr. destruct Hr as [Hd _ _ Hss].
  destruct (find_some_elem _ _ _ Hm) as [Hin Hid].
  apply bool_decide_eq_true in Hid.
  assert (msgId ≠ 0) as Hmid.
  { pose proof (ok_msg_id _ Hd m Hin). lia. }
  assert (is_ok (upsert_receipt (db s) msgId (s_userId sess) (db_now clk)) = true)
    as Hok.
  { apply upsert_receipt_fresh; [by rewrite Hm|by eapply Hss]. }
  destruct (on_msg_delivered_returns s ws sess msgId clk Hmid Hok)
    as (Hhow & Hout & Ht).
  destruct (on_msg_delivered_frame s ws sess (Num msgId) clk)
    as (Hreg & _ & _ & Hrs & _).
  assert (o = on_msg_delivered s ws sess (Num msgId) clk) as ->.
  { subst o. simpl. by rewrite Hs. }
  rewrite Hm in Hout.
  split_and!; try done.
  intros a. rewrite Hout, elem_of_sendToUser.
  unfold connectionsOf, is_open. by rewrite Hreg, Hrs.
Qed.

End Receipts.

(** ** The offline queue *)

#[global] Instance created_le_total : Total created_le.
Proof. intros a b. unfold created_le. lia. Qed.

#[global] Instance created_le_trans : Transitive created_le.
Proof. intros a b c. unfold created_le. lia. Qed.

Lemma pending_undelivered d user m :
  pending d user m = true ↔ undelivered d user m.
Proof.
  unfold pending, undelivered, is_member, delivered_at.
  rewrite andb_true_iff, negb_true_iff, some_true, some_false.
  apply and_iff_compat_l.
  destruct (message_receipts d !! (m_id m, user)) as [r|]; simpl.
  - split; [by intros Hr r' [= <-]|auto].
  - split; [by intros _ r'|done].
Qed.

(** The query of [deliverPendingToUser] answers a backlog. *)
Lemma select_pending_is_backlog d user : is_backlog d user (select_pending d user).
Proof.
  unfold select_pending.
  set (l := merge_sort created_le (filter (λ m, pending d user m = true) (messages d))).
  assert (StronglySorted created_le (take page_size l ++ drop page_size l)) as Hs.
  { rewrite take_drop. apply StronglySorted_merge_sort; apply _. }
  split.
  - by apply StronglySorted_app_1_l in Hs.
  - rewrite length_take. lia.
  - exists (drop page_size l). split_and!.
    + rewrite take_drop. unfold l. rewrite merge_sort_Permutation.
      by rewrite (list_filter_iff _ (undelivered d user) _ (pending_undelivered d user)).
    + intros a b Ha Hb. by eapply StronglySorted_app_1_elem_of.
    + intros Hrest. rewrite length_take.
      destruct (decide (length l ≤ page_size)%nat) as [Hle|Hgt]; [|lia].
      by rewrite drop_ge in Hrest.
Qed.

Section Backlog.

Context `{Collaborators}.

(** The object made of a row cannot be serialised. *)
Lemma stringify_msg_new_of m : stringify (msg_new_of m) = None.
Proof. done. Qed.

Lemma sendToUser_obj_row s userId m :
  sendToUser_obj s (Num userId) (msg_new_of m) =
    if some (connectionsByUser s !! userId) then thrown TypeError else said [].
Proof.
  unfold sendToUser_obj. simpl. by destruct (connectionsByUser s !! userId).
Qed.

(** The replay sends nothing: with no row to send, or no connection set of
    the user, it returns; otherwise [JSON.stringify] throws on the first
    row. *)
Lemma deliverPendingToUser_throws s userId :
  deliverPendingToUser s userId =
    if bool_decide (select_pending (db s) userId = [])
       || negb (some (connectionsByUser s !! userId))
    then said [] else thrown TypeError.
Proof.
  unfold deliverPendingToUser.
  induction (select_pending (db s) userId) as [|m rows IH]; simpl; [done|].
  rewrite sendToUser_obj_row. rewrite IH.
  destruct (connectionsByUser s !! userId); simpl; [done|].
  by rewrite orb_true_r.
Qed.

Lemma deliverPendingToUser_sends s userId : sends (deliverPendingToUser s userId) = [].
Proof.
  rewrite deliverPendingToUser_throws.
  by destruct (bool_decide _ || negb _).
Qed.

End Backlog.

(** ** Presence *)

Lemma StronglySorted_filter {A} (R : relation A) (P : A → Prop)
    `{!∀ x, Decision (P x)} (l : list A) :
  StronglySorted R l → StronglySorted R (filter P l).
Proof.
  induction 1 as [|x l Hl IH Hx]; [constructor|].
  rewrite filter_cons. case_decide; [|done].
  constructor; [done|].
  apply Forall_forall. intros y [_ Hy]%list_elem_of_filter.
  by eapply Forall_forall in Hx.
Qed.

Section Presence.

Context `{Collaborators}.

#[local] Instance by_username_total : Total by_username.
Proof. intros a b. apply collate_total. Qed.

#[local] Instance by_username_trans : Transitive by_username.
Proof. intros a b c. apply collate_trans. Qed.

(** [sendUsersList] computes the roster of the specification. *)
Lemma roster_is_roster s : is_roster s (roster s).
Proof.
  unfold roster. split.
  - by rewrite merge_sort_Permutation.
  - apply (StronglySorted_fmap _ by_username); [by intros a b|].
    apply StronglySorted_filter, StronglySorted_merge_sort; apply _.
Qed.

(** With no socket given, [sendUsersList] reaches every open socket of
    [wss.clients]. *)
Lemma elem_of_sendUsersList s a :
  a ∈ sendUsersList s None ↔
  ∃ c, a = Send c (users_list (roster s)) ∧ c ∈ clients s ∧ is_open s c = true.
Proof.
  unfold sendUsersList. rewrite list_elem_of_bind. split.
  - intros (c & Ha & Hc). apply elem_of_safeSend in Ha as [-> Ho]. eauto.
  - intros (c & -> & Hc & Ho). exists c. by rewrite elem_of_safeSend.
Qed.

(** The outcome of a handshake that succeeds, and of the close of a socket
    that has a session. *)
Lemma step_handshake s ws token clk n userId u :
  verifyToken token = UserId n →
  as_integer n = Some userId →
  select_user (db s) userId = Some u →
  u_is_active u = true →
  step s (Message ws (Json (hello token)) clk) =
    let s1 := register s ws userId (u_username u) in
    {| st := s1;
       out := safeSend s1 ws (hello_ok userId (u_username u))
              ++ sendUsersList s1 None ++ sends (deliverPendingToUser s1 userId);
       how := ends (deliverPendingToUser s1 userId) |}.
Proof.
  intros Htok Hn Hu Hact. simpl. unfold on_hello.
  rewrite Htok, Hn, Hu, Hact.
  by destruct n.
Qed.

Lemma step_close s ws sess :
  sessionBySocket s !! ws = Some sess →
  ∃ s1, step s (Closed ws) = {| st := s1; out := sendUsersList s1 None; how := Returned |}.
Proof.
  intros Hs. simpl. unfold on_close.
  assert (sessionBySocket (detach s ws) !! ws = Some sess) as -> by done.
  eauto.
Qed.

(** C8. After a handshake that succeeds, and after the close of a socket
    that had completed the handshake - the two events that change the
    registry - every connected client is sent a [users] message with the
    roster of the new state: exactly the active users, as [{id, username,
    email, online}] with [online] as [isUserOnline] answers, in the order
    of their usernames. *)
Theorem presence_broadcast s e :
  (∃ userId, handshake s userId e)
  ∨ (∃ ws sess, e = Closed ws ∧ sessionBySocket s !! ws = Some sess) →
  broadcast_after s e.
Proof.
  intros He. split; [apply roster_is_roster|].
  destruct He as [[userId [ws token clk n u Htok Hn Hu Hact]]|(ws & sess & -> & Hs)].
  - rewrite (step_handshake s ws token clk n userId u Htok Hn Hu Hact).
    cbn [st out how]. intros c Hc Ho.
    rewrite !elem_of_app. right. left.
    apply elem_of_sendUsersList. eauto.
  - destruct (step_close s ws sess Hs) as [s1 ->].
    cbn [st out how]. intros c Hc Ho.
    apply elem_of_sendUsersList. eauto.
Qed.

(** [sendUsersList] sends the roster to the open sockets of
    [wss.clients], in their order. *)
Lemma sendUsersList_sends s :
  sendUsersList s None =
    (λ c, Send c (users_list (roster s))) <$> filter (λ c, is_open s c = true) (clients s).
Proof.
  unfold sendUsersList. induction (clients s) as [|c l IH]; [done|].
  rewrite filter_cons. cbn [mbind list_bind]. unfold safeSend at 1.
  destruct (is_open s c) eqn:Ho.
  - rewrite decide_True by done. simpl. f_equal. exact IH.
  - rewrite decide_False by done. exact IH.
Qed.

(** C7. A handshake that succeeds computes the backlog of the
    specification: [select_pending] answers the undelivered messages of the
    conversations of the user, oldest first, at most 500. It pushes none of
    them. Each row carries its [id] and [conversation_id] as the driver
    hands them, as BigInt, and [JSON.stringify] throws on the first row:
    the socket has been sent [hello_ok], every open socket the roster, no
    socket a [msg_new], and the handler ends with a [TypeError] unless the
    backlog is empty. *)
Theorem handshake_replay_throws s userId e :
  handshake s userId e →
  let o := step s e in
  let backlog := select_pending (db s) userId in
  ∃ ws u,
    select_user (db s) userId = Some u
    ∧ is_backlog (db s) userId backlog
    ∧ (∀ m, m ∈ backlog → stringify (msg_new_of m) = None)
    ∧ ws ∈ connectionsOf (st o) userId
    ∧ out o = (if is_open s ws then [Send ws (hello_ok userId (u_username u))] else [])
              ++ ((λ c, Send c (users_list (roster (st o))))
                    <$> filter (λ c, is_open s c = true) (clients s))
    ∧ (∀ c msgId conversationId fromUserId body createdAt,
         Send c (msg_new msgId conversationId fromUserId body createdAt) ∉ out o)
    ∧ how o = (if bool_decide (backlog = []) then Returned else Rejected TypeError).
Proof.
  intros Hh o backlog. subst o backlog.
  destruct Hh as [ws token clk n u Htok Hn Hu Hact].
  rewrite (step_handshake s ws token clk n userId u Htok Hn Hu Hact).
  cbn [st out how]. exists ws, u.
  rewrite deliverPendingToUser_sends, app_nil_r.
  split_and!.
  - done.
  - apply select_pending_is_backlog.
  - intros m _. apply stringify_msg_new_of.
  - unfold connectionsOf, register. simpl. rewrite lookup_insert_eq. simpl.
    apply set_add_elem. by left.
  - by rewrite sendUsersList_sends.
  - intros c msgId cid from body at' [Hin|Hin]%elem_of_app.
    + by apply elem_of_safeSend in Hin as [? _].
    + by apply elem_of_sendUsersList in Hin as (c' & ? & _).
  - rewrite deliverPendingToUser_throws.
    assert (connectionsByUser (register s ws userId (u_username u)) !! userId
            = Some (set_add ws (default [] (connectionsByUser s !! userId)))) as ->.
    { unfold register. simpl. by rewrite lookup_insert_eq. }
    assert (db (register s ws userId (u_username u)) = db s) as -> by done.
    simpl. rewrite orb_false_r. by case_bool_decide.
Qed.

(** The close handler of a socket without a session does nothing. *)
Lemma close_without_session s ws :
  sessionBySocket s !! ws = None →
  out (step s (Closed ws)) = [] ∧ st (step s (Closed ws)) = detach s ws.
Proof.
  intros Hs. simpl. unfold on_close.
  assert (sessionBySocket (detach s ws) !! ws = None) as -> by done.
  done.
Qed.

End Presence.

(** ** [getOrCreateDM], one call at a time *)

Lemma min_max_comm a b : min_max a b = min_max b a.
Proof.
  unfold min_max. repeat case_bool_decide; try done; try lia.
  f_equal; lia.
Qed.

Lemma min_max_cases a b : min_max a b = (a, b) ∨ min_max a b = (b, a).
Proof. unfold min_max. case_bool_decide; auto. Qed.

Definition dm_row (id created_by now : Z) : conv_row :=
  {| c_id := id; c_type := dm; c_title := None;
     c_created_by := Some created_by; c_created_at := now |}.

Definition member_at (now : Z) : member_row :=
  {| cm_role := member; cm_joined_at := now; cm_left_at := None |}.

(** What the transaction leaves when it commits. *)
Lemma create_dm_commit d userA userB now id d' :
  create_dm d userA userB now = (Ok id, d') →
  id = conv_auto_inc d
  ∧ conversations d' = conversations d ++ [dm_row id userA now]
  ∧ conversation_members d' =
      <[(id, userB) := member_at now]>
        (<[(id, userA) := member_at now]> (conversation_members d)).
Proof.
  unfold create_dm, insert_conversation.
  destruct (some (select_user d userA)); simpl; [|done].
  unfold insert_member at 2. simpl.
  repeat (match goal with |- context [if ?b then _ else _] => destruct b end;
          simpl; try done).
  unfold insert_member. simpl.
  repeat (match goal with |- context [if ?b then _ else _] => destruct b end;
          simpl; try done).
  by intros [= <- <-].
Qed.

Lemma find_ext_elem {A} (f g : A → bool) (l : list A) :
  (∀ x, x ∈ l → f x = g x) → find f l = find g l.
Proof.
  induction l as [|x l IH]; intros Hfg; simpl; [done|].
  rewrite <- (Hfg x) by apply list_elem_of_here.
  destruct (f x); [done|]. apply IH. intros y Hy. apply Hfg. by apply list_elem_of_further.
Qed.

(** After the transaction the lookup finds the conversation it created. *)
Lemma select_dm_created d userA userB now id d' :
  schema_ok d →
  select_dm d (min_max userA userB).1 (min_max userA userB).2 = None →
  create_dm d userA userB now = (Ok id, d') →
  select_dm d' (min_max userA userB).1 (min_max userA userB).2 = Some id.
Proof.
  intros Hd Hnone (-> & Hconv & Hmem)%create_dm_commit.
  unfold select_dm in *. rewrite Hconv.
  assert (∀ c u, c ≠ conv_auto_inc d → is_member d' c u = is_member d c u) as Hold.
  { intros c u Hc. unfold is_member. rewrite Hmem.
    rewrite !lookup_insert_ne; [done|congruence..]. }
  assert (∀ u, u = userA ∨ u = userB → is_member d' (conv_auto_inc d) u = true) as Hnew.
  { intros u Hu. unfold is_member. rewrite Hmem.
    destruct (decide (u = userB)) as [->|Hb].
    - by rewrite lookup_insert_eq.
    - destruct Hu as [-> | ->]; [|done].
      rewrite lookup_insert_ne by congruence. by rewrite lookup_insert_eq. }
  rewrite find_none_app.
  - simpl. rewrite !Hnew; [done|..];
      destruct (min_max_cases userA userB) as [Hmm | Hmm]; rewrite Hmm; simpl; auto.
  - apply fmap_None in Hnone. rewrite <- Hnone. apply find_ext_elem.
    intros c Hc. pose proof (ok_conv_id _ Hd c Hc).
    rewrite !Hold by lia. done.
Qed.

(** X22. Calls that do not overlap agree: once a call has answered an id,
    a later call for the same pair, in either order, answers the same id
    and creates nothing. *)
Lemma getOrCreateDM_sequential d userA userB now id d' now' :
  schema_ok d →
  getOrCreateDM d userA userB now = (Ok id, d') →
  getOrCreateDM d' userA userB now' = (Ok id, d')
  ∧ getOrCreateDM d' userB userA now' = (Ok id, d').
Proof.
  intros Hd Hcall.
  assert (select_dm d' (min_max userA userB).1 (min_max userA userB).2 = Some id) as Hs.
  { unfold getOrCreateDM in Hcall.
    destruct (min_max userA userB) as [minId maxId] eqn:Hmm. simpl.
    destruct (select_dm d minId maxId) as [id0|] eqn:Hsel.
    - by injection Hcall as <- <-.
    - eapply (select_dm_created d userA userB) in Hcall; try done.
      + by rewrite Hmm in Hcall.
      + by rewrite Hmm. }
  unfold getOrCreateDM. rewrite <- (min_max_comm userA userB).
  destruct (min_max userA userB) as [minId maxId]. simpl in Hs.
  by rewrite Hs.
Qed.

Lemma insert_member_counter d conv user now d' :
  insert_member d conv user now = Ok d' → conv_auto_inc d' = conv_auto_inc d.
Proof.
  unfold insert_member.
  destruct (some (conversation_members d !! (conv, user))); [done|].
  destruct (some (select_conversation d conv)); [|done].
  destruct (some (select_user d user)); [|done].
  by intros [= <-].
Qed.

(** Committed or rolled back, the transaction uses up one key. *)
Lemma create_dm_counter d userA userB now :
  conv_auto_inc (create_dm d userA userB now).2 = conv_auto_inc d + 1.
Proof.
  unfold create_dm, insert_conversation.
  destruct (some (select_user d userA)); simpl; [|done].
  match goal with
  | |- context [insert_member ?d1 ?c userA now] =>
      destruct (insert_member d1 c userA now) as [d2|e] eqn:E2; simpl; [|done]
  end.
  destruct (insert_member d2 (conv_auto_inc d) userB now) as [d3|e] eqn:E3; simpl;
    [|done].
  apply insert_member_counter in E2, E3. simpl in E2. congruence.
Qed.

(** Two keys differ in one of their components. *)
Ltac key_ne :=
  let E := fresh in
  intros E; injection E; intros; first [lia | congruence].

(** The key the counter is about to hand out is in no row yet. *)
Lemma fresh_conversation d :
  schema_ok d → select_conversation d (conv_auto_inc d) = None.
Proof.
  intros Hd. destruct (select_conversation d (conv_auto_inc d)) as [c|] eqn:Hc; [|done].
  destruct (find_some_elem _ _ _ Hc) as [Hin Hid].
  apply bool_decide_eq_true in Hid. pose proof (ok_conv_id _ Hd c Hin). lia.
Qed.

Lemma fresh_member d user :
  schema_ok d → conversation_members d !! (conv_auto_inc d, user) = None.
Proof.
  intros Hd.
  destruct (conversation_members d !! (conv_auto_inc d, user)) as [r|] eqn:Hr; [|done].
  destruct (ok_member_fk _ Hd (conv_auto_inc d) user) as [Hc _].
  - unfold is_member. by rewrite Hr.
  - by rewrite (fresh_conversation d Hd) in Hc.
Qed.

(** Between two users that exist the transaction commits. *)
Lemma create_dm_succeeds d userA userB now :
  schema_ok d →
  some (select_user d userA) = true →
  some (select_user d userB) = true →
  userA ≠ userB →
  ∃ d', create_dm d userA userB now = (Ok (conv_auto_inc d), d').
Proof.
  intros Hd Ha Hb Hab. unfold create_dm, insert_conversation. rewrite Ha.
  unfold insert_member at 2. simpl.
  rewrite (fresh_member d userA Hd). simpl.
  unfold select_conversation at 1. simpl.
  rewrite find_none_app by apply (fresh_conversation d Hd). simpl.
  rewrite bool_decide_eq_true_2 by done. simpl.
  unfold select_user at 1. simpl. unfold select_user in Ha. rewrite Ha. simpl.
  unfold insert_member. simpl.
  rewrite lookup_insert_ne by congruence.
  rewrite (fresh_member d userB Hd). simpl.
  unfold select_conversation at 1. simpl.
  rewrite find_none_app by apply (fresh_conversation d Hd). simpl.
  rewrite bool_decide_eq_true_2 by done. simpl.
  unfold select_user at 1. simpl. unfold select_user in Hb. rewrite Hb. simpl.
  eauto.
Qed.

(** X23. Two first calls for a pair that overlap: when both lookups run
    before either transaction, each call creates a conversation of its
    own. *)
Lemma getOrCreateDM_overlap d userA userB now :
  schema_ok d →
  some (select_user d userA) = true →
  some (select_user d userB) = true →
  userA ≠ userB →
  select_dm d (min_max userA userB).1 (min_max userA userB).2 = None →
  ∃ d',
    dm_run [First; Second; First; Second] (AtSelect userA userB)
           (AtSelect userB userA) d now
    = (Resolved (Ok (conv_auto_inc d)), Resolved (Ok (conv_auto_inc d + 1)), d')
    ∧ select_conversation d' (conv_auto_inc d) = Some (dm_row (conv_auto_inc d) userA now)
    ∧ select_conversation d' (conv_auto_inc d + 1)
      = Some (dm_row (conv_auto_inc d + 1) userB now)
    ∧ (∀ c u, c = conv_auto_inc d ∨ c = conv_auto_inc d + 1 →
              u = userA ∨ u = userB → is_member d' c u = true).
Proof.
  intros Hd Ha Hb Hab Hnone. simpl.
  rewrite <- (min_max_comm userA userB).
  destruct (min_max userA userB) as [minId maxId]. simpl in Hnone.
  rewrite !Hnone. simpl.
  destruct (create_dm_succeeds d userA userB now Hd Ha Hb Hab) as [d1 H1].
  rewrite H1.
  pose proof (create_dm_ok d userA userB now Hd) as Hd1. rewrite H1 in Hd1. simpl in Hd1.
  pose proof (create_dm_users d userA userB now) as Hu1. rewrite H1 in Hu1. simpl in Hu1.
  destruct (create_dm_commit _ _ _ _ _ _ H1) as (_ & Hc1 & Hm1).
  pose proof (create_dm_counter d userA userB now) as Hn1.
  rewrite H1 in Hn1. simpl in Hn1.
  destruct (create_dm_succeeds d1 userB userA now Hd1) as [d2 H2].
  { by rewrite (select_user_users _ _ _ Hu1). }
  { by rewrite (select_user_users _ _ _ Hu1). }
  { done. }
  rewrite H2, Hn1. exists d2. split; [done|].
  destruct (create_dm_commit _ _ _ _ _ _ H2) as (_ & Hc2 & Hm2).
  rewrite Hn1 in Hc2, Hm2.
  split_and!.
  - unfold select_conversation. rewrite Hc2, Hc1.
    rewrite find_some_app; rewrite find_none_app by apply (fresh_conversation d Hd);
      simpl; by rewrite bool_decide_eq_true_2.
  - unfold select_conversation. rewrite Hc2.
    rewrite find_none_app; [simpl; by rewrite bool_decide_eq_true_2|].
    pose proof (fresh_conversation d1 Hd1) as Hf. by rewrite Hn1 in Hf.
  - intros c u Hc Hu. unfold is_member. rewrite Hm2, Hm1.
    destruct Hc as [-> | ->], Hu as [-> | ->];
      repeat (rewrite lookup_insert_ne by key_ne); by rewrite lookup_insert_eq.
Qed.

(** A call steps through its two awaits to the answer of [getOrCreateDM]. *)
Lemma dm_run_alone d userA userB now c2 :
  dm_run [First; First] (AtSelect userA userB) c2 d now =
    (Resolved (getOrCreateDM d userA userB now).1, c2,
     (getOrCreateDM d userA userB now).2).
Proof.
  unfold getOrCreateDM. simpl.
  destruct (min_max userA userB) as [minId maxId].
  destruct (select_dm d minId maxId); simpl; [done|].
  by destruct (create_dm d userA userB now).
Qed.

(** [getOrCreateDM] does not touch the messages. *)
Lemma create_dm_messages d userA userB now :
  messages (create_dm d userA userB now).2 = messages d.
Proof.
  unfold create_dm, insert_conversation.
  destruct (some (select_user d userA)); simpl; [|done].
  match goal with
  | |- context [insert_member ?d1 ?c userA now] =>
      destruct (insert_member d1 c userA now) as [d2|e] eqn:E2; simpl; [|done]
  end.
  destruct (insert_member d2 (conv_auto_inc d) userB now) as [d3|e] eqn:E3; simpl;
    [|done].
  revert E2 E3. unfold insert_member.
  repeat (match goal with |- context [if ?b then _ else _] => destruct b end;
          simpl; try done).
  by intros [= <-] [= <-].
Qed.

Lemma getOrCreateDM_messages d userA userB now :
  messages (getOrCreateDM d userA userB now).2 = messages d.
Proof.
  unfold getOrCreateDM. destruct (min_max userA userB) as [minId maxId].
  destruct (select_dm d minId maxId); [done|apply create_dm_messages].
Qed.

Lemma getOrCreateDM_call_messages d userA userB now :
  messages (getOrCreateDM_call d userA userB now).2 = messages d.
Proof.
  destruct (getOrCreateDM_call_db d userA userB now) as [-> | [b ->]];
    [done|apply create_dm_messages].
Qed.

(** No conversation has a member that is no user, and the transaction
    cannot add one: [fk_members_user] refuses the row. *)
Lemma create_dm_unknown_user d userA userB now :
  select_user d userB = None → is_ok (create_dm d userA userB now).1 = false.
Proof.
  intros Hb. unfold create_dm, insert_conversation.
  destruct (some (select_user d userA)); simpl; [|done].
  match goal with
  | |- context [insert_member ?d1 ?c userA now] =>
      destruct (insert_member d1 c userA now) as [d2|e] eqn:E2; simpl; [|done]
  end.
  apply insert_member_users in E2. simpl in E2.
  unfold insert_member.
  destruct (some (conversation_members d2 !! (conv_auto_inc d, userB))); [done|].
  destruct (some (select_conversation d2 (conv_auto_inc d))); simpl; [|done].
  by rewrite (select_user_users d d2 userB E2), Hb.
Qed.

Lemma select_dm_unknown_user d x y userB :
  schema_ok d → select_user d userB = None → x = userB ∨ y = userB →
  select_dm d x y = None.
Proof.
  intros Hd Hb Hxy. destruct (select_dm d x y) as [id|] eqn:Hsel; [|done].
  apply fmap_Some in Hsel as (c & (_ & Hc)%find_some_elem & _).
  apply andb_prop in Hc as [[_ Hm1]%andb_prop Hm2].
  destruct (ok_member_fk _ Hd (c_id c) userB) as [_ Hu].
  { by destruct Hxy as [<- | <-]. }
  by rewrite Hb in Hu.
Qed.

Lemma getOrCreateDM_unknown_user d userA userB now :
  schema_ok d → select_user d userB = None →
  is_ok (getOrCreateDM d userA userB now).1 = false.
Proof.
  intros Hd Hb. unfold getOrCreateDM.
  destruct (min_max userA userB) as [minId maxId] eqn:Hmm.
  rewrite (select_dm_unknown_user d minId maxId userB Hd Hb).
  2: { destruct (min_max_cases userA userB) as [E|E]; rewrite E in Hmm;
       injection Hmm as <- <-; auto. }
  by apply create_dm_unknown_user.
Qed.

(** ** Numbers *)

(** An integer is stored as it is. *)
Lemma as_integer_sql_round n z : as_integer n = Some z → sql_round n = Some z.
Proof.
  destruct n as [|k|num den|]; simpl; try done.
  destruct (Z.eqb_spec (num mod Z.pos den) 0) as [Hmod|]; [|done].
  intros [= <-]. f_equal.
  apply Z.div_exact in Hmod; [|lia].
  set (q := num / Z.pos den) in *. rewrite Hmod.
  rewrite Z.abs_mul, Z.sgn_mul.
  rewrite (Z.abs_eq (Z.pos den)), (Z.sgn_pos (Z.pos den)) by lia.
  replace (2 * (Z.pos den * Z.abs q) + Z.pos den)
    with (Z.pos den * (2 * Z.abs q + 1)) by lia.
  rewrite (Z.mul_comm 2 (Z.pos den)), Z.div_mul_cancel_l by lia.
  replace ((2 * Z.abs q + 1) / 2) with (Z.abs q).
  - rewrite Z.mul_1_l. clear Hmod. clearbody q. destruct q; simpl; lia.
  - apply (Z.div_unique _ _ _ 1); lia.
Qed.

Lemma getOrCreateDM_call_unknown_user d userA userB now :
  schema_ok d → names_user d userB = false →
  is_ok (getOrCreateDM_call d userA userB now).1 = false.
Proof.
  intros Hd Hn. unfold names_user in Hn.
  destruct (as_integer userB) as [b|] eqn:Hb.
  - rewrite (getOrCreateDM_call_integer _ _ _ _ _ Hb). simpl.
    rewrite (as_integer_sql_round _ _ Hb) in Hn. apply some_false in Hn.
    pose proof (getOrCreateDM_unknown_user d userA b now Hd Hn) as He.
    by destruct ((getOrCreateDM d userA b now).1).
  - unfold getOrCreateDM_call. rewrite Hb.
    destruct (sql_round userB) as [b|]; [|done]. apply some_false in Hn.
    pose proof (create_dm_unknown_user d userA b now Hn) as He.
    by destruct (create_dm d userA b now) as [[id|e] d'].
Qed.

(** ** Refusals *)

Section Refusals.

Context `{Collaborators}.


(** C3, as the code has it. A [msg_send] whose [toUserId] is [NaN] or [0],
    or whose body is empty once trimmed, is answered with [error
    bad_request] and changes nothing: no message row is inserted. A
    [msg_send] whose [toUserId], rounded as the member row would store it,
    names no user inserts no message row either. A [msg_send] whose
    [toUserId] or [body] cannot be converted throws before anything is
    done. *)
Theorem msg_send_bad_request s ws sess toUserId body clk :
  reachable s →
  sessionBySocket s !! ws = Some sess →
  let o := step s (Message ws (Json (msg_send toUserId body)) clk) in
  let unreadable := step s (Message ws (Json msg_send_unreadable) clk) in
  (truthy toUserId = false ∨ trim body = [] →
     st o = s
     ∧ out o = (if is_open s ws then [Send ws (error bad_request)] else [])
     ∧ how o = Returned)
  ∧ (names_user (db s) toUserId = false →
     messages (db (st o)) = messages (db s))
  ∧ st unreadable = s ∧ out unreadable = [] ∧ how unreadable = Rejected TypeError.
Proof.
  intros Hr Hs o unreadable. subst o unreadable. simpl. rewrite Hs.
  unfold on_msg_send, reply, throw, safeSend.
  apply reachable_invariant in Hr. destruct Hr as [Hd _ _ _].
  split_and!; try done.
  - intros [Hto|Hbody].
    + by rewrite Hto.
    + rewrite (bool_decide_eq_true_2 _ Hbody), orb_true_r. done.
  - intros Hto.
    destruct (negb (truthy toUserId) || bool_decide (trim body = [])); simpl; [done|].
    destruct (select_blocked_by (db s) toUserId (s_userId sess)) as [[|]|e]; simpl;
      [done| |done].
    pose proof (getOrCreateDM_call_unknown_user (db s) (s_userId sess) toUserId
                  (db_now clk) Hd Hto) as Herr.
    pose proof (getOrCreateDM_call_messages (db s) (s_userId sess) toUserId (db_now clk))
      as Hmsg.
    destruct (getOrCreateDM_call (db s) (s_userId sess) toUserId (db_now clk))
      as [[cid|e] d1]; simpl in *; done.
Qed.

(** A number that is an integer is falsy when the integer is 0. *)
Lemma as_integer_truthy n z : as_integer n = Some z → truthy n = negb (z =? 0).
Proof.
  destruct n as [|x|num den|]; simpl; try done.
  - by intros [= ->].
  - destruct (num mod Z.pos den =? 0) eqn:Hmod; [|done]. intros [= <-].
    apply Z.eqb_eq in Hmod. f_equal.
    pose proof (Z.div_mod num (Z.pos den) ltac:(lia)) as Hdiv.
    rewrite Hmod, Z.add_0_r in Hdiv.
    destruct (Z.eqb_spec (num / Z.pos den) 0) as [Hq|Hq].
    + apply Z.eqb_eq. rewrite Hdiv, Hq. lia.
    + apply Z.eqb_neq. intros ->. by rewrite Z.div_0_l in Hq by lia.
Qed.


(** A message id that names no row has no receipt either, and the upsert
    is refused by [fk_receipts_message]. *)
Lemma upsert_receipt_unknown d msg user now :
  schema_ok d → select_message d msg = None →
  upsert_receipt d msg user now = Err ER_NO_REFERENCED_ROW.
Proof.
  intros Hd Hm. unfold upsert_receipt.
  destruct (message_receipts d !! (msg, user)) as [r|] eqn:Hr.
  - destruct (ok_receipt_fk _ Hd msg user) as [Hex _]; [by rewrite Hr|].
    by rewrite Hm in Hex.
  - by rewrite Hm.
Qed.

(** C4, as the code has it. A [msg_delivered] whose [msgId] is [NaN] or [0]
    is answered with [error bad_request] and changes nothing. One whose
    [msgId], rounded as the receipt row would store it, names no message
    changes nothing either: the upsert fails, nothing catches the error and
    nothing is answered. One whose [msgId] cannot be converted throws
    before anything is done. *)
Theorem msg_delivered_unknown_message s ws sess msgId clk :
  reachable s →
  sessionBySocket s !! ws = Some sess →
  let o := step s (Message ws (Json (msg_delivered_ack msgId)) clk) in
  let unreadable := step s (Message ws (Json msg_delivered_unreadable) clk) in
  (truthy msgId = false →
     st o = s
     ∧ out o = (if is_open s ws then [Send ws (error bad_request)] else [])
     ∧ how o = Returned)
  ∧ (stores_message (db s) msgId = false →
     st o = s
     ∧ (truthy msgId = true → out o = [] ∧ ∃ e, how o = Rejected (SqlError e)))
  ∧ st unreadable = s ∧ out unreadable = [] ∧ how unreadable = Rejected TypeError.
Proof.
  intros Hr Hs o unreadable. subst o unreadable. simpl. rewrite Hs.
  unfold on_msg_delivered, reply, throw, safeSend.
  apply reachable_invariant in Hr. destruct Hr as [Hd _ _ _].
  split_and!; try done.
  - by intros ->.
  - unfold stores_message. intros Hn.
    destruct (truthy msgId); simpl; [|done].
    destruct (sql_round msgId) as [mid|]; simpl; [|by eauto].
    apply some_false in Hn.
    rewrite (upsert_receipt_unknown _ _ _ _ Hd Hn). simpl. by eauto.
Qed.

End Refusals.

(** * Further properties of the server *)

(** ** What [getOrCreateDM] leaves alone, and when it succeeds *)

Lemma insert_member_inserts d conv user now d' :
  insert_member d conv user now = Ok d' →
  d' = set_members d (<[(conv, user) := member_at now]> (conversation_members d)).
Proof.
  unfold insert_member.
  destruct (some (conversation_members d !! (conv, user))); [done|].
  destruct (some (select_conversation d conv)); [|done].
  destruct (some (select_user d user)); [|done].
  by intros [= <-].
Qed.

(** The transaction either rolls back, and only the counter has moved, or
    commits one conversation and two member rows. *)
Lemma create_dm_cases d userA userB now :
  (∃ e, create_dm d userA userB now
        = (Err e, set_conversations d (conversations d) (conv_auto_inc d + 1)))
  ∨ (create_dm d userA userB now
     = (Ok (conv_auto_inc d),
        set_members
          (set_conversations d
             (conversations d ++ [dm_row (conv_auto_inc d) userA now])
             (conv_auto_inc d + 1))
          (<[(conv_auto_inc d, userB) := member_at now]>
             (<[(conv_auto_inc d, userA) := member_at now]>
                (conversation_members d))))).
Proof.
  unfold create_dm, insert_conversation, rollback.
  destruct (some (select_user d userA)); simpl; [|eauto].
  match goal with
  | |- context [insert_member ?d1 ?c userA now] =>
      destruct (insert_member d1 c userA now) as [d2|e] eqn:E2; simpl; [|eauto]
  end.
  destruct (insert_member d2 (conv_auto_inc d) userB now) as [d3|e] eqn:E3; simpl;
    [|eauto].
  right. apply insert_member_inserts in E2, E3. by subst.
Qed.

(** A member row, once there, stays: the transaction only adds rows. *)
Lemma getOrCreateDM_member_mono d userA userB now c u :
  is_member d c u = true →
  is_member (getOrCreateDM d userA userB now).2 c u = true.
Proof.
  intros Hm. unfold getOrCreateDM. destruct (min_max userA userB) as [minId maxId].
  destruct (select_dm d minId maxId); [done|].
  destruct (create_dm_cases d userA userB now) as [[e ->] | ->]; simpl; [done|].
  unfold is_member in *. simpl.
  destruct (decide ((conv_auto_inc d, userB) = (c, u))) as [<-|Hb].
  { by rewrite lookup_insert_eq. }
  rewrite lookup_insert_ne by done.
  destruct (decide ((conv_auto_inc d, userA) = (c, u))) as [<-|Ha].
  { by rewrite lookup_insert_eq. }
  by rewrite lookup_insert_ne.
Qed.

Lemma getOrCreateDM_msg_counter d userA userB now :
  msg_auto_inc (getOrCreateDM d userA userB now).2 = msg_auto_inc d.
Proof.
  unfold getOrCreateDM. destruct (min_max userA userB) as [minId maxId].
  destruct (select_dm d minId maxId); [done|].
  by destruct (create_dm_cases d userA userB now) as [[e ->] | ->].
Qed.

Lemma getOrCreateDM_blocks d userA userB now :
  user_blocks (getOrCreateDM d userA userB now).2 = user_blocks d.
Proof.
  unfold getOrCreateDM. destruct (min_max userA userB) as [minId maxId].
  destruct (select_dm d minId maxId); [done|].
  by destruct (create_dm_cases d userA userB now) as [[e ->] | ->].
Qed.

Lemma select_conversation_elem d c :
  c ∈ conversations d → some (select_conversation d (c_id c)) = true.
Proof.
  intros Hin. unfold select_conversation.
  destruct (find _ (conversations d)) eqn:E; [done|].
  apply (find_none_elem _ _ c) in E; [|done].
  by rewrite bool_decide_eq_false in E.
Qed.

(** Between two different users that exist, [getOrCreateDM] answers a [dm]
    conversation that has both as members. *)
Lemma getOrCreateDM_succeeds d userA userB now :
  schema_ok d →
  some (select_user d userA) = true →
  some (select_user d userB) = true →
  userA ≠ userB →
  ∃ id d1 c,
    getOrCreateDM d userA userB now = (Ok id, d1)
    ∧ c ∈ conversations d1 ∧ c_id c = id ∧ c_type c = dm
    ∧ is_member d1 id userA = true ∧ is_member d1 id userB = true.
Proof.
  intros Hd Ha Hb Hab. unfold getOrCreateDM.
  destruct (min_max userA userB) as [minId maxId] eqn:Hmm.
  destruct (select_dm d minId maxId) as [id|] eqn:Hsel.
  - apply fmap_Some in Hsel as (c & (Hin & Hc)%find_some_elem & ->).
    apply andb_prop in Hc as [[Hdm Hm1]%andb_prop Hm2].
    exists (c_id c), d, c. split_and!; try done.
    + unfold is_dm in Hdm. by destruct (c_type c).
    + destruct (min_max_cases userA userB) as [E|E]; rewrite E in Hmm;
        by injection Hmm as <- <-.
    + destruct (min_max_cases userA userB) as [E|E]; rewrite E in Hmm;
        by injection Hmm as <- <-.
  - destruct (create_dm_succeeds d userA userB now Hd Ha Hb Hab) as [d1 H1].
    destruct (create_dm_commit _ _ _ _ _ _ H1) as (_ & Hc1 & Hm1).
    exists (conv_auto_inc d), d1, (dm_row (conv_auto_inc d) userA now).
    split_and!; try done.
    + rewrite Hc1. apply elem_of_app. right. apply list_elem_of_here.
    + unfold is_member. rewrite Hm1.
      rewrite lookup_insert_ne by congruence. by rewrite lookup_insert_eq.
    + unfold is_member. rewrite Hm1. by rewrite lookup_insert_eq.
Qed.

(** ** What [trim] leaves *)

Lemma trim_start_head c r s : trim_start s = c :: r → is_js_space c = false.
Proof.
  induction s as [|x s IH]; simpl; [done|].
  destruct (is_js_space x) eqn:Hx; [done|]. by intros [= <- _].
Qed.

Lemma trim_start_kept c r : is_js_space c = false → trim_start (c :: r) = c :: r.
Proof. intros Hc. simpl. by rewrite Hc. Qed.

Lemma trim_start_idem s : trim_start (trim_start s) = trim_start s.
Proof.
  destruct (trim_start s) as [|c r] eqn:E; [done|].
  apply trim_start_kept. by eapply trim_start_head.
Qed.

Lemma trim_start_snoc l c :
  is_js_space c = false → ∃ l', trim_start (l ++ [c]) = l' ++ [c].
Proof.
  intros Hc. induction l as [|x l IH]; simpl.
  - rewrite Hc. by exists [].
  - destruct (is_js_space x); [done|]. by exists (x :: l).
Qed.

Lemma trim_end_idem s : trim_end (trim_end s) = trim_end s.
Proof. unfold trim_end. by rewrite reverse_involutive, trim_start_idem. Qed.

(** Trimming the end keeps a first code unit that is no space. *)
Lemma trim_end_head c r :
  is_js_space c = false → ∃ r', trim_end (c :: r) = c :: r'.
Proof.
  intros Hc. unfold trim_end. rewrite reverse_cons.
  destruct (trim_start_snoc (reverse r) c Hc) as [l' ->].
  exists (reverse l'). by rewrite reverse_app.
Qed.

Lemma trim_end_last s c : last (trim_end s) = Some c → is_js_space c = false.
Proof.
  unfold trim_end. rewrite last_reverse.
  destruct (trim_start (reverse s)) as [|x r] eqn:E; [done|].
  simpl. intros [= <-]. by eapply trim_start_head.
Qed.

Lemma trim_idem s : trim (trim s) = trim s.
Proof.
  unfold trim. destruct (trim_start s) as [|c r] eqn:E; [done|].
  pose proof (trim_start_head _ _ _ E) as Hc.
  destruct (trim_end_head c r Hc) as [r' Hr]. rewrite Hr.
  rewrite (trim_start_kept c r' Hc), <- Hr. apply trim_end_idem.
Qed.

(** What [trim] answers starts and ends with a code unit that is no
    space. *)
Lemma trim_ends s :
  (∀ c, head (trim s) = Some c → is_js_space c = false)
  ∧ (∀ c, last (trim s) = Some c → is_js_space c = false).
Proof.
  split; [|apply trim_end_last].
  unfold trim. destruct (trim_start s) as [|c r] eqn:E; [done|].
  pose proof (trim_start_head _ _ _ E) as Hc.
  destruct (trim_end_head c r Hc) as [r' ->]. simpl. by intros c' [= <-].
Qed.

(** What [trim] answers is a text that [trim] leaves as it is. *)
Lemma trim_fixed t :
  (∀ c, head t = Some c → is_js_space c = false) →
  (∀ c, last t = Some c → is_js_space c = false) →
  trim t = t.
Proof.
  intros Hh Hl. unfold trim. destruct t as [|c r]; [done|].
  rewrite (trim_start_kept c r) by (by apply Hh).
  unfold trim_end.
  assert (trim_start (reverse (c :: r)) = reverse (c :: r)) as ->;
    [|by rewrite reverse_involutive].
  destruct (reverse (c :: r)) as [|x l] eqn:E; [done|].
  apply trim_start_kept, Hl.
  rewrite <- (reverse_involutive (c :: r)), E. by rewrite last_reverse.
Qed.

(** ** Strings in a statement *)

(** Induction on a string, two code units at a time. *)
Lemma pairs_ind (P : jsstring → Prop) :
  P [] → (∀ c, P [c]) →
  (∀ c lo rest, P rest → P (lo :: rest) → P (c :: lo :: rest)) →
  ∀ s, P s.
Proof.
  intros H0 H1 H2 s.
  assert (P s ∧ ∀ c, P (c :: s)) as [Hs _]; [|done].
  induction s as [|x s [IH1 IH2]]; [by split|].
  split; [apply IH2|]. intros c. by apply H2.
Qed.

Lemma utf8_bytes_bound c : 1 ≤ utf8_bytes c ≤ 3.
Proof. unfold utf8_bytes. repeat case_match; lia. Qed.

Lemma utf8_length_bound (s : jsstring) : utf8_length s ≤ 3 * Z.of_nat (length s).
Proof.
  induction s as [| c | c lo rest IH1 IH2] using pairs_ind.
  - done.
  - pose proof (utf8_bytes_bound c). simpl. lia.
  - pose proof (utf8_bytes_bound c).
    change (utf8_length (c :: lo :: rest))
      with (if high_surrogate c && low_surrogate lo then 4 + utf8_length rest
            else utf8_bytes c + utf8_length (lo :: rest)).
    rewrite !length_cons in *. destruct (_ && _); lia.
Qed.

Lemma surrogate_not_space c : surrogate c = true → is_js_space c = false.
Proof.
  unfold surrogate, is_js_space. intros [Hlo Hhi]%andb_prop.
  apply N.leb_le in Hlo, Hhi.
  repeat match goal with
  | |- context [(?a <=? ?b)%N] => destruct (N.leb_spec a b); try lia
  | |- context [(?a =? ?b)%N] => destruct (N.eqb_spec a b); try lia
  end.
Qed.

(** What is written for a code unit outside a pair is no high surrogate,
    takes the bytes counted for the code unit, and is a space when the code
    unit is. *)
Lemma written_not_high c : high_surrogate (written c) = false.
Proof.
  unfold written, high_surrogate, surrogate.
  destruct ((55296 <=? c) && (c <=? 57343))%N eqn:E; [done|].
  apply andb_false_iff in E as [E|E]; apply N.leb_gt in E;
    apply andb_false_iff; [left|right]; apply N.leb_gt; lia.
Qed.

Lemma utf8_bytes_written c : utf8_bytes (written c) = utf8_bytes c.
Proof.
  unfold written, utf8_bytes. destruct (surrogate c) eqn:Hs; [|by rewrite Hs].
  apply andb_prop in Hs as [Hlo%N.leb_le _].
  destruct (N.ltb_spec c 128); [lia|]. destruct (N.ltb_spec c 2048); [lia|]. done.
Qed.

Lemma written_space c : is_js_space (written c) = is_js_space c.
Proof.
  unfold written. destruct (surrogate c) eqn:Hs; [|done].
  by rewrite (surrogate_not_space c Hs).
Qed.

Lemma utf8_length_cons c s :
  high_surrogate c = false → utf8_length (c :: s) = utf8_bytes c + utf8_length s.
Proof. intros Hc. destruct s as [|lo rest]; simpl; [lia|by rewrite Hc]. Qed.

(** The column holds as many bytes as were counted. *)
Lemma utf8_length_db_text s : utf8_length (db_text s) = utf8_length s.
Proof.
  induction s as [| c | c lo rest IH1 IH2] using pairs_ind.
  - done.
  - simpl. apply utf8_bytes_written.
  - change (db_text (c :: lo :: rest))
      with (if high_surrogate c && low_surrogate lo then c :: lo :: db_text rest
            else written c :: db_text (lo :: rest)).
    change (utf8_length (c :: lo :: rest))
      with (if high_surrogate c && low_surrogate lo then 4 + utf8_length rest
            else utf8_bytes c + utf8_length (lo :: rest)).
    destruct (high_surrogate c && low_surrogate lo) eqn:Hp.
    + simpl. by rewrite Hp, IH1.
    + by rewrite utf8_length_cons, utf8_bytes_written, IH2 by apply written_not_high.
Qed.

Lemma db_text_nil s : db_text s = [] → s = [].
Proof.
  destruct s as [|c [|lo rest]]; simpl; try done.
  by destruct (high_surrogate c && low_surrogate lo).
Qed.

(** The column holds a space first, or last, only where the string has
    one. *)
Lemma db_text_head s c' :
  head (db_text s) = Some c' →
  ∃ c, head s = Some c ∧ is_js_space c' = is_js_space c.
Proof.
  destruct s as [|c [|lo rest]]; simpl; [done| |].
  - intros [= <-]. exists c. by rewrite written_space.
  - destruct (high_surrogate c && low_surrogate lo); simpl; intros [= <-];
      exists c; by rewrite ?written_space.
Qed.

Lemma last_cons_ne {A} (x : A) l : l ≠ [] → last (x :: l) = last l.
Proof. by destruct l. Qed.

Lemma db_text_last s c' :
  last (db_text s) = Some c' →
  ∃ c, last s = Some c ∧ is_js_space c' = is_js_space c.
Proof.
  revert c'. induction s as [| c | c lo rest IH1 IH2] using pairs_ind; intros c'.
  - done.
  - simpl. intros [= <-]. exists c. by rewrite written_space.
  - change (db_text (c :: lo :: rest))
      with (if high_surrogate c && low_surrogate lo then c :: lo :: db_text rest
            else written c :: db_text (lo :: rest)).
    destruct (high_surrogate c && low_surrogate lo) eqn:Hp.
    + destruct rest as [|x rest'].
      * simpl. intros [= <-]. by exists lo.
      * assert (db_text (x :: rest') ≠ []) as Hne by (by intros ?%db_text_nil).
        rewrite (last_cons_ne c), (last_cons_ne lo) by done.
        intros (z & Hz & Hsp)%IH1. by exists z.
    + assert (db_text (lo :: rest) ≠ []) as Hne by (by intros ?%db_text_nil).
      rewrite last_cons_ne by done.
      intros (z & Hz & Hsp)%IH2. by exists z.
Qed.

(** The text stored for a trimmed body is trimmed. *)
Lemma trim_db_text_trim s : trim (db_text (trim s)) = db_text (trim s).
Proof.
  destruct (trim_ends s) as [Hh Hl]. apply trim_fixed.
  - intros c' (c & Hc & ->)%db_text_head. by apply Hh.
  - intros c' (c & Hc & ->)%db_text_last. by apply Hl.
Qed.

(** ** Sending *)

(** A body the server has stored: text, not empty, with no space at either
    end, within [TEXT]. *)
Record stored_by_server (m : msg_row) : Prop := {
  stored_text : m_msg_type m = text;
  stored_nonempty : m_body m ≠ [];
  stored_trimmed : trim (m_body m) = m_body m;
  stored_fits : utf8_length (m_body m) ≤ text_max
}.

(** The keys of a table are in the order of insertion. *)
Definition ascending (ids : list Z) : Prop := StronglySorted Z.lt ids.

Lemma ascending_snoc ids x :
  ascending ids → (∀ y, y ∈ ids → y < x) → ascending (ids ++ [x]).
Proof.
  intros Hs Hx. apply StronglySorted_app_2; [|done|repeat constructor].
  intros a b Ha ->%list_elem_of_singleton. by apply Hx.
Qed.

Lemma insert_message_cases d conv sender body now :
  (∃ e, (insert_message d conv sender body now).1 = Err e
        ∧ messages (insert_message d conv sender body now).2 = messages d
        ∧ conversation_members (insert_message d conv sender body now).2
          = conversation_members d)
  ∨ (insert_message d conv sender body now
     = (Ok (msg_auto_inc d),
        set_messages d
          (messages d ++
           [{| m_id := msg_auto_inc d; m_conversation_id := conv;
               m_sender_user_id := sender; m_body := db_text body;
               m_msg_type := text; m_created_at := now |}])
          (msg_auto_inc d + 1))
     ∧ utf8_length body ≤ text_max
     ∧ some (select_conversation d conv) = true
     ∧ some (select_user d sender) = true).
Proof.
  unfold insert_message. case_bool_decide as Hlen; simpl; [eauto|].
  destruct (some (select_conversation d conv)); simpl; [|eauto].
  destruct (some (select_user d sender)); simpl; [|eauto].
  right. split_and!; try done. lia.
Qed.

Lemma create_dm_member_mono d userA userB now c u :
  is_member d c u = true → is_member (create_dm d userA userB now).2 c u = true.
Proof.
  intros Hm.
  destruct (create_dm_cases d userA userB now) as [[e ->] | ->]; simpl; [done|].
  unfold is_member in *. simpl.
  destruct (decide ((conv_auto_inc d, userB) = (c, u))) as [<-|Hb].
  { by rewrite lookup_insert_eq. }
  rewrite lookup_insert_ne by done.
  destruct (decide ((conv_auto_inc d, userA) = (c, u))) as [<-|Ha].
  { by rewrite lookup_insert_eq. }
  by rewrite lookup_insert_ne.
Qed.

Lemma getOrCreateDM_call_member_mono d userA userB now c u :
  is_member d c u = true →
  is_member (getOrCreateDM_call d userA userB now).2 c u = true.
Proof.
  intros Hm. destruct (getOrCreateDM_call_db d userA userB now) as [-> | [b ->]];
    [done|by apply create_dm_member_mono].
Qed.

Lemma getOrCreateDM_call_msg_counter d userA userB now :
  msg_auto_inc (getOrCreateDM_call d userA userB now).2 = msg_auto_inc d.
Proof.
  destruct (getOrCreateDM_call_db d userA userB now) as [-> | [b ->]]; [done|].
  by destruct (create_dm_cases d userA b now) as [[e ->] | ->].
Qed.

Lemma getOrCreateDM_conversations d userA userB now c :
  c ∈ conversations d → c ∈ conversations (getOrCreateDM d userA userB now).2.
Proof.
  intros Hc. unfold getOrCreateDM. destruct (min_max userA userB) as [minId maxId].
  destruct (select_dm d minId maxId); [done|].
  destruct (create_dm_cases d userA userB now) as [[e ->] | ->]; simpl; [done|].
  apply elem_of_app. by left.
Qed.

(** A key the counter has not handed out yet has no receipt. *)
Lemma fresh_receipt d user :
  schema_ok d → message_receipts d !! (msg_auto_inc d, user) = None.
Proof.
  intros Hd.
  destruct (message_receipts d !! (msg_auto_inc d, user)) as [r|] eqn:Hr; [|done].
  destruct (ok_receipt_fk _ Hd (msg_auto_inc d) user) as [Hm _]; [by rewrite Hr|].
  destruct (select_message d (msg_auto_inc d)) as [m|] eqn:E; [|done].
  destruct (find_some_elem _ _ _ E) as [Hin Hid].
  apply bool_decide_eq_true in Hid. pose proof (ok_msg_id _ Hd m Hin). lia.
Qed.

Section Sending.

Context `{Collaborators}.

(** [sendToUser] sends to the open sockets of the connection set, in the
    order of the set. *)
Lemma sendToUser_sends s userId m :
  sendToUser s userId m =
    (λ c, Send c m) <$> filter (λ c, is_open s c = true) (connectionsOf s userId).
Proof.
  unfold sendToUser, connectionsOf.
  destruct (connectionsByUser s !! userId) as [set|]; simpl; [|done].
  induction set as [|c set IH]; [done|].
  rewrite filter_cons. cbn [mbind list_bind]. unfold safeSend at 1.
  destruct (is_open s c) eqn:Ho.
  - rewrite decide_True by done. simpl. f_equal. exact IH.
  - rewrite decide_False by done. exact IH.
Qed.

(** What a handler sends goes to open sockets. *)
Definition to_open (s : server) (l : list action) : Prop :=
  ∀ a, a ∈ l → ∃ c m, a = Send c m ∧ is_open s c = true.

Lemma to_open_app s l1 l2 : to_open s l1 → to_open s l2 → to_open s (l1 ++ l2).
Proof. intros H1 H2 a [?|?]%elem_of_app; eauto. Qed.

Lemma to_open_nil s : to_open s [].
Proof. by intros a ?%not_elem_of_nil. Qed.

Lemma to_open_safeSend s ws m : to_open s (safeSend s ws m).
Proof. intros a [-> Ho]%elem_of_safeSend. eauto. Qed.

Lemma to_open_sendToUser s userId m : to_open s (sendToUser s userId m).
Proof. intros a (ws & -> & _ & Ho)%elem_of_sendToUser. eauto. Qed.

Lemma to_open_and_then s a b :
  to_open s (sends a) → to_open s (sends b) → to_open s (sends (and_then a b)).
Proof.
  intros Ha Hb. unfold and_then. destruct (ends a); simpl; [|done].
  by apply to_open_app.
Qed.

Lemma to_open_safeSend_obj s ws o : to_open s (sends (safeSend_obj s ws o)).
Proof.
  unfold safeSend_obj. destruct (is_open s ws) eqn:Ho; [|apply to_open_nil].
  destruct (stringify o) as [m|]; [|apply to_open_nil].
  intros a ->%list_elem_of_singleton. eauto.
Qed.

Lemma to_open_sendToUser_obj s userId o : to_open s (sends (sendToUser_obj s userId o)).
Proof.
  unfold sendToUser_obj.
  destruct (as_integer userId) as [u|]; simpl; [|apply to_open_nil].
  destruct (connectionsByUser s !! u) as [set|] eqn:Hset; [|apply to_open_nil].
  destruct (stringify o) as [m|]; [|apply to_open_nil].
  pose proof (to_open_sendToUser s u m) as Hu. unfold sendToUser in Hu.
  by rewrite Hset in Hu.
Qed.

Lemma on_msg_send_to_open s ws sess toUserId body clk :
  to_open s (out (on_msg_send s ws sess toUserId body clk)).
Proof.
  unfold on_msg_send, reply, throw.
  destruct (negb (truthy toUserId) || bool_decide (trim body = [])); simpl;
    [apply to_open_safeSend|].
  destruct (select_blocked_by (db s) toUserId (s_userId sess)) as [[|]|e]; simpl;
    [apply to_open_safeSend| |apply to_open_nil].
  destruct (getOrCreateDM_call (db s) (s_userId sess) toUserId (db_now clk))
    as [[cid|e] d1]; simpl; [|apply to_open_nil].
  destruct (insert_message d1 (key_value cid) (s_userId sess) (trim body) (db_now clk))
    as [[mid|e'] d2]; simpl; [|apply to_open_nil].
  apply (to_open_and_then s);
    [apply (to_open_sendToUser_obj s)|apply (to_open_safeSend_obj s)].
Qed.

Lemma on_msg_delivered_to_open s ws sess msgId clk :
  to_open s (out (on_msg_delivered s ws sess msgId clk)).
Proof.
  unfold on_msg_delivered, reply, throw.
  destruct (negb (truthy msgId)); simpl; [apply to_open_safeSend|].
  destruct (sql_round msgId) as [stored|]; simpl; [|apply to_open_nil].
  destruct (upsert_receipt (db s) stored (s_userId sess) (db_now clk)) as [d1|e];
    simpl; [|apply to_open_nil].
  destruct (as_integer msgId) as [mid|]; [|apply to_open_nil].
  destruct (select_message d1 mid); [|apply to_open_nil].
  apply (to_open_sendToUser s).
Qed.

(** What [on_msg_send] does to the tables: it leaves the messages as they
    are or adds one row, for a body that is not empty once trimmed and
    fits; it takes no member row away. *)
Lemma on_msg_send_cases s ws sess toUserId body clk :
  let o := on_msg_send s ws sess toUserId body clk in
  (messages (db (st o)) = messages (db s)
   ∨ ∃ conversationId,
       messages (db (st o)) =
         messages (db s) ++
         [{| m_id := msg_auto_inc (db s); m_conversation_id := conversationId;
             m_sender_user_id := s_userId sess; m_body := db_text (trim body);
             m_msg_type := text; m_created_at := db_now clk |}]
       ∧ trim body ≠ []
       ∧ utf8_length (trim body) ≤ text_max)
  ∧ (∀ c u, is_member (db s) c u = true → is_member (db (st o)) c u = true).
Proof.
  unfold on_msg_send, reply, throw.
  destruct (negb (truthy toUserId) || bool_decide (trim body = [])) eqn:Hv; simpl;
    [by auto|].
  apply orb_false_iff in Hv as [_ Hv%bool_decide_eq_false].
  destruct (select_blocked_by (db s) toUserId (s_userId sess)) as [[|]|e]; simpl;
    [by auto| |by auto].
  pose proof (getOrCreateDM_call_messages (db s) (s_userId sess) toUserId (db_now clk))
    as Hm.
  pose proof (getOrCreateDM_call_msg_counter (db s) (s_userId sess) toUserId (db_now clk))
    as Hn.
  pose proof (getOrCreateDM_call_member_mono (db s) (s_userId sess) toUserId (db_now clk))
    as Hmono.
  destruct (getOrCreateDM_call (db s) (s_userId sess) toUserId (db_now clk))
    as [[cid|e] d1]; simpl in *; [|by auto].
  destruct (insert_message_cases d1 (key_value cid) (s_userId sess) (trim body)
              (db_now clk)) as [(e & He & Hsame & Hmem) | (Hins & Hlen & _)].
  - destruct (insert_message d1 (key_value cid) (s_userId sess) (trim body) (db_now clk))
      as [[mid|e'] d2]; simpl in *; [done|].
    split; [left; congruence|].
    intros c u Hcu. unfold is_member. rewrite Hmem. by apply Hmono.
  - rewrite Hins. simpl. rewrite Hm, Hn. split; [|done].
    right. by exists (key_value cid).
Qed.

(** X1. A [msg_send] that passes the validation, whose [toUserId] is the
    id of an existing user other than the sender who has not blocked the
    sender, with a body of at most 21845 code units once trimmed. The message
    is stored, under the next
    key, from the user of the session, with the trimmed body, in a [dm]
    conversation that has both users as members, and it is pending for
    both. When the two had no conversation, one is created, [msg_new] is
    sent to each open socket of the recipient and [msg_sent] to the
    sender, and the handler returns. When they had one, its id comes from
    the database as a BigInt: nothing is sent, and the handler throws on
    [JSON.stringify] unless the recipient has no connection set and the
    socket of the sender is not open. *)
Theorem msg_send_first_and_later s ws sess toUserId to body clk :
  reachable s →
  sessionBySocket s !! ws = Some sess →
  as_integer toUserId = Some to →
  to ≠ 0 →
  to ≠ s_userId sess →
  some (select_user (db s) to) = true →
  select_blocked (db s) to (s_userId sess) = false →
  trim body ≠ [] →
  Z.of_nat (length (trim body)) ≤ 21845 →
  let o := step s (Message ws (Json (msg_send toUserId body)) clk) in
  ∃ conversationId c,
    let row := {| m_id := msg_auto_inc (db s); m_conversation_id := conversationId;
                  m_sender_user_id := s_userId sess; m_body := db_text (trim body);
                  m_msg_type := text; m_created_at := db_now clk |} in
    messages (db (st o)) = messages (db s) ++ [row]
    ∧ c ∈ conversations (db (st o)) ∧ c_id c = conversationId ∧ c_type c = dm
    ∧ is_member (db (st o)) conversationId (s_userId sess) = true
    ∧ is_member (db (st o)) conversationId to = true
    ∧ pending (db (st o)) to row = true
    ∧ pending (db (st o)) (s_userId sess) row = true
    ∧ if some (select_dm (db s) (min_max (s_userId sess) to).1
                         (min_max (s_userId sess) to).2)
      then out o = []
           ∧ how o = (if some (connectionsByUser s !! to) || is_open s ws
                      then Rejected TypeError else Returned)
      else conversationId = conv_auto_inc (db s)
           ∧ how o = Returned
           ∧ out o =
               ((λ c, Send c (msg_new (msg_auto_inc (db s)) conversationId
                                      (s_userId sess) (trim body) (js_now clk)))
                  <$> filter (λ c, is_open s c = true) (connectionsOf s to))
               ++ (if is_open s ws
                   then [Send ws (msg_sent (msg_auto_inc (db s)) conversationId)]
                   else []).
Proof.
  intros Hr Hs Hint Hto Hself Hu Hb Hbody Hlen o.
  apply reachable_invariant in Hr. destruct Hr as [Hd _ _ Hss].
  assert (o = on_msg_send s ws sess toUserId body clk) as ->.
  { subst o. simpl. by rewrite Hs. }
  destruct (getOrCreateDM_succeeds (db s) (s_userId sess) to (db_now clk) Hd)
    as (cid & d1 & c & Hdm & Hc & Hid & Hty & Hm1 & Hm2); [by eapply Hss|done|done|].
  pose proof (getOrCreateDM_messages (db s) (s_userId sess) to (db_now clk)) as Hmsg.
  pose proof (getOrCreateDM_msg_counter (db s) (s_userId sess) to (db_now clk)) as Hn.
  pose proof (getOrCreateDM_users (db s) (s_userId sess) to (db_now clk)) as Hus.
  pose proof (getOrCreateDM_receipts (db s) (s_userId sess) to (db_now clk)) as Hrc.
  rewrite Hdm in Hmsg, Hn, Hus, Hrc. simpl in Hmsg, Hn, Hus, Hrc.
  assert (some (select_dm (db s) (min_max (s_userId sess) to).1
                          (min_max (s_userId sess) to).2) = false
          → cid = conv_auto_inc (db s)) as Hnew.
  { intros Hnone%some_false. unfold getOrCreateDM in Hdm.
    destruct (min_max (s_userId sess) to) as [minId maxId]. simpl in Hnone.
    rewrite Hnone in Hdm. by apply create_dm_commit in Hdm as [-> _]. }
  unfold on_msg_send, select_blocked_by, sendToUser_obj.
  rewrite (as_integer_truthy _ _ Hint), (as_integer_sql_round _ _ Hint), Hint.
  apply Z.eqb_neq in Hto. rewrite Hto, (bool_decide_eq_false_2 _ Hbody), Hb.
  cbn [negb orb].
  rewrite (getOrCreateDM_call_integer _ _ toUserId to) by done. rewrite Hdm.
  cbn [fst snd].
  set (k := if some (select_dm (db s) (min_max (s_userId sess) to).1
                               (min_max (s_userId sess) to).2)
            then AsBigInt cid else AsNumber cid).
  assert (key_value k = cid) as Hk by (subst k; by case_match).
  rewrite Hk. unfold insert_message.
  rewrite bool_decide_eq_false_2
    by (pose proof (utf8_length_bound (trim body)); unfold text_max; lia).
  rewrite <- Hid, (select_conversation_elem d1 c Hc).
  rewrite (select_user_users _ _ _ Hus), (Hss _ _ Hs). simpl.
  exists (c_id c), c. rewrite Hmsg, Hn, Hid.
  assert (∀ peer, is_member d1 cid peer = true →
            pending
              (set_messages d1
                 (messages (db s) ++
                  [{| m_id := msg_auto_inc (db s); m_conversation_id := cid;
                      m_sender_user_id := s_userId sess; m_body := db_text (trim body);
                      m_msg_type := text; m_created_at := db_now clk |}])
                 (msg_auto_inc (db s) + 1)) peer
              {| m_id := msg_auto_inc (db s); m_conversation_id := cid;
                 m_sender_user_id := s_userId sess; m_body := db_text (trim body);
                 m_msg_type := text; m_created_at := db_now clk |} = true) as Hp.
  { intros peer Hpeer. unfold pending, delivered_at. simpl.
    unfold is_member in *. simpl. rewrite Hpeer, Hrc.
    by rewrite (fresh_receipt (db s) peer Hd). }
  split_and!; try done; try (by apply Hp).
  subst k. unfold safeSend_obj. simpl.
  destruct (some (select_dm (db s) (min_max (s_userId sess) to).1
                            (min_max (s_userId sess) to).2)) eqn:Hsel; simpl.
  - unfold is_open. simpl.
    destruct (connectionsByUser s !! to) as [set|]; simpl; [done|].
    fold (is_open s ws). by destruct (is_open s ws).
  - split; [by apply Hnew|].
    rewrite <- (sendToUser_sends s to). unfold sendToUser, is_open. simpl.
    fold (is_open s ws).
    destruct (connectionsByUser s !! to) as [set|]; simpl;
      by destruct (is_open s ws).
Qed.

(** X2. Whatever event the server handles, a message row it adds is a text
    whose body is not empty, has no white space at either end and fits the
    column: rows that meet this before the event meet it after. *)
Theorem stored_bodies_trimmed s e :
  Forall stored_by_server (messages (db s)) →
  Forall stored_by_server (messages (db (st (step s e)))).
Proof.
  intros Hall. destruct e as [ws|ws f clk|ws|u]; simpl; [done| | |].
  - destruct f as [| |c]; simpl; try done.
    destruct c as [token|toUserId body|msgId| | |]; simpl.
    + by rewrite on_hello_db.
    + destruct (sessionBySocket s !! ws) as [sess|]; simpl; [|done].
      destruct (on_msg_send_cases s ws sess toUserId body clk)
        as [[-> | (cid & -> & Hne & Hlen)] _]; [done|].
      apply Forall_app. split; [done|].
      apply Forall_singleton. split; simpl.
      * done.
      * by intros ?%db_text_nil.
      * apply trim_db_text_trim.
      * by rewrite utf8_length_db_text.
    + destruct (sessionBySocket s !! ws) as [sess|]; simpl; [|done].
      unfold on_msg_delivered, reply, throw.
      destruct (negb (truthy msgId)); simpl; [done|].
      destruct (sql_round msgId) as [mid|]; simpl; [|done].
      destruct (upsert_receipt (db s) mid (s_userId sess) (db_now clk)) as [d1|e] eqn:E;
        simpl; [|done].
      by rewrite (upsert_receipt_messages _ _ _ _ _ E).
    + by destruct (sessionBySocket s !! ws).
    + by destruct (sessionBySocket s !! ws).
    + by destruct (sessionBySocket s !! ws).
  - by rewrite on_close_db.
  - unfold add_user. by destruct (some (select_user (db s) (u_id u))).
Qed.

(** X3. Message keys come in the order of insertion: where the keys of the
    table ascend and lie below the counter, they still do after any event,
    so a key names one row and a later message has a larger key. *)
Theorem message_ids_ascend s e :
  schema_ok (db s) →
  ascending (m_id <$> messages (db s)) →
  ascending (m_id <$> messages (db (st (step s e)))).
Proof.
  intros Hd Hasc. destruct e as [ws|ws f clk|ws|u]; simpl; [done| | |].
  - destruct f as [| |c]; simpl; try done.
    destruct c as [token|toUserId body|msgId| | |]; simpl.
    + by rewrite on_hello_db.
    + destruct (sessionBySocket s !! ws) as [sess|]; simpl; [|done].
      destruct (on_msg_send_cases s ws sess toUserId body clk)
        as [[-> | (cid & -> & _)] _]; [done|].
      rewrite fmap_app. apply ascending_snoc; [done|].
      intros y (m & -> & Hm)%list_elem_of_fmap.
      pose proof (ok_msg_id _ Hd m Hm). simpl. lia.
    + destruct (sessionBySocket s !! ws) as [sess|]; simpl; [|done].
      unfold on_msg_delivered, reply, throw.
      destruct (negb (truthy msgId)); simpl; [done|].
      destruct (sql_round msgId) as [mid|]; simpl; [|done].
      destruct (upsert_receipt (db s) mid (s_userId sess) (db_now clk)) as [d1|e] eqn:E;
        simpl; [|done].
      by rewrite (upsert_receipt_messages _ _ _ _ _ E).
    + by destruct (sessionBySocket s !! ws).
    + by destruct (sessionBySocket s !! ws).
    + by destruct (sessionBySocket s !! ws).
  - by rewrite on_close_db.
  - unfold add_user. by destruct (some (select_user (db s) (u_id u))).
Qed.

End Sending.


(** ** The offline queue, further *)

Lemma elem_of_select_pending d user m :
  m ∈ select_pending d user → m ∈ messages d ∧ pending d user m = true.
Proof.
  unfold select_pending. intros Hm%(subseteq_take page_size).
  rewrite merge_sort_Permutation in Hm.
  apply list_elem_of_filter in Hm. tauto.
Qed.

Lemma upsert_receipt_members d msg user now d' :
  upsert_receipt d msg user now = Ok d' →
  conversation_members d' = conversation_members d.
Proof.
  unfold upsert_receipt.
  destruct (message_receipts d !! (msg, user)); [by intros [= <-]|].
  destruct (some (select_message d msg)); [|done].
  destruct (some (select_user d user)); [|done].
  by intros [= <-].
Qed.

Section Queue.

Context `{Collaborators}.

(** X4. Once a user has acknowledged a message, no later replay holds it:
    whatever events follow, the query of [deliverPendingToUser] for that
    user answers no row with that key, and the replay pushes no [msg_new]
    for it. *)
Theorem acked_never_replayed s userId msgId t es :
  delivered_at (db s) msgId userId = Some t →
  (∀ m, m ∈ select_pending (db (run s es)) userId → m_id m ≠ msgId)
  ∧ (∀ c conversationId fromUserId body createdAt,
       Send c (msg_new msgId conversationId fromUserId body createdAt)
       ∉ sends (deliverPendingToUser (run s es) userId)).
Proof.
  intros Ht.
  assert (∀ m, m ∈ select_pending (db (run s es)) userId → m_id m ≠ msgId) as Hno.
  { intros m [_ Hp]%elem_of_select_pending Heq.
    apply (run_keeps_delivered s es) in Ht.
    unfold pending in Hp. rewrite Heq, Ht in Hp. simpl in Hp.
    by rewrite andb_false_r in Hp. }
  split; [done|].
  intros c cid from body at'. rewrite deliverPendingToUser_sends.
  apply not_elem_of_nil.
Qed.

(** X5. A message that is pending for a user stays in the table and stays
    pending through every event but one: a delivery ACK on a socket whose
    session is that user, with a [msgId] that the receipt statement stores
    as the key of the message, which is the key itself or a number that
    rounds to it. *)
Theorem pending_until_ack s e userId m :
  m ∈ messages (db s) →
  pending (db s) userId m = true →
  let s' := st (step s e) in
  m ∈ messages (db s')
  ∧ (pending (db s') userId m = true
     ∨ ∃ ws sess clk msgId,
         e = Message ws (Json (msg_delivered_ack msgId)) clk
         ∧ sessionBySocket s !! ws = Some sess
         ∧ s_userId sess = userId
         ∧ sql_round msgId = Some (m_id m)).
Proof.
  intros Hm Hp s'. subst s'.
  destruct e as [ws|ws f clk|ws|u]; simpl.
  - auto.
  - destruct f as [| |c]; simpl; auto.
    destruct c as [token|toUserId body|msgId| | |]; simpl.
    + rewrite on_hello_db. auto.
    + destruct (sessionBySocket s !! ws) as [sess|]; simpl; [|auto].
      destruct (on_msg_send_cases s ws sess toUserId body clk) as [Hmsgs Hmono].
      split.
      * destruct Hmsgs as [-> | (cid & -> & _)]; [done|].
        apply elem_of_app. by left.
      * left. apply andb_prop in Hp as [Hmem Hdel].
        unfold pending, delivered_at in *.
        rewrite on_msg_send_receipts, Hdel, andb_true_r. by apply Hmono.
    + destruct (sessionBySocket s !! ws) as [sess|] eqn:Hs; simpl; [|auto].
      unfold on_msg_delivered, reply, throw.
      destruct (negb (truthy msgId)); simpl; [auto|].
      destruct (sql_round msgId) as [mid|] eqn:Hround; simpl; [|auto].
      destruct (upsert_receipt (db s) mid (s_userId sess) (db_now clk)) as [d1|e] eqn:E;
        simpl; [|auto].
      split; [by rewrite (upsert_receipt_messages _ _ _ _ _ E)|].
      destruct (decide ((m_id m, userId) = (mid, s_userId sess))) as [[= Hid Hu]|Hne].
      * right. exists ws, sess, clk, msgId. by rewrite Hid.
      * left. unfold pending, is_member, delivered_at in *.
        by rewrite (upsert_receipt_members _ _ _ _ _ E),
                   (upsert_receipt_others _ _ _ _ _ _ _ E Hne).
    + destruct (sessionBySocket s !! ws); auto.
    + destruct (sessionBySocket s !! ws); auto.
    + destruct (sessionBySocket s !! ws); auto.
  - rewrite on_close_db. auto.
  - unfold add_user. destruct (some (select_user (db s) (u_id u))); auto.
Qed.

(** X6. The replay leaves a pending message out only when the page is
    full of pending messages that are no younger: 500 of them, each created
    no later than the one left out. *)
Theorem backlog_leaves_out_only_overflow d userId m :
  m ∈ messages d →
  pending d userId m = true →
  m ∈ select_pending d userId
  ∨ (length (select_pending d userId) = page_size
     ∧ ∀ a, a ∈ select_pending d userId → created_le a m).
Proof.
  intros Hm Hp.
  destruct (select_pending_is_backlog d userId) as [_ _ (rest & Hperm & Hold & Hfull)].
  assert (m ∈ select_pending d userId ++ rest) as [Hin|Hin]%elem_of_app.
  { rewrite Hperm. apply list_elem_of_filter. split; [|done].
    by apply pending_undelivered. }
  - by left.
  - right. split.
    + apply Hfull. intros ->. by apply not_elem_of_nil in Hin.
    + intros a Ha. by apply Hold.
Qed.

End Queue.


(** ** A message to oneself *)

Lemma min_max_same a : min_max a a = (a, a).
Proof. unfold min_max. by case_bool_decide. Qed.

(** With one user on both sides, the second member row repeats the key of
    the first. *)
Lemma create_dm_self d userA now :
  schema_ok d → some (select_user d userA) = true →
  (create_dm d userA userA now).1 = Err ER_DUP_ENTRY.
Proof.
  intros Hd Ha. unfold create_dm, insert_conversation. rewrite Ha.
  unfold insert_member at 2. simpl.
  rewrite (fresh_member d userA Hd). simpl.
  unfold select_conversation at 1. simpl.
  rewrite find_none_app by apply (fresh_conversation d Hd). simpl.
  rewrite bool_decide_eq_true_2 by done. simpl.
  unfold select_user at 1. simpl. unfold select_user in Ha. rewrite Ha. simpl.
  unfold insert_member. simpl. by rewrite lookup_insert_eq.
Qed.

Section Self.

Context `{Collaborators}.

(** X7. A [msg_send] whose [toUserId] is the sender. The lookup of
    [getOrCreateDM] then asks for a [dm] conversation that has the sender as
    a member, twice, and any conversation of the sender with somebody else
    answers it. When the lookup answers a conversation, it is a [dm]
    conversation of the sender; the message is stored in it and is pending
    for every member of it; its id is a BigInt, so nothing is sent, and the
    handler throws on [JSON.stringify] unless the sender has no connection
    set and the socket is not open. When the lookup answers none, the
    transaction fails on the repeated member row, nothing is stored and
    nothing is sent. *)
Theorem self_send_joins_own_dm s ws sess toUserId body clk :
  reachable s →
  sessionBySocket s !! ws = Some sess →
  as_integer toUserId = Some (s_userId sess) →
  s_userId sess ≠ 0 →
  select_blocked (db s) (s_userId sess) (s_userId sess) = false →
  trim body ≠ [] →
  Z.of_nat (length (trim body)) ≤ 21845 →
  let o := step s (Message ws (Json (msg_send toUserId body)) clk) in
  match select_dm (db s) (s_userId sess) (s_userId sess) with
  | Some conversationId =>
      let row := {| m_id := msg_auto_inc (db s); m_conversation_id := conversationId;
                    m_sender_user_id := s_userId sess; m_body := db_text (trim body);
                    m_msg_type := text; m_created_at := db_now clk |} in
      (∃ c, c ∈ conversations (db s) ∧ c_id c = conversationId ∧ c_type c = dm)
      ∧ is_member (db s) conversationId (s_userId sess) = true
      ∧ messages (db (st o)) = messages (db s) ++ [row]
      ∧ conversations (db (st o)) = conversations (db s)
      ∧ (∀ peer, is_member (db s) conversationId peer = true →
                 pending (db (st o)) peer row = true)
      ∧ out o = []
      ∧ how o = (if some (connectionsByUser s !! s_userId sess) || is_open s ws
                 then Rejected TypeError else Returned)
  | None =>
      how o = Rejected (SqlError ER_DUP_ENTRY)
      ∧ messages (db (st o)) = messages (db s)
      ∧ out o = []
  end.
Proof.
  intros Hr Hs Hint Hne Hb Hbody Hlen o.
  apply reachable_invariant in Hr. destruct Hr as [Hd _ _ Hss].
  assert (o = on_msg_send s ws sess toUserId body clk) as ->.
  { subst o. simpl. by rewrite Hs. }
  unfold on_msg_send, select_blocked_by, sendToUser_obj.
  rewrite (as_integer_truthy _ _ Hint), (as_integer_sql_round _ _ Hint), Hint.
  apply Z.eqb_neq in Hne. rewrite Hne, (bool_decide_eq_false_2 _ Hbody), Hb.
  cbn [negb orb].
  unfold getOrCreateDM_call. rewrite Hint, min_max_same.
  destruct (select_dm (db s) (s_userId sess) (s_userId sess)) as [cid|] eqn:Hsel.
  - apply fmap_Some in Hsel as (c & (Hin & Hc)%find_some_elem & ->).
    apply andb_prop in Hc as [[Hdm Hm1]%andb_prop _].
    cbn [key_value]. unfold insert_message.
    rewrite bool_decide_eq_false_2
      by (pose proof (utf8_length_bound (trim body)); unfold text_max; lia).
    rewrite (select_conversation_elem _ c Hin), (Hss _ _ Hs). simpl.
    split_and!; try done.
    + exists c. split_and!; try done. unfold is_dm in Hdm. by destruct (c_type c).
    + intros peer Hpeer. unfold pending, delivered_at. simpl.
      unfold is_member in *. simpl. rewrite Hpeer.
      by rewrite (fresh_receipt (db s) peer Hd).
    + unfold safeSend_obj. simpl.
      destruct (connectionsByUser s !! s_userId sess); simpl; [done|].
      unfold is_open. simpl. by case_match.
    + unfold safeSend_obj, is_open. simpl.
      destruct (connectionsByUser s !! s_userId sess); simpl; [done|].
      by case_match.
  - pose proof (create_dm_self (db s) (s_userId sess) (db_now clk) Hd (Hss _ _ Hs)) as He.
    destruct (create_dm_cases (db s) (s_userId sess) (s_userId sess) (db_now clk))
      as [[e Hc] | Hc]; rewrite Hc in He |- *; simpl in *; [|done].
    by injection He as ->.
Qed.

End Self.

(** ** Sockets and sessions *)

Section Transport.

Context `{Collaborators}.

(** The sockets a list of calls sends to are open in [s]. *)
Definition sends_open (s : server) (l : list action) : Prop :=
  ∀ c m, Send c m ∈ l → is_open s c = true.

Lemma sends_open_app s l1 l2 :
  sends_open s l1 → sends_open s l2 → sends_open s (l1 ++ l2).
Proof. intros H1 H2 c m [?|?]%elem_of_app; eauto. Qed.

Lemma sends_open_safeSend s ws m : sends_open s (safeSend s ws m).
Proof. by intros c m' [[= <- _] Ho]%elem_of_safeSend. Qed.

Lemma sends_open_sendUsersList s : sends_open s (sendUsersList s None).
Proof. by intros c m' (ws & [= <- _] & _ & Ho)%elem_of_sendUsersList. Qed.

Lemma sends_open_nil s : sends_open s [].
Proof. by intros c m ?%not_elem_of_nil. Qed.

Lemma to_open_sends_open s l : to_open s l → sends_open s l.
Proof. intros Hl c m Hin. by destruct (Hl _ Hin) as (c' & m' & [= <- _] & Ho). Qed.

Lemma to_open_no_close s l c code reason : to_open s l → Close c code reason ∉ l.
Proof. intros Hl Hin. by destruct (Hl _ Hin) as (c' & m' & ? & _). Qed.

Lemma is_open_detach s ws c :
  is_open (detach s ws) c = true → is_open s c = true ∧ c ≠ ws.
Proof.
  unfold is_open, detach. simpl. destruct (decide (ws = c)) as [->|Hne].
  - by rewrite lookup_insert_eq.
  - by rewrite lookup_insert_ne.
Qed.

Lemma on_close_is_open s ws c :
  is_open (st (on_close s ws)) c = is_open s c.
Proof.
  unfold on_close. destruct (sessionBySocket s !! ws) as [sess|]; [|done].
  cbn [st]. destruct (connectionsByUser s !! s_userId sess) as [set|]; [|done].
  by case_bool_decide.
Qed.

(** X8. The server calls [send] only on sockets that are open when the
    event arrives, and never on the socket whose close it is handling. *)
Theorem sends_only_to_open s e c m :
  Send c m ∈ out (step s e) →
  is_open s c = true ∧ ∀ ws, e = Closed ws → c ≠ ws.
Proof.
  destruct e as [ws|ws f clk|ws|u]; simpl.
  - by intros ?%not_elem_of_nil.
  - intros Hin. split; [|done]. revert c m Hin.
    change (sends_open s (out (on_message s ws f clk))).
    destruct f as [| |cm]; simpl;
      [apply sends_open_safeSend|apply sends_open_nil|].
    destruct cm as [token|toUserId body|msgId| | |]; simpl.
    + unfold on_hello, refuse, throw.
      assert (sends_open s (safeSend s ws (error unauthorized)
                            ++ [Close ws 1008 "unauthorized"])) as Hrefuse.
      { apply sends_open_app; [apply sends_open_safeSend|].
        by intros c m ?%list_elem_of_singleton. }
      destruct (verifyToken token) as [| | |n]; simpl;
        [apply sends_open_nil|apply sends_open_nil|done|].
      destruct (sql_round n); simpl; [|apply sends_open_nil].
      destruct (as_integer n) as [userId|]; simpl; [|done].
      destruct (select_user (db s) userId) as [u|]; simpl; [|done].
      destruct (u_is_active u); simpl; [|done].
      assert (∀ l, sends_open (register s ws userId (u_username u)) l → sends_open s l)
        as Hreg by (intros l Hl c m Hin; by apply (Hl c m)).
      apply Hreg. repeat apply sends_open_app.
      * apply sends_open_safeSend.
      * apply sends_open_sendUsersList.
      * rewrite deliverPendingToUser_sends. apply sends_open_nil.
    + destruct (sessionBySocket s !! ws) as [sess|]; simpl;
        [|apply sends_open_safeSend].
      apply to_open_sends_open, on_msg_send_to_open.
    + destruct (sessionBySocket s !! ws) as [sess|]; simpl;
        [|apply sends_open_safeSend].
      apply to_open_sends_open, on_msg_delivered_to_open.
    + destruct (sessionBySocket s !! ws); simpl; apply sends_open_safeSend.
    + destruct (sessionBySocket s !! ws); simpl;
        [apply sends_open_nil|apply sends_open_safeSend].
    + destruct (sessionBySocket s !! ws); simpl;
        [apply sends_open_nil|apply sends_open_safeSend].
  - intros Hin.
    assert (is_open (detach s ws) c = true) as Hd.
    { rewrite <- (on_close_is_open (detach s ws) ws).
      revert Hin. unfold on_close.
      destruct (sessionBySocket (detach s ws) !! ws) as [sess|];
        [|by intros ?%not_elem_of_nil].
      cbn [out st].
      by intros (c' & [= <- _] & _ & Ho)%elem_of_sendUsersList. }
    apply is_open_detach in Hd as [Hopen Hne].
    split; [done|]. by intros ws' [= <-].
  - by intros ?%not_elem_of_nil.
Qed.

(** X9. The server closes a socket only in answer to a [hello] of that
    socket that does not pass: no other event calls [close], and the code is
    1008. *)
Theorem closes_only_failed_hello s e c code reason :
  Close c code reason ∈ out (step s e) →
  code = 1008
  ∧ ∃ token clk,
      e = Message c (Json (hello token)) clk
      ∧ ¬ ∃ userId, handshake s userId e.
Proof.
  assert (∀ s' ws m, Close c code reason ∉ safeSend s' ws m) as Hsafe.
  { by intros s' ws m [? _]%elem_of_safeSend. }
  assert (∀ s', Close c code reason ∉ sendUsersList s' None) as Hlist.
  { by intros s' (ws & ? & _)%elem_of_sendUsersList. }
  destruct e as [ws|ws f clk|ws|u]; simpl.
  - by intros ?%not_elem_of_nil.
  - destruct f as [| |cm]; simpl;
      [by intros ?%Hsafe|by intros ?%not_elem_of_nil|].
    destruct cm as [token|toUserId body|msgId| | |]; simpl.
    + unfold on_hello, refuse, throw.
      assert (Close c code reason
              ∈ safeSend s ws (error unauthorized) ++ [Close ws 1008 "unauthorized"]
              → code = 1008 ∧ c = ws) as Hrefuse.
      { intros [?%Hsafe|[= -> -> _]%list_elem_of_singleton]%elem_of_app; done. }
      destruct (verifyToken token) as [| | |n] eqn:Htok; cbn [out].
      * by intros ?%not_elem_of_nil.
      * by intros ?%not_elem_of_nil.
      * intros [-> ->]%Hrefuse. split; [done|]. exists token, clk. split; [done|].
        intros [uid Hh]. inversion Hh; congruence.
      * destruct (sql_round n) as [z|] eqn:Hz; cbn [out];
          [|by intros ?%not_elem_of_nil].
        destruct (as_integer n) as [userId|] eqn:Hn; cbn [out].
        { destruct (select_user (db s) userId) as [u|] eqn:Hu; cbn [out].
          { destruct (u_is_active u) eqn:Hact; cbn [out].
            - rewrite deliverPendingToUser_sends, app_nil_r.
              by intros [?%Hsafe|?%Hlist]%elem_of_app.
            - intros [-> ->]%Hrefuse. split; [done|]. exists token, clk.
              split; [done|].
              intros [uid Hh]. inversion Hh; subst. congruence. }
          intros [-> ->]%Hrefuse. split; [done|]. exists token, clk. split; [done|].
          intros [uid Hh]. inversion Hh; subst. congruence. }
        intros [-> ->]%Hrefuse. split; [done|]. exists token, clk. split; [done|].
        intros [uid Hh]. inversion Hh; subst. congruence.
    + destruct (sessionBySocket s !! ws) as [sess|]; simpl; [|by intros ?%Hsafe].
      by intros ?%(to_open_no_close s);
        [|apply on_msg_send_to_open].
    + destruct (sessionBySocket s !! ws) as [sess|]; simpl; [|by intros ?%Hsafe].
      by intros ?%(to_open_no_close s);
        [|apply on_msg_delivered_to_open].
    + destruct (sessionBySocket s !! ws); simpl; by intros ?%Hsafe.
    + destruct (sessionBySocket s !! ws); simpl;
        [by intros ?%not_elem_of_nil|by intros ?%Hsafe].
    + destruct (sessionBySocket s !! ws); simpl;
        [by intros ?%not_elem_of_nil|by intros ?%Hsafe].
  - unfold on_close.
    destruct (sessionBySocket (detach s ws) !! ws) as [sess|]; simpl;
      [by intros ?%Hlist|by intros ?%not_elem_of_nil].
  - by intros ?%not_elem_of_nil.
Qed.

(** X10. A [hello] that does not pass. When [verifyToken] throws (a
    signature whose byte length is not that of the expected one), or
    [Number] throws on the [userId] of the payload, the handler throws:
    nothing is sent, the socket stays open. When the [userId] of the
    payload is truthy and [Number] makes of it no number that a statement
    can hold (NaN, an infinity), the query fails and the handler rejects:
    nothing is sent, the socket stays open. In every other case where no
    handshake takes place - the token is malformed or forged, the payload
    has no truthy [userId], the number names no user or a user that is not
    active - the socket is answered [unauthorized], if it is open, and
    closed with 1008; no session is created, the registry and the database
    stay as they are, and an open socket moves to CLOSING. *)
Theorem handshake_refused s ws token clk :
  let e := Message ws (Json (hello token)) clk in
  let o := step s e in
  (verifyToken token = Thrown →
     st o = s ∧ out o = [] ∧ how o = Rejected RangeError)
  ∧ (verifyToken token = Unreadable →
     st o = s ∧ out o = [] ∧ how o = Rejected TypeError)
  ∧ (∀ n, verifyToken token = UserId n → sql_round n = None →
       st o = s ∧ out o = [] ∧ how o = Rejected (SqlError ER_BAD_FIELD_ERROR))
  ∧ (verifyToken token ≠ Thrown →
     verifyToken token ≠ Unreadable →
     (∀ n, verifyToken token = UserId n → sql_round n ≠ None) →
     (¬ ∃ userId, handshake s userId e) →
       out o = (if is_open s ws then [Send ws (error unauthorized)] else [])
               ++ [Close ws 1008 "unauthorized"]
       ∧ how o = Returned
       ∧ sessionBySocket (st o) = sessionBySocket s
       ∧ connectionsByUser (st o) = connectionsByUser s
       ∧ db (st o) = db s
       ∧ (is_open s ws = true → readyState (st o) !! ws = Some CLOSING)).
Proof.
  intros e o. assert (o = on_hello s ws token) as -> by done. subst e.
  split_and!.
  - intros Htok. unfold on_hello. by rewrite Htok.
  - intros Htok. unfold on_hello. by rewrite Htok.
  - intros n Htok Hn. unfold on_hello. by rewrite Htok, Hn.
  - intros Hthrown Hunreadable Hround Hno.
    assert (on_hello s ws token = refuse s ws) as ->.
    { unfold on_hello.
      destruct (verifyToken token) as [| | |n] eqn:Htok; try done.
      specialize (Hround n eq_refl).
      destruct (sql_round n) as [z|]; [|done].
      destruct (as_integer n) as [userId|] eqn:Hn; [|done].
      destruct (select_user (db s) userId) as [u|] eqn:Hu; [|done].
      destruct (u_is_active u) eqn:Hact; [|done].
      destruct Hno. exists userId. by econstructor. }
    unfold refuse, ws_close, safeSend. simpl.
    destruct (is_open s ws) eqn:Ho; simpl; split_and!; try done.
    intros _. by rewrite lookup_insert_eq.
Qed.

(** X11. One socket, two handshakes. A second [hello] on a socket, with the
    token of another user, registers the socket under that user as well and
    moves the session; the close handler then removes the socket from the
    set of the session only. The first user keeps a closed socket in the
    registry and stays online. *)
Theorem rehello_leaves_ghost s ws tokenA tokenB clkA clkB userA userB :
  userA ≠ userB →
  handshake s userA (Message ws (Json (hello tokenA)) clkA) →
  handshake s userB (Message ws (Json (hello tokenB)) clkB) →
  let s' := run s [Message ws (Json (hello tokenA)) clkA;
                   Message ws (Json (hello tokenB)) clkB;
                   Closed ws] in
  isUserOnline s' userA = true
  ∧ ws ∈ connectionsOf s' userA
  ∧ is_open s' ws = false
  ∧ ws ∉ connectionsOf s' userB.
Proof.
  intros Hab HA HB s'. subst s'.
  inversion HA as [? ? ? nA uA HtA HnA HuA HaA]; subst.
  inversion HB as [? ? ? nB uB HtB HnB HuB HaB]; subst.
  unfold run. cbn [foldl].
  rewrite (step_handshake s ws tokenA clkA nA userA uA HtA HnA HuA HaA). cbn [st].
  set (s1 := register s ws userA (u_username uA)).
  rewrite (step_handshake s1 ws tokenB clkB nB userB uB HtB HnB HuB HaB). cbn [st].
  set (s2 := register s1 ws userB (u_username uB)).
  assert (sessionBySocket (detach s2 ws) !! ws
          = Some {| s_userId := userB; s_username := u_username uB |}) as Hs.
  { unfold s2, register, detach. simpl. by rewrite lookup_insert_eq. }
  assert (∀ v, connectionsOf (detach s2 ws) v = connectionsOf s2 v) as Hdet by done.
  assert (ws ∈ connectionsOf s2 userA) as HinA.
  { unfold s2, s1, connectionsOf, register. simpl.
    rewrite lookup_insert_ne by done. rewrite lookup_insert_eq. simpl.
    apply set_add_elem. by left. }
  pose proof (on_close_connectionsOf (detach s2 ws) ws _ userA Hs) as HcA.
  pose proof (on_close_connectionsOf (detach s2 ws) ws _ userB Hs) as HcB.
  simpl in HcA, HcB. rewrite decide_False in HcA by done.
  rewrite decide_True in HcB by done. rewrite Hdet in HcA.
  change (st (step s2 (Closed ws))) with (st (on_close (detach s2 ws) ws)).
  split_and!.
  - apply isUserOnline_connectionsOf. rewrite HcA. intros Hnil.
    rewrite Hnil in HinA. by apply not_elem_of_nil in HinA.
  - by rewrite HcA.
  - rewrite on_close_is_open. unfold is_open, detach. simpl.
    by rewrite lookup_insert_eq.
  - rewrite HcB. rewrite set_remove_elem. tauto.
Qed.

End Transport.


(** * The access token

    [signToken] and [verifyToken]. The HMAC of the payload under the secret
    of the server ([digest('base64url')]), the encoding of a payload object
    ([JSON.stringify], then base64url) and its decoding (base64url, then
    [JSON.parse], which may throw) are taken as given. *)

Module Token.

(** [Buffer.from(s)]: the UTF-8 bytes of a string. A surrogate pair is one
    code point of four bytes, a surrogate alone becomes U+FFFD. *)
Definition is_high (c : N) : bool := ((55296 <=? c) && (c <=? 56319))%N.
Definition is_low (c : N) : bool := ((56320 <=? c) && (c <=? 57343))%N.

Definition utf8_one (c : N) : list N :=
  (if c <? 128 then [c]
   else if c <? 2048 then [192 + c / 64; 128 + c mod 64]
   else if is_high c || is_low c then [239; 191; 189]
   else [224 + c / 4096; 128 + (c / 64) mod 64; 128 + c mod 64])%N.

Definition utf8_pair (hi lo : N) : list N :=
  (let cp := 65536 + (hi - 55296) * 1024 + (lo - 56320) in
   [240 + cp / 262144; 128 + (cp / 4096) mod 64; 128 + (cp / 64) mod 64;
    128 + cp mod 64])%N.

Fixpoint utf8 (s : jsstring) : list N :=
  match s with
  | [] => []
  | c :: s' =>
      match s' with
      | lo :: rest =>
          if is_high c && is_low lo then utf8_pair c lo ++ utf8 rest
          else utf8_one c ++ utf8 s'
      | [] => utf8_one c
      end
  end.

(** The code unit of the full stop. *)
Definition dot : N := 46.

(** [token.split('.')]: the pieces between the full stops, one at least. *)
Fixpoint split_dot (s : jsstring) : list jsstring :=
  match s with
  | [] => [[]]
  | c :: s' =>
      if (c =? dot)%N then [] :: split_dot s'
      else match split_dot s' with
           | piece :: pieces => (c :: piece) :: pieces
           | [] => [[c]]
           end
  end.

(** How a call ends: with a payload, with [null], or with an exception. *)
Inductive answer (P : Type) :=
| Payload (p : P)
| Null
| Throws.
Arguments Payload {P} p.
Arguments Null {P}.
Arguments Throws {P}.

(** [crypto.timingSafeEqual(a, b)] throws when the lengths differ. *)
Definition timingSafeEqual (a b : list N) : option bool :=
  if bool_decide (length a = length b) then Some (bool_decide (a = b)) else None.

Section Token.

Context {P : Type}.
Context (hmac : jsstring → jsstring).
Context (encode : P → jsstring).
Context (decode : jsstring → option P).

Definition signToken (payloadObj : P) : jsstring :=
  let payload := encode payloadObj in
  let sig := hmac payload in
  payload ++ [dot] ++ sig.

(** [token] is [None] for a value that is no string. *)
Definition verifyToken (token : option jsstring) : answer P :=
  match token with
  | None => Null
  | Some [] => Null
  | Some t =>
      let parts := split_dot t in
      match parts !! 0%nat, parts !! 1%nat with
      | Some payload, Some sig =>
          if bool_decide (payload = []) || bool_decide (sig = []) then Null
          else
            let expected := hmac payload in
            match timingSafeEqual (utf8 sig) (utf8 expected) with
            | None => Throws
            | Some false => Null
            | Some true =>
                match decode payload with
                | Some p => Payload p
                | None => Null
                end
            end
      | _, _ => Null
      end
  end.

(** *** Splitting *)

Lemma split_dot_nonempty s : split_dot s ≠ [].
Proof.
  destruct s as [|c s]; simpl; [done|].
  destruct (c =? dot)%N; [done|]. by destruct (split_dot s).
Qed.

(** A piece without a full stop, then a full stop: the piece comes first. *)
Lemma split_dot_piece a s :
  dot ∉ a → split_dot (a ++ dot :: s) = a :: split_dot s.
Proof.
  induction a as [|c a IH]; intros Ha.
  - reflexivity.
  - simpl. apply not_elem_of_cons in Ha as [Hc Ha].
    destruct (N.eqb_spec c dot) as [->|_]; [done|].
    by rewrite (IH Ha).
Qed.

Lemma split_dot_last a : dot ∉ a → split_dot a = [a].
Proof.
  induction a as [|c a IH]; intros Ha; simpl; [done|].
  apply not_elem_of_cons in Ha as [Hc Ha].
  destruct (N.eqb_spec c dot) as [->|_]; [done|].
  by rewrite (IH Ha).
Qed.

(** The first two pieces of [payload.sig] and of [payload.sig.more]. *)
Lemma split_dot_token payload sig more :
  dot ∉ payload → dot ∉ sig →
  more = [] ∨ (∃ rest, more = dot :: rest) →
  ∃ pieces, split_dot (payload ++ [dot] ++ sig ++ more) = payload :: sig :: pieces.
Proof.
  intros Hp Hs Hmore. simpl. rewrite (split_dot_piece payload _ Hp).
  destruct Hmore as [->|[rest ->]].
  - rewrite app_nil_r, (split_dot_last sig Hs). by exists [].
  - rewrite (split_dot_piece sig _ Hs). eauto.
Qed.

(** A token with a payload and a signature gets as far as the digest. *)
Lemma verifyToken_pieces t payload sig pieces :
  split_dot t = payload :: sig :: pieces → payload ≠ [] → sig ≠ [] →
  verifyToken (Some t) =
    match timingSafeEqual (utf8 sig) (utf8 (hmac payload)) with
    | None => Throws
    | Some false => Null
    | Some true => match decode payload with Some p => Payload p | None => Null end
    end.
Proof.
  intros Hsplit Hp Hs. destruct t as [|c t]; [done|].
  unfold verifyToken. rewrite Hsplit. simpl.
  by rewrite (bool_decide_eq_false_2 _ Hp), (bool_decide_eq_false_2 _ Hs).
Qed.

(** *** What the two functions do together *)

Section Laws.

(** The alphabet of base64url has no full stop, a digest and an encoded
    payload are not empty, and decoding undoes encoding. *)
Hypothesis hmac_base64url : ∀ x, hmac x ≠ [] ∧ dot ∉ hmac x.
Hypothesis encode_base64url : ∀ p, encode p ≠ [] ∧ dot ∉ encode p.
Hypothesis decode_encode : ∀ p, decode (encode p) = Some p.

Lemma verifyToken_signToken payloadObj more :
  more = [] ∨ (∃ rest, more = dot :: rest) →
  verifyToken (Some (signToken payloadObj ++ more)) = Payload payloadObj.
Proof.
  intros Hmore. unfold signToken.
  destruct (encode_base64url payloadObj) as [Hne Hnd].
  destruct (hmac_base64url (encode payloadObj)) as [Hsne Hsnd].
  destruct (split_dot_token (encode payloadObj) (hmac (encode payloadObj)) more
              Hnd Hsnd Hmore) as [pieces Hsplit].
  rewrite <- !app_assoc.
  rewrite (verifyToken_pieces _ _ _ _ Hsplit Hne Hsne).
  unfold timingSafeEqual. rewrite !bool_decide_eq_true_2 by done.
  by rewrite decode_encode.
Qed.

(** X12. [verifyToken] gives back the payload that [signToken] signed. It
    reads the first two pieces of the token only: the token followed by a
    full stop and anything else verifies to the same payload. *)
Theorem verify_sign payloadObj more :
  more = [] ∨ (∃ rest, more = dot :: rest) →
  verifyToken (Some (signToken payloadObj)) = Payload payloadObj
  ∧ verifyToken (Some (signToken payloadObj ++ more)) = Payload payloadObj.
Proof.
  intros Hmore. split; [|by apply verifyToken_signToken].
  rewrite <- (app_nil_r (signToken payloadObj)).
  apply verifyToken_signToken. by left.
Qed.

End Laws.

(** X13. A token [payload.sig] whose signature is not the digest of the
    payload. When the two have the same number of bytes the answer is
    [null]; when they do not, [timingSafeEqual] throws and so does
    [verifyToken]. No payload is answered in either case. *)
Theorem verify_forged payload sig :
  payload ≠ [] → sig ≠ [] → dot ∉ payload → dot ∉ sig →
  utf8 sig ≠ utf8 (hmac payload) →
  verifyToken (Some (payload ++ [dot] ++ sig)) =
    if bool_decide (length (utf8 sig) = length (utf8 (hmac payload)))
    then Null else Throws.
Proof.
  intros Hp Hs Hpd Hsd Hne.
  destruct (split_dot_token payload sig [] Hpd Hsd) as [pieces Hsplit]; [by left|].
  rewrite app_nil_r in Hsplit.
  rewrite (verifyToken_pieces _ _ _ _ Hsplit Hp Hs).
  unfold timingSafeEqual. case_bool_decide; [|done].
  by rewrite (bool_decide_eq_false_2 _ Hne).
Qed.

(** A token short of a payload and a signature is answered [null]. *)
Lemma verifyToken_short t :
  match split_dot t with
  | payload :: sig :: _ => payload = [] ∨ sig = []
  | _ => True
  end →
  verifyToken (Some t) = Null.
Proof.
  destruct t as [|c t]; [done|]. unfold verifyToken.
  destruct (split_dot (c :: t)) as [|payload [|sig pieces]]; simpl; [done..|].
  intros [-> | ->]; simpl; [done|]. by rewrite orb_true_r.
Qed.

(** X14. A token with no full stop in it, or with nothing before its first
    full stop, or nothing between its first full stop and the next one or
    the end, is answered [null] before any digest is compared. *)
Theorem verify_malformed t :
  (dot ∉ t) ∨
  (∃ rest, t = dot :: rest) ∨
  (∃ payload rest, (dot ∉ payload) ∧ t = payload ++ dot :: dot :: rest) ∨
  (∃ payload, (dot ∉ payload) ∧ t = payload ++ [dot]) →
  verifyToken (Some t) = Null.
Proof.
  intros Ht. apply verifyToken_short.
  destruct Ht as [Hnd|[[rest ->]|[(payload & rest & Hp & ->)|(payload & Hp & ->)]]].
  - by rewrite (split_dot_last t Hnd).
  - change (split_dot (dot :: rest)) with ([] :: split_dot rest).
    destruct (split_dot rest); [done|by left].
  - rewrite (split_dot_piece payload _ Hp).
    change (split_dot (dot :: rest)) with ([] :: split_dot rest). by right.
  - rewrite (split_dot_piece payload _ Hp). by right.
Qed.

End Token.

End Token.


(** * The client: [main.js] *)

Module Client.

(** ** [escapeHtml]

    [s.replace] with a function: each of the ampersand, [<], [>], the
    double quote and the single quote is replaced by its entity, every
    other code unit is kept. *)
Definition escape_char (c : N) : jsstring :=
  (if c =? 38 then js "&amp;"
   else if c =? 60 then js "&lt;"
   else if c =? 62 then js "&gt;"
   else if c =? 34 then js "&quot;"
   else if c =? 39 then js "&#039;"
   else [c])%N.

Definition escapeHtml (s : jsstring) : jsstring := s ≫= escape_char.

(** The characters that open or close a tag or an attribute value. *)
Definition markup : list N := [60; 62; 34; 39]%N.

(** ** The chat pane

    The part of the page that [appendMsg], [markDelivered] and [clearChat]
    work on. A [div] of class [msg] is named by the order of its creation;
    its first child holds the escaped body, its second child, of class
    [meta], holds one of three texts. *)
Inductive meta_html :=
| Theirs                      (* Ell@ *)
| Mine (delivered : bool).    (* Tu, then a span with one check or with two *)

Record div := {
  d_me : bool;                (* the class [me] *)
  d_body : jsstring;
  d_meta : meta_html
}.

Record entry := {
  el : nat;
  fromUserId : Z
}.

(** [me] holds [me?.id]; [divs] holds every [div] created, in the page or
    not; [chatEl] the children of the pane; [msgDomById] the [Map], whose
    keys are numbers compared as [Map] does ([NaN] is a key like another). *)
Record pane := {
  me : option Z;
  divs : list div;
  chatEl : list nat;
  msgDomById : list (jsnum * entry)
}.

#[global] Instance jsnum_eq_dec : EqDecision jsnum.
Proof. solve_decision. Defined.

Definition map_get (k : jsnum) (m : list (jsnum * entry)) : option entry :=
  snd <$> find (λ p, bool_decide (p.1 = k)) m.

Fixpoint map_set (k : jsnum) (v : entry) (m : list (jsnum * entry))
    : list (jsnum * entry) :=
  match m with
  | [] => [(k, v)]
  | p :: m' => if bool_decide (p.1 = k) then (k, v) :: m' else p :: map_set k v m'
  end.

(** [msgId] is [Number(msgId)]: the number of a [msg_new], [NaN] for the
    text [tmp-...] that the composer passes. *)
Definition appendMsg (c : pane) (msgId : jsnum) (from : Z) (body : jsstring)
    (delivered : bool) : pane :=
  let isMe := bool_decide (me c = Some from) in
  let d := {| d_me := isMe; d_body := escapeHtml body;
              d_meta := if isMe then Mine delivered else Theirs |} in
  let i := length (divs c) in
  {| me := me c;
     divs := divs c ++ [d];
     chatEl := chatEl c ++ [i];
     msgDomById := map_set msgId {| el := i; fromUserId := from |} (msgDomById c) |}.

Definition set_meta (m : meta_html) (d : div) : div :=
  {| d_me := d_me d; d_body := d_body d; d_meta := m |}.

(** [msgId] is [Number(msgId)]. Every [div] of [appendMsg] has a child of
    class [meta], so [querySelector] finds one. *)
Definition markDelivered (c : pane) (msgId : jsnum) : pane :=
  match map_get msgId (msgDomById c) with
  | None => c
  | Some e =>
      if bool_decide (me c = Some (fromUserId e))
      then {| me := me c;
              divs := alter (set_meta (Mine true)) (el e) (divs c);
              chatEl := chatEl c;
              msgDomById := msgDomById c |}
      else c
  end.

Definition clearChat (c : pane) : pane :=
  {| me := me c; divs := divs c; chatEl := []; msgDomById := [] |}.

(** What happens to the pane: a message of the server arrives; the composer
    is submitted with a user selected and the socket open; a user of the
    list is clicked; [doLogin] succeeds; the logout button is clicked. *)
Inductive ui_event :=
| Received (m : server_msg)
| Submitted (value : jsstring)
| Selected
| LoggedIn (id : Z)
| LoggedOut.

Definition set_me (c : pane) (id : option Z) : pane :=
  {| me := id; divs := divs c; chatEl := chatEl c; msgDomById := msgDomById c |}.

(** With [me] null the composer throws at [me.id], after it has sent. *)
Definition on_event (c : pane) (e : ui_event) : pane :=
  match e with
  | Received (msg_new msgId _ from body _) =>
      appendMsg c (Num msgId) from body false
  | Received (msg_delivered msgId _) => markDelivered c (Num msgId)
  | Received _ => c
  | Submitted value =>
      let text := trim value in
      if bool_decide (text = []) then c
      else match me c with
           | Some id => appendMsg c NaN id text false
           | None => c
           end
  | Selected => clearChat c
  | LoggedIn id => set_me c (Some id)
  | LoggedOut => clearChat (set_me c None)
  end.

Definition run_ui (c : pane) (es : list ui_event) : pane := foldl on_event c es.

(** ** [escapeHtml] *)

(** The entities, code unit by code unit. *)
Lemma escape_char_units c :
  escape_char c =
    (if c =? 38 then [38; 97; 109; 112; 59]
     else if c =? 60 then [38; 108; 116; 59]
     else if c =? 62 then [38; 103; 116; 59]
     else if c =? 34 then [38; 113; 117; 111; 116; 59]
     else if c =? 39 then [38; 35; 48; 51; 57; 59]
     else [c])%N.
Proof. unfold escape_char. by repeat destruct (_ =? _)%N. Qed.

Ltac case_units :=
  repeat match goal with
  | |- context [(?a =? ?b)%N] => destruct (N.eqb_spec a b) as [->|?]; simpl
  | H : context [(?a =? ?b)%N] |- _ =>
      destruct (N.eqb_spec a b) as [->|?]; simpl in H
  end.

Lemma escape_char_markup c x : x ∈ escape_char c → x ∉ markup.
Proof.
  rewrite escape_char_units. unfold markup.
  case_units; intros Hx Hm;
    repeat (apply elem_of_cons in Hx as [->|Hx]);
    try (by apply elem_of_nil in Hx);
    repeat (apply elem_of_cons in Hm as [Hm|Hm]; [congruence|]);
    by apply elem_of_nil in Hm.
Qed.

(** X15. The text that [escapeHtml] returns holds none of the characters
    that open or close a tag or an attribute value: no [<], [>], double
    quote or single quote. *)
Theorem escapeHtml_no_markup s x : x ∈ escapeHtml s → x ∉ markup.
Proof.
  unfold escapeHtml. rewrite list_elem_of_bind. intros (c & Hx & _).
  by eapply escape_char_markup.
Qed.

Lemma escape_char_inj c1 c2 r1 r2 :
  escape_char c1 ++ r1 = escape_char c2 ++ r2 → c1 = c2 ∧ r1 = r2.
Proof.
  rewrite !escape_char_units.
  case_units; intros Heq; simplify_eq; done.
Qed.

(** X16. [escapeHtml] loses nothing: two texts with the same escaped form
    are the same text. *)
Theorem escapeHtml_inj s1 s2 : escapeHtml s1 = escapeHtml s2 → s1 = s2.
Proof.
  unfold escapeHtml. revert s2.
  induction s1 as [|c1 s1 IH]; intros [|c2 s2]; simpl; intros Heq; [done| | |].
  - rewrite escape_char_units in Heq. by case_units.
  - rewrite escape_char_units in Heq. by case_units.
  - apply escape_char_inj in Heq as [-> Heq]. f_equal. by apply IH.
Qed.

(** ** The double check *)

Lemma map_get_elem k e m : map_get k m = Some e → (k, e) ∈ m.
Proof.
  unfold map_get. destruct (find _ m) as [[k' e']|] eqn:Hf; simpl; [|done].
  intros [= <-]. apply find_some_elem in Hf as [Hin Hk].
  apply bool_decide_eq_true in Hk. simpl in Hk. by subst.
Qed.

Lemma elem_of_map_set k v m p : p ∈ map_set k v m → p = (k, v) ∨ p ∈ m.
Proof.
  induction m as [|q m IH]; simpl.
  - rewrite list_elem_of_singleton. by left.
  - case_bool_decide; rewrite !elem_of_cons; intros [Hp|Hp]; eauto.
    destruct (IH Hp); eauto.
Qed.

(** The [Map] names [div]s that exist. *)
Definition names_created (c : pane) : Prop :=
  ∀ k e, (k, e) ∈ msgDomById c → (el e < length (divs c))%nat.

(** The page as it is loaded. *)
Definition loaded : pane :=
  {| me := None; divs := []; chatEl := []; msgDomById := [] |}.

Lemma appendMsg_names_created c msgId from body delivered :
  names_created c → names_created (appendMsg c msgId from body delivered).
Proof.
  intros Hc k e Hin. simpl in *. rewrite length_app. simpl.
  apply elem_of_map_set in Hin as [[= -> ->]|Hin]; simpl; [lia|].
  specialize (Hc _ _ Hin). lia.
Qed.

Lemma markDelivered_names_created c msgId :
  names_created c → names_created (markDelivered c msgId).
Proof.
  intros Hc. unfold markDelivered.
  destruct (map_get msgId (msgDomById c)) as [e|]; [|done].
  case_bool_decide; [|done]. intros k e' Hin. simpl in *.
  rewrite length_alter. eauto.
Qed.

Lemma on_event_names_created c e : names_created c → names_created (on_event c e).
Proof.
  intros Hc. destruct e as [m|value| |id|]; simpl.
  - destruct m; try done.
    + by apply appendMsg_names_created.
    + by apply markDelivered_names_created.
  - case_bool_decide; [done|]. destruct (me c); [|done].
    by apply appendMsg_names_created.
  - intros ?? Hin. by apply elem_of_nil in Hin.
  - done.
  - intros ?? Hin. by apply elem_of_nil in Hin.
Qed.

Lemma run_ui_names_created c es : names_created c → names_created (run_ui c es).
Proof.
  unfold run_ui. revert c. induction es as [|e es IH]; intros c Hc; simpl; [done|].
  apply IH. by apply on_event_names_created.
Qed.

Lemma loaded_names_created : names_created loaded.
Proof. intros ?? Hin. by apply elem_of_nil in Hin. Qed.

(** What holds of a [div] of the composer from its creation on: it is as
    it was created, and the [Map] names it under [NaN] or not at all. *)
Record unconfirmed (i : nat) (d : div) (c : pane) : Prop := {
  unconfirmed_div : divs c !! i = Some d;
  unconfirmed_key : ∀ k e, (k, e) ∈ msgDomById c → el e = i → k = NaN
}.

Lemma appendMsg_unconfirmed i d c msgId from body delivered :
  unconfirmed i d c → unconfirmed i d (appendMsg c msgId from body delivered).
Proof.
  intros [Hd Hk]. split; simpl.
  - by apply lookup_app_l_Some.
  - intros k e Hin Hel. apply elem_of_map_set in Hin as [[= -> ->]|Hin]; [|eauto].
    simpl in Hel. apply lookup_lt_Some in Hd. lia.
Qed.

Lemma markDelivered_unconfirmed i d c msgId :
  unconfirmed i d c → unconfirmed i d (markDelivered c (Num msgId)).
Proof.
  intros [Hd Hk]. unfold markDelivered.
  destruct (map_get (Num msgId) (msgDomById c)) as [e|] eqn:Hget; [|done].
  case_bool_decide; [|done]. split; simpl; [|done].
  rewrite list_lookup_alter_ne; [done|].
  intros Hel. apply map_get_elem in Hget. by specialize (Hk _ _ Hget Hel).
Qed.

Lemma on_event_unconfirmed i d c e :
  unconfirmed i d c → unconfirmed i d (on_event c e).
Proof.
  intros Hc. destruct e as [m|value| |id|]; simpl.
  - destruct m; try done.
    + by apply appendMsg_unconfirmed.
    + by apply markDelivered_unconfirmed.
  - case_bool_decide; [done|]. destruct (me c); [|done].
    by apply appendMsg_unconfirmed.
  - destruct Hc as [Hd _]. split; [done|]. simpl. intros ?? Hin.
    by apply elem_of_nil in Hin.
  - by destruct Hc.
  - destruct Hc as [Hd _]. split; [done|]. simpl. intros ?? Hin.
    by apply elem_of_nil in Hin.
Qed.

Lemma run_ui_unconfirmed i d c es :
  unconfirmed i d c → unconfirmed i d (run_ui c es).
Proof.
  unfold run_ui. revert c. induction es as [|e es IH]; intros c Hc; simpl; [done|].
  apply IH. by apply on_event_unconfirmed.
Qed.

(** X17. A message typed in the composer never gets its second check. Its
    [div] is filed under [Number('tmp-...')], which is [NaN], and the
    [msg_delivered] of the server carries the key of the row: at any point
    of a session, whatever arrives and whatever the user does afterwards,
    the [div] stays as the composer made it, with one check. *)
Theorem typed_message_never_confirmed before id value after :
  let c := run_ui loaded before in
  me c = Some id →
  trim value ≠ [] →
  divs (run_ui (on_event c (Submitted value)) after) !! length (divs c) =
    Some {| d_me := true; d_body := escapeHtml (trim value); d_meta := Mine false |}.
Proof.
  intros c Hme Hv.
  pose proof (run_ui_names_created loaded before loaded_names_created) as Hwf.
  fold c in Hwf. simpl.
  rewrite (bool_decide_eq_false_2 _ Hv), Hme.
  apply run_ui_unconfirmed. split.
  - unfold appendMsg. simpl. rewrite bool_decide_eq_true_2 by done.
    by rewrite lookup_app_r, Nat.sub_diag.
  - simpl. intros k e Hin Hel.
    apply elem_of_map_set in Hin as [[= -> ->]|Hin]; [done|].
    specialize (Hwf _ _ Hin). lia.
Qed.

Lemma map_get_set k v m : map_get k (map_set k v m) = Some v.
Proof.
  unfold map_get. induction m as [|p m IH]; simpl.
  - by rewrite bool_decide_eq_true_2.
  - case_bool_decide as Hp; simpl.
    + by rewrite bool_decide_eq_true_2.
    + by rewrite (bool_decide_eq_false_2 _ Hp).
Qed.

(** X18. A message of the user that arrives as [msg_new] - the queue of
    a user holds the user's own messages too - is filed under its key,
    and the next [msg_delivered] for that key gives it the second check,
    whoever acknowledged. *)
Theorem replayed_message_confirmed c id msgId conversationId body createdAt byUserId :
  me c = Some id →
  let c' := run_ui c [Received (msg_new msgId conversationId id body createdAt);
                      Received (msg_delivered msgId byUserId)] in
  divs c' !! length (divs c) =
    Some {| d_me := true; d_body := escapeHtml body; d_meta := Mine true |}.
Proof.
  intros Hme c'. subst c'. unfold run_ui. cbn [foldl on_event].
  unfold markDelivered. cbn [appendMsg msgDomById me].
  rewrite map_get_set. cbn [fromUserId el divs].
  rewrite Hme, !bool_decide_eq_true_2 by done.
  cbn [divs]. rewrite list_lookup_alter, decide_True by done.
  cbn [appendMsg divs]. rewrite lookup_app_r, Nat.sub_diag by done. simpl.
  by rewrite Hme, bool_decide_eq_true_2.
Qed.

End Client.


(** * The two endpoints: [POST /api/register] and [POST /api/login] *)

Module Http.

(** The [users] table with the columns that the endpoints read and write.
    The texts are JavaScript strings, as the driver passes them. The row
    that a registration adds is the one that the [Registered] event brings
    to the WebSocket server. *)
Record account_row := {
  a_id : Z;
  a_username : jsstring;
  a_email : jsstring;
  a_password_hash : jsstring;
  a_is_active : bool
}.

Record users_table := {
  rows : list account_row;
  auto_inc : Z
}.

(** The length of a text in characters, as [VARCHAR(n)] counts it: a
    surrogate pair is one character. *)
Fixpoint char_length (s : jsstring) : nat :=
  match s with
  | [] => 0
  | c :: s' =>
      match s' with
      | lo :: rest =>
          if Token.is_high c && Token.is_low lo then S (char_length rest)
          else S (char_length s')
      | [] => 1
      end
  end.

(** What [signToken] is given at a login: [{userId, username, iat}]. *)
Record token_payload := {
  p_userId : Z;
  p_username : jsstring;
  p_iat : Z
}.

(** [res.status(status).json({error})]; [res.status(201).json({ok: true,
    userId})]; [res.json({token, user: {id, username, email}})]. *)
Inductive response :=
| Failed (status : Z) (error : string)
| Created (userId : Z)
| Granted (token : jsstring) (id : Z) (username email : jsstring).

Section Http.

(** Taken as given: whether two texts are equal under the collation of the
    database; [String.prototype.toLowerCase]; [bcrypt.hash] with the salt
    it draws, and [bcrypt.compare]; the HMAC and the encoding of the token
    as in [Token]. *)
Context (ci_eq : jsstring → jsstring → bool).
Context (toLowerCase : jsstring → jsstring).
Context {Salt : Type}.
Context (bcrypt_hash : jsstring → Salt → jsstring).
Context (bcrypt_compare : jsstring → jsstring → bool).
Context (hmac : jsstring → jsstring).
Context (encode : token_payload → jsstring).
Context (decode : jsstring → option token_payload).

(** [INSERT INTO users (username, email, password_hash, is_active) VALUES
    (?, ?, ?, 1)]: a text longer than its column is refused; a username or
    an email that a row has is refused by [uq_users_username] or
    [uq_users_email], and the key drawn for the row is lost. *)
Definition insert_user (t : users_table) (username email password_hash : jsstring)
    : result Z * users_table :=
  if bool_decide (50 < char_length username)%nat
     || bool_decide (255 < char_length email)%nat
     || bool_decide (255 < char_length password_hash)%nat
  then (Err ER_DATA_TOO_LONG, t)
  else if existsb (λ r, ci_eq (a_username r) username || ci_eq (a_email r) email)
            (rows t)
  then (Err ER_DUP_ENTRY, {| rows := rows t; auto_inc := auto_inc t + 1 |})
  else (Ok (auto_inc t),
        {| rows := rows t ++
                   [{| a_id := auto_inc t; a_username := username;
                       a_email := email; a_password_hash := password_hash;
                       a_is_active := true |}];
           auto_inc := auto_inc t + 1 |}).

(** A field of the body is a string or is absent. *)
Definition register (t : users_table) (username email password : option jsstring)
    (salt : Salt) : response * users_table :=
  let u := trim (default [] username) in
  let e := toLowerCase (trim (default [] email)) in
  let p := default [] password in
  if bool_decide (u = []) || bool_decide (e = []) || bool_decide (p = [])
  then (Failed 400 "username/email/password required", t)
  else if bool_decide (length u < 3)%nat then (Failed 400 "username_too_short", t)
  else if bool_decide (length p < 6)%nat then (Failed 400 "password_too_short", t)
  else
    let passwordHash := bcrypt_hash p salt in
    match insert_user t u e passwordHash with
    | (Ok userId, t') => (Created userId, t')
    | (Err ER_DUP_ENTRY, t') => (Failed 409 "user_exists", t')
    | (Err _, t') => (Failed 500 "server_error", t')
    end.

(** [SELECT ... FROM users WHERE email = ? OR username = ? LIMIT 1]; of
    several rows that match, the first of the table is taken here. *)
Definition select_login (t : users_table) (login : jsstring) : option account_row :=
  find (λ r, ci_eq (a_email r) login || ci_eq (a_username r) login) (rows t).

Definition login (t : users_table) (login password : option jsstring) (now : Z)
    : response :=
  match login, password with
  | Some l, Some p =>
      if bool_decide (l = []) || bool_decide (p = [])
      then Failed 400 "login/password required"
      else
        match select_login t l with
        | None => Failed 401 "invalid credentials"
        | Some u =>
            if negb (a_is_active u) then Failed 403 "inactive user"
            else if negb (bcrypt_compare p (a_password_hash u))
            then Failed 401 "invalid credentials"
            else
              let token :=
                Token.signToken hmac encode
                  {| p_userId := a_id u; p_username := a_username u; p_iat := now |} in
              Granted token (a_id u) (a_username u) (a_email u)
        end
  | _, _ => Failed 400 "login/password required"
  end.

(** *** Properties *)

Ltac by_decide P H :=
  destruct (decide P) as [H|H];
  [rewrite (bool_decide_eq_true_2 _ H)|rewrite (bool_decide_eq_false_2 _ H)];
  simpl.

Lemma find_none_all {A} (f : A → bool) (l : list A) :
  (∀ x, x ∈ l → f x = false) → find f l = None.
Proof.
  induction l as [|x l IH]; intros Hall; simpl; [done|].
  rewrite (Hall x) by (apply elem_of_cons; by left).
  apply IH. intros y Hy. apply Hall. apply elem_of_cons. by right.
Qed.

Lemma insert_user_cases t username email password_hash :
  (∃ e t', insert_user t username email password_hash = (Err e, t')
           ∧ rows t' = rows t)
  ∨ (insert_user t username email password_hash =
       (Ok (auto_inc t),
        {| rows := rows t ++
                   [{| a_id := auto_inc t; a_username := username;
                       a_email := email; a_password_hash := password_hash;
                       a_is_active := true |}];
           auto_inc := auto_inc t + 1 |})
     ∧ (char_length username ≤ 50)%nat
     ∧ ∀ r, r ∈ rows t →
            ci_eq (a_username r) username = false ∧ ci_eq (a_email r) email = false).
Proof.
  unfold insert_user.
  destruct (bool_decide (50 < char_length username)%nat) eqn:Hu; simpl; [eauto|].
  destruct (bool_decide (255 < char_length email)%nat
            || bool_decide (255 < char_length password_hash)%nat); simpl; [eauto|].
  destruct (existsb _ (rows t)) eqn:Hex; [eauto|].
  right. split_and!; [done| |].
  - apply bool_decide_eq_false in Hu. lia.
  - intros r Hr. apply list_elem_of_In in Hr.
    destruct (ci_eq (a_username r) username || ci_eq (a_email r) email) eqn:Hm.
    + assert (existsb (λ r, ci_eq (a_username r) username || ci_eq (a_email r) email)
                (rows t) = true) as Hex'
        by (apply existsb_exists; eauto).
      congruence.
    + by apply orb_false_iff in Hm.
Qed.

(** X19. [POST /api/register] adds a row only when it answers 201, and then
    one row: under the next key, active, with the username trimmed, the
    email trimmed and in lower case, and the hash of the password as it
    came. It does so only for a username of three code units or more after
    trimming and at most fifty characters, a password of six or more (white
    space counts), and a username and an email that no row has. Every other
    answer is 400, 409 or 500 and leaves the rows as they are. *)
Theorem register_outcome t username email password salt :
  let u := trim (default [] username) in
  let e := toLowerCase (trim (default [] email)) in
  let p := default [] password in
  match register t username email password salt with
  | (Created userId, t') =>
      userId = auto_inc t
      ∧ rows t' = rows t ++
                  [{| a_id := userId; a_username := u; a_email := e;
                      a_password_hash := bcrypt_hash p salt; a_is_active := true |}]
      ∧ (3 ≤ length u)%nat ∧ (char_length u ≤ 50)%nat
      ∧ e ≠ [] ∧ (6 ≤ length p)%nat
      ∧ ∀ r, r ∈ rows t →
             ci_eq (a_username r) u = false ∧ ci_eq (a_email r) e = false
  | (Failed status _, t') =>
      rows t' = rows t ∧ (status = 400 ∨ status = 409 ∨ status = 500)
  | (Granted _ _ _ _, _) => False
  end.
Proof.
  intros u e p. unfold register. fold u e p.
  by_decide (u = []) Hu; [by eauto|].
  by_decide (e = []) He; [by eauto|].
  by_decide (p = []) Hp; [by eauto|].
  by_decide (length u < 3)%nat Hlu; [by eauto|].
  by_decide (length p < 6)%nat Hlp; [by eauto|].
  destruct (insert_user_cases t u e (bcrypt_hash p salt))
    as [(err & t' & -> & Hrows) | (-> & Hfit & Hnew)].
  - destruct err; simpl; eauto.
  - split_and!; try done; lia.
Qed.

(** X20. [POST /api/login] answers with a token only for a row that is
    active, whose email or username equals the login under the collation,
    and whose hash [bcrypt.compare] accepts for the password; the token is
    the one [signToken] makes for the key and the username of that row. *)
Theorem login_grants t l p now token id name mail :
  login t l p now = Granted token id name mail →
  ∃ r l' p',
    l = Some l' ∧ p = Some p' ∧ r ∈ rows t
    ∧ a_id r = id ∧ a_username r = name ∧ a_email r = mail
    ∧ a_is_active r = true
    ∧ bcrypt_compare p' (a_password_hash r) = true
    ∧ ci_eq (a_email r) l' || ci_eq (a_username r) l' = true
    ∧ token = Token.signToken hmac encode
                {| p_userId := id; p_username := name; p_iat := now |}.
Proof.
  unfold login. destruct l as [l'|], p as [p'|]; try done.
  destruct (bool_decide (l' = []) || bool_decide (p' = [])); [done|].
  destruct (select_login t l') as [r|] eqn:Hsel; [|done].
  destruct (a_is_active r) eqn:Hact; simpl; [|done].
  destruct (bcrypt_compare p' (a_password_hash r)) eqn:Hpw; simpl; [|done].
  intros [= <- <- <- <-]. apply find_some_elem in Hsel as [Hin Hm].
  exists r, l', p'. split_and!; done.
Qed.

Section Laws.

Hypothesis ci_eq_refl : ∀ x, ci_eq x x = true.
Hypothesis compare_hash : ∀ p salt, bcrypt_compare p (bcrypt_hash p salt) = true.
Hypothesis hmac_base64url : ∀ x, hmac x ≠ [] ∧ Token.dot ∉ hmac x.
Hypothesis encode_base64url : ∀ p, encode p ≠ [] ∧ Token.dot ∉ encode p.
Hypothesis decode_encode : ∀ p, decode (encode p) = Some p.

(** X21. From registration to the handshake. After a registration answered
    201, a login with the stored username and the password is granted,
    when no earlier row has that text as its email; so is a login with the
    stored email, when no earlier row has it as its username. The token
    verifies to the key of the new row. *)
Theorem register_then_login t username email password salt userId t' l now :
  register t username email password salt = (Created userId, t') →
  let u := trim (default [] username) in
  let e := toLowerCase (trim (default [] email)) in
  (l = u ∧ ∀ r, r ∈ rows t → ci_eq (a_email r) u = false)
  ∨ (l = e ∧ ∀ r, r ∈ rows t → ci_eq (a_username r) e = false) →
  ∃ token,
    login t' (Some l) password now = Granted token userId u e
    ∧ Token.verifyToken hmac decode (Some token) =
        Token.Payload {| p_userId := userId; p_username := u; p_iat := now |}.
Proof.
  intros Hreg u e Hl.
  pose proof (register_outcome t username email password salt) as Hout.
  rewrite Hreg in Hout. simpl in Hout. fold u e in Hout.
  destruct Hout as (-> & Hrows & Hlu & _ & He & Hlp & Hnew).
  set (row := {| a_id := auto_inc t; a_username := u; a_email := e;
                 a_password_hash := bcrypt_hash (default [] password) salt;
                 a_is_active := true |}) in *.
  assert (l ≠ []) as Hlne.
  { destruct Hl as [[-> _]|[-> _]]; [|done]. intros Heq. rewrite Heq in Hlu.
    simpl in Hlu. lia. }
  assert (select_login t' l = Some row) as Hsel.
  { unfold select_login. rewrite Hrows. rewrite find_none_app.
    - simpl. destruct Hl as [[-> _]|[-> _]]; simpl.
      + by rewrite (ci_eq_refl u), orb_true_r.
      + by rewrite (ci_eq_refl e).
    - apply find_none_all. intros r Hr. destruct (Hnew r Hr) as [Hnu Hne].
      destruct Hl as [[-> Hx]|[-> Hx]].
      + by rewrite (Hx r Hr), Hnu.
      + by rewrite Hne, (Hx r Hr). }
  destruct password as [p|]; simpl in *; [|lia].
  assert (p ≠ []) as Hpne by (intros ->; simpl in Hlp; lia).
  eexists. split.
  - unfold login. rewrite (bool_decide_eq_false_2 _ Hlne), (bool_decide_eq_false_2 _ Hpne).
    simpl. rewrite Hsel. simpl. rewrite compare_hash. simpl. reflexivity.
  - rewrite <- (app_nil_r (Token.signToken _ _ _)).
    apply Token.verifyToken_signToken; auto.
Qed.

End Laws.

End Http.

End Http.

(** * A deployment to run the model on *)

(** Usernames compared byte by byte. *)
Definition byte_le (a b : string) : Prop := String.leb a b = true.

#[global] Instance byte_le_dec : RelDecision byte_le :=
  λ a b, decide (String.leb a b = true).

Lemma string_compare_trans a b c :
  String.compare a b ≠ Gt → String.compare b c ≠ Gt → String.compare a c ≠ Gt.
Proof.
  revert b c. induction a as [|x a IH]; intros [|y b] [|z c]; simpl; try done.
  unfold Ascii.compare.
  destruct (N.compare_spec (Ascii.N_of_ascii x) (Ascii.N_of_ascii y)) as [Hxy|Hxy|Hxy],
           (N.compare_spec (Ascii.N_of_ascii y) (Ascii.N_of_ascii z)) as [Hyz|Hyz|Hyz],
           (N.compare_spec (Ascii.N_of_ascii x) (Ascii.N_of_ascii z)) as [Hxz|Hxz|Hxz];
    try done; try lia.
  apply IH.
Qed.

Lemma byte_le_total : Total byte_le.
Proof. intros a b. apply String.leb_total. Qed.

Lemma byte_le_trans : Transitive byte_le.
Proof.
  intros a b c. unfold byte_le, String.leb.
  pose proof (string_compare_trans a b c) as Ht.
  destruct (String.compare a b), (String.compare b c), (String.compare a c);
    try done; intros _ _; exfalso; by apply Ht.
Qed.

(** The tokens of three users; a token whose signature has another length
    than the expected one; a token whose payload has a [userId] that
    [Number] cannot convert; a token whose payload has a [userId] that is no
    number. Every other token is refused. *)
Definition demo_token (token : string) : verified :=
  if decide (token = "alice") then UserId (Num 1)
  else if decide (token = "bob") then UserId (Num 2)
  else if decide (token = "dave") then UserId (Num 4)
  else if decide (token = "cut") then Thrown
  else if decide (token = "odd") then Unreadable
  else if decide (token = "nobody") then UserId NaN
  else NoUserId.

Definition demo : Collaborators :=
  {| verifyToken := demo_token; collate_le := byte_le;
     collate_dec := byte_le_dec; collate_total := byte_le_total;
     collate_trans := byte_le_trans |}.

(** Four users, carol inactive; dave has blocked alice. *)
Definition demo_db : DB :=
  {| users :=
       [ {| u_id := 1; u_username := "alice"; u_email := "alice@upv.es"; u_is_active := true |};
         {| u_id := 4; u_username := "dave"; u_email := "dave@upv.es"; u_is_active := true |};
         {| u_id := 3; u_username := "carol"; u_email := "carol@upv.es"; u_is_active := false |};
         {| u_id := 2; u_username := "bob"; u_email := "bob@upv.es"; u_is_active := true |} ];
     conversations := []; conv_auto_inc := 1;
     conversation_members := ∅;
     messages := []; msg_auto_inc := 1;
     message_receipts := ∅;
     user_blocks := {[ (4, 1) ]} |}.

Definition at_time (t : Z) : clock := {| db_now := t; js_now := 1000 * t + 7 |}.

(** alice connects on socket 7 and completes the handshake. *)
Definition s_alice : server :=
  @run demo (boot demo_db)
    [Connection 7; Message 7 (Json (hello "alice")) (at_time 10)].

(** She sends a message to bob, who is offline. *)
Definition s_first : server :=
  @run demo s_alice
    [Message 7 (Json (msg_send (Num 2) (js " hi "))) (at_time 20)].

(** She sends two messages to bob, who is offline. *)
Definition s_sent : server :=
  @run demo s_alice
    [Message 7 (Json (msg_send (Num 2) (js " hi "))) (at_time 20);
     Message 7 (Json (msg_send (Num 2) (js "yo"))) (at_time 30)].

(** Socket 8 is accepted and has not said [hello] yet. *)
Definition s_pending : server := @run demo s_sent [Connection 8].

(** bob completes the handshake on socket 8. *)
Definition s_bob : server :=
  @run demo s_pending [Message 8 (Json (hello "bob")) (at_time 40)].

(** dave, who is in no conversation, connects on socket 9. *)
Definition s_dave : server :=
  @run demo s_bob [Connection 9; Message 9 (Json (hello "dave")) (at_time 50)].

Definition first_message : msg_row :=
  {| m_id := 1; m_conversation_id := 1; m_sender_user_id := 1;
     m_body := js "hi"; m_msg_type := text; m_created_at := 20 |}.

Lemma demo_db_ok : schema_ok demo_db.
Proof.
  split; simpl.
  - lia.
  - by intros c ?%not_elem_of_nil.
  - by intros m ?%not_elem_of_nil.
  - by intros c u.
  - by intros m u.
Qed.

Lemma reachable_run `{Collaborators} s es : reachable s → reachable (run s es).
Proof.
  revert s. induction es as [|e es IH]; intros s Hs; simpl; [done|].
  apply IH. by apply reach_step.
Qed.

Lemma s_alice_reachable : @reachable demo s_alice.
Proof. apply reachable_run, reach_boot, demo_db_ok. Qed.

Lemma s_first_reachable : @reachable demo s_first.
Proof. apply reachable_run, s_alice_reachable. Qed.

Lemma s_sent_reachable : @reachable demo s_sent.
Proof. apply reachable_run, s_alice_reachable. Qed.

Lemma s_pending_reachable : @reachable demo s_pending.
Proof. apply reachable_run, s_sent_reachable. Qed.

Lemma s_bob_reachable : @reachable demo s_bob.
Proof. apply reachable_run, s_pending_reachable. Qed.

Lemma s_dave_reachable : @reachable demo s_dave.
Proof. apply reachable_run, s_bob_reachable. Qed.

(** bob's handshake: [hello_ok] and the roster are sent, then the replay
    throws on the first of the two messages that wait for him. *)
Example bob_handshake_trace :
  let o := @step demo s_pending (Message 8 (Json (hello "bob")) (at_time 40)) in
  out o =
    [ Send 8 (hello_ok 2 "bob");
      Send 7 (users_list
                [ {| e_id := 1; e_username := "alice"; e_email := "alice@upv.es"; e_online := true |};
                  {| e_id := 2; e_username := "bob"; e_email := "bob@upv.es"; e_online := true |};
                  {| e_id := 4; e_username := "dave"; e_email := "dave@upv.es"; e_online := false |} ]);
      Send 8 (users_list
                [ {| e_id := 1; e_username := "alice"; e_email := "alice@upv.es"; e_online := true |};
                  {| e_id := 2; e_username := "bob"; e_email := "bob@upv.es"; e_online := true |};
                  {| e_id := 4; e_username := "dave"; e_email := "dave@upv.es"; e_online := false |} ]) ]
  ∧ how o = Rejected TypeError
  ∧ m_id <$> select_pending (db s_pending) 2 = [1; 2].
Proof. vm_compute. by split_and!. Qed.

(** alice's two messages to bob. The first creates the conversation and is
    acknowledged; the second finds it, and the handler throws on the id once
    the row is stored. *)
Example two_sends_trace :
  let o1 := @step demo s_alice
              (Message 7 (Json (msg_send (Num 2) (js " hi "))) (at_time 20)) in
  let o2 := @step demo (st o1)
              (Message 7 (Json (msg_send (Num 2) (js "yo"))) (at_time 30)) in
  out o1 = [Send 7 (msg_sent 1 1)] ∧ how o1 = Returned
  ∧ out o2 = [] ∧ how o2 = Rejected TypeError
  ∧ m_body <$> messages (db (st o2)) = [js "hi"; js "yo"].
Proof. vm_compute. by split_and!. Qed.

#[local] Existing Instance demo.

(** ** Two first sends at once *)

(** C1, the interleaving the code allows. alice sends her first message to
    bob while bob sends his first to alice: both calls of [getOrCreateDM]
    run their SELECT before either runs its transaction. Each call finds no
    conversation and creates one; the calls answer different ids and the
    pair ends with two [dm] conversations. *)
Theorem getOrCreateDM_race :
  schema_ok demo_db
  ∧ dm_rows demo_db 1 2 = []
  ∧ let '(c1, c2, d) :=
      dm_run [First; Second; First; Second] (AtSelect 1 2) (AtSelect 2 1)
             demo_db 100 in
    c1 = Resolved (Ok 1)
    ∧ c2 = Resolved (Ok 2)
    ∧ c_id <$> dm_rows d 1 2 = [1; 2]
    ∧ c_id <$> dm_rows d 2 1 = [1; 2].
Proof.
  split; [apply demo_db_ok|].
  split; [reflexivity|].
  vm_compute. by split_and!.
Qed.

(** The same two calls, one after the other, share one conversation. *)
Example getOrCreateDM_in_turn :
  let '(c1, c2, d) :=
    dm_run [First; First; Second; Second] (AtSelect 1 2) (AtSelect 2 1)
           demo_db 100 in
  c1 = Resolved (Ok 1) ∧ c2 = Resolved (Ok 1) ∧ c_id <$> dm_rows d 1 2 = [1].
Proof. vm_compute. by split_and!. Qed.

(** ** The theorems on the deployment *)

Definition alice_session : session := {| s_userId := 1; s_username := "alice" |}.
Definition bob_session : session := {| s_userId := 2; s_username := "bob" |}.
Definition dave_session : session := {| s_userId := 4; s_username := "dave" |}.

Definition bob_row : user_row :=
  {| u_id := 2; u_username := "bob"; u_email := "bob@upv.es"; u_is_active := true |}.

Lemma registry_online_iff_nonempty_witness :
  reachable s_dave
  ∧ (∀ userId, isUserOnline s_dave userId = true ↔ connectionsOf s_dave userId ≠ [])
  ∧ (∀ userId set, connectionsByUser s_dave !! userId = Some set → set ≠ [])
  ∧ (∀ ws sess, sessionBySocket s_dave !! ws = Some sess →
       let s' := st (step s_dave (Closed ws)) in
       connectionsOf s' (s_userId sess) = set_remove ws (connectionsOf s_dave (s_userId sess))
       ∧ (ws ∉ connectionsOf s' (s_userId sess))
       ∧ (∀ v, v ≠ s_userId sess → connectionsOf s' v = connectionsOf s_dave v)
       ∧ (set_remove ws (connectionsOf s_dave (s_userId sess)) = [] →
            isUserOnline s' (s_userId sess) = false
            ∧ connectionsByUser s' !! s_userId sess = None)).
Proof.
  split; [apply s_dave_reachable|].
  apply (registry_online_iff_nonempty s_dave), s_dave_reachable.
Defined.

Lemma delivery_ack_idempotent_witness :
  let o1 := step s_bob (Message 8 (Json (msg_delivered_ack (Num 1))) (at_time 60)) in
  let s2 := run (st o1) [Message 7 (Json (msg_send (Num 2) (js "again"))) (at_time 70)] in
  let o2 := step s2 (Message 8 (Json (msg_delivered_ack (Num 1))) (at_time 80)) in
  ∃ t,
    how o1 = Returned
    ∧ delivered_at (db (st o1)) 1 2 = Some t
    ∧ delivered_at (db s2) 1 2 = Some t
    ∧ how o2 = Returned
    ∧ (∀ c e, Send c (error e) ∉ out o2)
    ∧ delivered_at (db (st o2)) 1 2 = Some t
    ∧ (∀ es', delivered_at (db (run (st o2) es')) 1 2 = Some t).
Proof.
  apply (delivery_ack_idempotent s_bob 8 bob_session first_message (at_time 60)
           [Message 7 (Json (msg_send (Num 2) (js "again"))) (at_time 70)]
           8 bob_session (at_time 80)).
  - apply s_bob_reachable.
  - vm_compute. reflexivity.
  - vm_compute. apply list_elem_of_here.
  - vm_compute. reflexivity.
  - reflexivity.
Defined.

Lemma delivery_ack_unchecked_witness :
  is_member (db s_dave) 1 4 = false
  ∧ let o := step s_dave (Message 9 (Json (msg_delivered_ack (Num 1))) (at_time 60)) in
    how o = Returned
    ∧ delivered_at (db (st o)) 1 4
      = Some (default 60 (delivered_at (db s_dave) 1 4))
    ∧ out o = sendToUser (st o) 1 (msg_delivered 1 4)
    ∧ connectionsByUser (st o) = connectionsByUser s_dave
    ∧ (∀ a, a ∈ out o ↔
         ∃ c, a = Send c (msg_delivered 1 4)
              ∧ c ∈ connectionsOf s_dave 1 ∧ is_open s_dave c = true).
Proof.
  split; [vm_compute; reflexivity|].
  apply (delivery_ack_unchecked s_dave 9 dave_session 1 first_message (at_time 60)).
  - apply s_dave_reachable.
  - vm_compute. reflexivity.
  - vm_compute. reflexivity.
Defined.

(** dave's ACK of a message between alice and bob reaches alice. *)
Example stranger_ack_trace :
  out (step s_dave (Message 9 (Json (msg_delivered_ack (Num 1))) (at_time 60)))
  = [Send 7 (msg_delivered 1 4)].
Proof. vm_compute. reflexivity. Qed.

Lemma handshake_replay_throws_witness :
  let e := Message 8 (Json (hello "bob")) (at_time 40) in
  let o := step s_pending e in
  let backlog := select_pending (db s_pending) 2 in
  handshake s_pending 2 e
  ∧ m_id <$> backlog = [1; 2]
  ∧ ∃ ws u,
      select_user (db s_pending) 2 = Some u
      ∧ is_backlog (db s_pending) 2 backlog
      ∧ (∀ m, m ∈ backlog → stringify (msg_new_of m) = None)
      ∧ ws ∈ connectionsOf (st o) 2
      ∧ out o = (if is_open s_pending ws then [Send ws (hello_ok 2 (u_username u))]
                 else [])
                ++ ((λ c, Send c (users_list (roster (st o))))
                      <$> filter (λ c, is_open s_pending c = true) (clients s_pending))
      ∧ (∀ c msgId conversationId fromUserId body createdAt,
           Send c (msg_new msgId conversationId fromUserId body createdAt) ∉ out o)
      ∧ how o = (if bool_decide (backlog = []) then Returned else Rejected TypeError).
Proof.
  intros e o backlog.
  assert (handshake s_pending 2 e) as Hh.
  { apply (handshake_hello _ _ _ _ _ (Num 2) bob_row); reflexivity. }
  split; [exact Hh|].
  split; [vm_compute; reflexivity|].
  apply (handshake_replay_throws s_pending 2 e Hh).
Defined.

Lemma presence_broadcast_witness :
  sessionBySocket s_bob !! 7%nat = Some alice_session
  ∧ broadcast_after s_bob (Closed 7).
Proof.
  assert (sessionBySocket s_bob !! 7%nat = Some alice_session) as Hs
    by (vm_compute; reflexivity).
  split; [exact Hs|].
  apply (presence_broadcast s_bob (Closed 7)).
  right. exists 7%nat, alice_session. split; [reflexivity|exact Hs].
Defined.


Lemma msg_send_bad_request_witness :
  (let o := step s_alice (Message 7 (Json (msg_send (Num 2) (js "  "))) (at_time 20)) in
   st o = s_alice ∧ out o = [Send 7 (error bad_request)] ∧ how o = Returned)
  ∧ (let o := step s_alice (Message 7 (Json (msg_send (Num 0) (js "hi"))) (at_time 20)) in
     st o = s_alice ∧ out o = [Send 7 (error bad_request)] ∧ how o = Returned)
  ∧ (let o := step s_alice (Message 7 (Json (msg_send (Frac 47 5) (js "hi"))) (at_time 20)) in
     names_user (db s_alice) (Frac 47 5) = false
     ∧ messages (db (st o)) = messages (db s_alice))
  ∧ (let o := step s_alice (Message 7 (Json msg_send_unreadable) (at_time 20)) in
     st o = s_alice ∧ out o = [] ∧ how o = Rejected TypeError).
Proof.
  assert (sessionBySocket s_alice !! 7%nat = Some alice_session) as Hs
    by (vm_compute; reflexivity).
  split_and!.
  - apply (msg_send_bad_request s_alice 7 alice_session (Num 2) (js "  ") (at_time 20)
             s_alice_reachable Hs).
    right. vm_compute. reflexivity.
  - apply (msg_send_bad_request s_alice 7 alice_session (Num 0) (js "hi") (at_time 20)
             s_alice_reachable Hs).
    left. reflexivity.
  - intros o. assert (names_user (db s_alice) (Frac 47 5) = false) as Hn
      by (vm_compute; reflexivity).
    split; [exact Hn|].
    apply (msg_send_bad_request s_alice 7 alice_session (Frac 47 5) (js "hi") (at_time 20)
             s_alice_reachable Hs).
    exact Hn.
  - apply (msg_send_bad_request s_alice 7 alice_session (Num 2) (js "hi") (at_time 20)
             s_alice_reachable Hs).
Defined.

Example empty_body_trace :
  trim (js "  ") = []
  ∧ out (step s_alice (Message 7 (Json (msg_send (Num 2) (js "  "))) (at_time 20)))
    = [Send 7 (error bad_request)].
Proof. vm_compute. by split. Qed.


Lemma msg_delivered_unknown_message_witness :
  (let o := step s_alice (Message 7 (Json (msg_delivered_ack NaN)) (at_time 20)) in
   st o = s_alice ∧ out o = [Send 7 (error bad_request)] ∧ how o = Returned)
  ∧ (let o := step s_alice (Message 7 (Json (msg_delivered_ack (Num 9))) (at_time 20)) in
     stores_message (db s_alice) (Num 9) = false
     ∧ st o = s_alice ∧ out o = [] ∧ ∃ e, how o = Rejected (SqlError e))
  ∧ (let o := step s_alice (Message 7 (Json msg_delivered_unreadable) (at_time 20)) in
     st o = s_alice ∧ out o = [] ∧ how o = Rejected TypeError).
Proof.
  assert (sessionBySocket s_alice !! 7%nat = Some alice_session) as Hs
    by (vm_compute; reflexivity).
  split_and!.
  - apply (msg_delivered_unknown_message s_alice 7 alice_session NaN (at_time 20)
             s_alice_reachable Hs).
    reflexivity.
  - intros o. assert (stores_message (db s_alice) (Num 9) = false) as Hn
      by (vm_compute; reflexivity).
    split; [exact Hn|].
    destruct (msg_delivered_unknown_message s_alice 7 alice_session (Num 9) (at_time 20)
                s_alice_reachable Hs) as (_ & Hun & _).
    destruct (Hun Hn) as [Hst Hout]. split; [exact Hst|]. by apply Hout.
  - apply (msg_delivered_unknown_message s_alice 7 alice_session NaN (at_time 20)
             s_alice_reachable Hs).
Defined.

(** ** Where the code parts from the specification *)


Example unauthenticated_stays_open_trace :
  let o := step s_pending (Message 8 (Json (msg_send (Num 1) (js "x"))) (at_time 40)) in
  out o = [Send 8 (error unauthorized)] ∧ readyState (st o) !! 8%nat = Some OPEN.
Proof. vm_compute. by split. Qed.

(** C3. alice sends "hi" to carol, whose account is inactive: the message is
    stored and acknowledged. *)
Lemma inactive_recipient_accepted : ¬ rejects_unknown_recipient.
Proof.
  intros Hc.
  destruct (Hc s_alice 7%nat alice_session (Num 3) (js "hi") (at_time 20))
    as [Hout _].
  - apply s_alice_reachable.
  - vm_compute. reflexivity.
  - left. vm_compute. reflexivity.
  - vm_compute in Hout. discriminate.
Qed.

Example inactive_recipient_trace :
  let o := step s_alice (Message 7 (Json (msg_send (Num 3) (js "hi"))) (at_time 20)) in
  out o = [Send 7 (msg_sent 1 1)]
  ∧ messages (db (st o)) =
      [ {| m_id := 1; m_conversation_id := 1; m_sender_user_id := 1;
           m_body := js "hi"; m_msg_type := text; m_created_at := 20 |} ].
Proof. vm_compute. by split. Qed.

(** A recipient that is no user at all: the member row is refused by
    [fk_members_user], the handler ends with that error, and alice gets no
    answer. *)
Example unknown_recipient_trace :
  let o := step s_alice (Message 7 (Json (msg_send (Num 9) (js "hi"))) (at_time 20)) in
  out o = [] ∧ how o = Rejected (SqlError ER_NO_REFERENCED_ROW)
  ∧ messages (db (st o)) = [] ∧ conversations (db (st o)) = [].
Proof. vm_compute. by split_and!. Qed.

(** C4. alice acknowledges message 9, which does not exist: she gets no
    answer. *)
Lemma unknown_message_unanswered : ¬ rejects_unknown_message.
Proof.
  intros Hc.
  destruct (Hc s_alice 7%nat alice_session (Num 9) (at_time 20)) as [Hout _].
  - apply s_alice_reachable.
  - vm_compute. reflexivity.
  - vm_compute. reflexivity.
  - vm_compute in Hout. discriminate.
Qed.

(** The upsert for message 9 is refused by [fk_receipts_message]; nothing
    catches the error. *)
Example unknown_message_trace :
  let o := step s_alice (Message 7 (Json (msg_delivered_ack (Num 9))) (at_time 20)) in
  out o = [] ∧ how o = Rejected (SqlError ER_NO_REFERENCED_ROW).
Proof. vm_compute. by split. Qed.

(** A [toUserId] of 2.4 passes the guard and finds no block and no
    conversation; the member row is stored for user 2, and so is the
    message. *)
Example fraction_recipient_trace :
  let o := step s_alice (Message 7 (Json (msg_send (Frac 12 5) (js "hi"))) (at_time 20)) in
  resolves_active (db s_alice) (Frac 12 5) = false
  ∧ out o = [Send 7 (msg_sent 1 1)] ∧ how o = Returned
  ∧ m_body <$> messages (db (st o)) = [js "hi"]
  ∧ is_member (db (st o)) 1 2 = true.
Proof. vm_compute. by split_and!. Qed.

(** A [msgId] of 1.5 passes the guard; the receipt is stored for message
    2. *)
Example fraction_ack_trace :
  let o := step s_bob (Message 8 (Json (msg_delivered_ack (Frac 3 2))) (at_time 60)) in
  names_message (db s_bob) (Frac 3 2) = false
  ∧ delivered_at (db s_bob) 2 2 = None
  ∧ delivered_at (db (st o)) 2 2 = Some 60
  ∧ out o = [] ∧ how o = Returned.
Proof. vm_compute. by split_and!. Qed.

(** dave has blocked alice; a body of three spaces from alice to him fails
    the validation, which comes first. *)
Example blank_body_to_blocker_trace :
  select_blocked (db s_alice) 4 1 = true
  ∧ out (step s_alice (Message 7 (Json (msg_send (Num 4) (js "   "))) (at_time 20)))
    = [Send 7 (error bad_request)].
Proof. vm_compute. by split. Qed.

(** Socket 8 closes before it has said [hello]: it was in no connection
    set, the registry stays as it is and nothing is sent. *)
Example close_before_hello_trace :
  let o := step s_pending (Closed 8) in
  out o = [] ∧ connectionsByUser (st o) = connectionsByUser s_pending.
Proof. vm_compute. by split. Qed.

(** ** The further properties on the deployment *)

Definition dave_row : user_row :=
  {| u_id := 4; u_username := "dave"; u_email := "dave@upv.es"; u_is_active := true |}.

(** bob acknowledges the first message. *)
Definition s_acked : server :=
  run s_bob [Message 8 (Json (msg_delivered_ack (Num 1))) (at_time 60)].

(** The first message of alice to bob, and the second. *)
Lemma msg_send_first_and_later_witness :
  (let o := step s_alice (Message 7 (Json (msg_send (Num 2) (js " hi "))) (at_time 20)) in
   ∃ conversationId c,
     let row := {| m_id := msg_auto_inc (db s_alice);
                   m_conversation_id := conversationId;
                   m_sender_user_id := 1; m_body := db_text (trim (js " hi "));
                   m_msg_type := text; m_created_at := 20 |} in
     messages (db (st o)) = messages (db s_alice) ++ [row]
     ∧ c ∈ conversations (db (st o)) ∧ c_id c = conversationId ∧ c_type c = dm
     ∧ is_member (db (st o)) conversationId 1 = true
     ∧ is_member (db (st o)) conversationId 2 = true
     ∧ pending (db (st o)) 2 row = true
     ∧ pending (db (st o)) 1 row = true
     ∧ if some (select_dm (db s_alice) (min_max 1 2).1 (min_max 1 2).2)
       then out o = []
            ∧ how o = (if some (connectionsByUser s_alice !! 2) || is_open s_alice 7
                       then Rejected TypeError else Returned)
       else conversationId = conv_auto_inc (db s_alice)
            ∧ how o = Returned
            ∧ out o =
                ((λ c, Send c (msg_new (msg_auto_inc (db s_alice)) conversationId
                                       1 (trim (js " hi ")) (js_now (at_time 20))))
                   <$> filter (λ c, is_open s_alice c = true) (connectionsOf s_alice 2))
                ++ (if is_open s_alice 7
                    then [Send 7 (msg_sent (msg_auto_inc (db s_alice)) conversationId)]
                    else []))
  ∧ (let o := step s_first (Message 7 (Json (msg_send (Num 2) (js "yo"))) (at_time 30)) in
     select_dm (db s_first) 1 2 = Some 1
     ∧ m_id <$> messages (db (st o)) = [1; 2]
     ∧ out o = []
     ∧ how o = Rejected TypeError).
Proof.
  split.
  - apply (msg_send_first_and_later s_alice 7 alice_session (Num 2) 2 (js " hi ")
             (at_time 20)).
    + apply s_alice_reachable.
    + vm_compute. reflexivity.
    + reflexivity.
    + lia.
    + simpl. lia.
    + vm_compute. reflexivity.
    + vm_compute. reflexivity.
    + vm_compute. discriminate.
    + vm_compute. discriminate.
  - intros o.
    destruct (msg_send_first_and_later s_first 7 alice_session (Num 2) 2 (js "yo")
                (at_time 30))
      as (cid & c & Hmsgs & _ & _ & _ & _ & _ & _ & _ & Hpush).
    + apply s_first_reachable.
    + vm_compute. reflexivity.
    + reflexivity.
    + lia.
    + simpl. lia.
    + vm_compute. reflexivity.
    + vm_compute. reflexivity.
    + vm_compute. discriminate.
    + vm_compute. discriminate.
    + change (some (select_dm (db s_first) (min_max (s_userId alice_session) 2).1
                              (min_max (s_userId alice_session) 2).2))
        with true in Hpush.
      destruct Hpush as [Hout Hhow].
      split_and!.
      * vm_compute. reflexivity.
      * fold o in Hmsgs. rewrite Hmsgs. vm_compute. reflexivity.
      * exact Hout.
      * fold o in Hhow. rewrite Hhow. vm_compute. reflexivity.
Defined.

(** A lone surrogate in a body is stored as a question mark, a pair as it
    is. *)
Example surrogate_body_trace :
  let body := [104; 55357; 105; 55357; 56832]%N in
  let o := step s_alice (Message 7 (Json (msg_send (Num 2) body)) (at_time 20)) in
  m_body <$> messages (db (st o)) = [[104; 63; 105; 55357; 56832]%N]
  ∧ utf8_length body = 7.
Proof. vm_compute. by split. Qed.

Lemma stored_bodies_trimmed_witness :
  Forall stored_by_server (messages (db s_alice))
  ∧ Forall stored_by_server
      (messages (db (st (step s_alice
                           (Message 7 (Json (msg_send (Num 2) (js " hi "))) (at_time 20)))))).
Proof.
  assert (Forall stored_by_server (messages (db s_alice))) as Hall
    by (vm_compute; constructor).
  split; [exact Hall|].
  apply (stored_bodies_trimmed s_alice
           (Message 7 (Json (msg_send (Num 2) (js " hi "))) (at_time 20)) Hall).
Defined.

Lemma message_ids_ascend_witness :
  m_id <$> messages (db s_sent) = [1; 2]
  ∧ ascending
      (m_id <$> messages
         (db (st (step s_sent
                    (Message 7 (Json (msg_send (Num 2) (js "more"))) (at_time 35)))))).
Proof.
  split; [vm_compute; reflexivity|].
  apply (message_ids_ascend s_sent
           (Message 7 (Json (msg_send (Num 2) (js "more"))) (at_time 35))).
  - apply (reachable_invariant s_sent s_sent_reachable).
  - vm_compute. repeat constructor.
Defined.

Lemma acked_never_replayed_witness :
  let es := [Closed 8; Connection 8; Message 8 (Json (hello "bob")) (at_time 70)] in
  delivered_at (db s_acked) 1 2 = Some 60
  ∧ (∀ m, m ∈ select_pending (db (run s_acked es)) 2 → m_id m ≠ 1)
  ∧ (∀ c conversationId fromUserId body createdAt,
       Send c (msg_new 1 conversationId fromUserId body createdAt)
       ∉ sends (deliverPendingToUser (run s_acked es) 2)).
Proof.
  intros es.
  assert (delivered_at (db s_acked) 1 2 = Some 60) as Hd by (vm_compute; reflexivity).
  split; [exact Hd|].
  apply (acked_never_replayed s_acked 2 1 60 es Hd).
Defined.

Lemma pending_until_ack_witness :
  let e := Message 8 (Json (hello "bob")) (at_time 40) in
  let s' := st (step s_pending e) in
  first_message ∈ messages (db s')
  ∧ (pending (db s') 2 first_message = true
     ∨ ∃ ws sess clk msgId,
         e = Message ws (Json (msg_delivered_ack msgId)) clk
         ∧ sessionBySocket s_pending !! ws = Some sess
         ∧ s_userId sess = 2
         ∧ sql_round msgId = Some (m_id first_message)).
Proof.
  apply (pending_until_ack s_pending (Message 8 (Json (hello "bob")) (at_time 40))
           2 first_message).
  - vm_compute. apply list_elem_of_here.
  - vm_compute. reflexivity.
Defined.

(** The event that ends it need not name the key: bob acknowledges 0.6 and
    the first message leaves his queue. *)
Example rounded_ack_trace :
  let o := step s_bob (Message 8 (Json (msg_delivered_ack (Frac 3 5))) (at_time 60)) in
  pending (db s_bob) 2 first_message = true
  ∧ pending (db (st o)) 2 first_message = false
  ∧ sql_round (Frac 3 5) = Some 1.
Proof. vm_compute. by split_and!. Qed.

Lemma backlog_leaves_out_only_overflow_witness :
  first_message ∈ select_pending (db s_sent) 2
  ∨ (length (select_pending (db s_sent) 2) = page_size
     ∧ ∀ a, a ∈ select_pending (db s_sent) 2 → created_le a first_message).
Proof.
  apply (backlog_leaves_out_only_overflow (db s_sent) 2 first_message).
  - vm_compute. apply list_elem_of_here.
  - vm_compute. reflexivity.
Defined.

(** alice writes to herself once she has a conversation with bob: the
    message lands in that conversation, in the queue of bob as well, and
    the handler throws on the id of the conversation. *)
Lemma self_send_joins_own_dm_witness :
  (let o := step s_sent (Message 7 (Json (msg_send (Num 1) (js "memo"))) (at_time 35)) in
   match select_dm (db s_sent) 1 1 with
   | Some conversationId =>
       let row := {| m_id := msg_auto_inc (db s_sent);
                     m_conversation_id := conversationId;
                     m_sender_user_id := 1; m_body := db_text (trim (js "memo"));
                     m_msg_type := text; m_created_at := 35 |} in
       (∃ c, c ∈ conversations (db s_sent) ∧ c_id c = conversationId ∧ c_type c = dm)
       ∧ is_member (db s_sent) conversationId 1 = true
       ∧ messages (db (st o)) = messages (db s_sent) ++ [row]
       ∧ conversations (db (st o)) = conversations (db s_sent)
       ∧ (∀ peer, is_member (db s_sent) conversationId peer = true →
                  pending (db (st o)) peer row = true)
       ∧ out o = []
       ∧ how o = (if some (connectionsByUser s_sent !! 1) || is_open s_sent 7
                  then Rejected TypeError else Returned)
   | None =>
       how o = Rejected (SqlError ER_DUP_ENTRY)
       ∧ messages (db (st o)) = messages (db s_sent)
       ∧ out o = []
   end)
  ∧ select_dm (db s_sent) 1 1 = Some 1
  ∧ select_dm (db s_alice) 1 1 = None
  ∧ (let o := step s_alice (Message 7 (Json (msg_send (Num 1) (js "memo"))) (at_time 35)) in
     how o = Rejected (SqlError ER_DUP_ENTRY)
     ∧ messages (db (st o)) = messages (db s_alice)
     ∧ out o = []).
Proof.
  split_and!.
  - apply (self_send_joins_own_dm s_sent 7 alice_session (Num 1) (js "memo") (at_time 35)).
    + apply s_sent_reachable.
    + vm_compute. reflexivity.
    + reflexivity.
    + simpl. lia.
    + vm_compute. reflexivity.
    + vm_compute. discriminate.
    + vm_compute. discriminate.
  - vm_compute. reflexivity.
  - vm_compute. reflexivity.
  - refine (self_send_joins_own_dm s_alice 7 alice_session (Num 1) (js "memo")
              (at_time 35) s_alice_reachable _ _ _ _ _ _).
    + vm_compute. reflexivity.
    + reflexivity.
    + simpl. lia.
    + vm_compute. reflexivity.
    + vm_compute. discriminate.
    + vm_compute. discriminate.
Defined.

Example self_send_trace :
  let o := step s_sent (Message 7 (Json (msg_send (Num 1) (js "memo"))) (at_time 35)) in
  select_dm (db s_sent) 1 1 = Some 1
  ∧ out o = [] ∧ how o = Rejected TypeError
  ∧ (m_id <$> select_pending (db (st o)) 2) = [1; 2; 3].
Proof. vm_compute. by split_and!. Qed.

(** Before she has one, the same message is refused by the key of the
    member rows. *)
Example self_send_alone_trace :
  let o := step s_alice (Message 7 (Json (msg_send (Num 1) (js "memo"))) (at_time 35)) in
  out o = [] ∧ how o = Rejected (SqlError ER_DUP_ENTRY) ∧ messages (db (st o)) = [].
Proof. vm_compute. by split_and!. Qed.

Lemma sends_only_to_open_witness :
  let e := Message 8 (Json (hello "bob")) (at_time 40) in
  Send 8 (hello_ok 2 "bob") ∈ out (step s_pending e)
  ∧ is_open s_pending 8 = true
  ∧ ∀ ws, e = Closed ws → 8%nat ≠ ws.
Proof.
  intros e.
  assert (Send 8 (hello_ok 2 "bob") ∈ out (step s_pending e)) as Hin
    by (vm_compute; apply list_elem_of_here).
  split; [exact Hin|].
  apply (sends_only_to_open s_pending e 8%nat (hello_ok 2 "bob") Hin).
Defined.

Lemma closes_only_failed_hello_witness :
  let e := Message 8 (Json (hello "mallory")) (at_time 40) in
  Close 8 1008 "unauthorized" ∈ out (step s_pending e)
  ∧ 1008 = 1008
  ∧ ∃ token clk,
      e = Message 8 (Json (hello token)) clk
      ∧ ¬ ∃ userId, handshake s_pending userId e.
Proof.
  intros e.
  assert (Close 8 1008 "unauthorized" ∈ out (step s_pending e)) as Hin
    by (vm_compute; apply list_elem_of_further, list_elem_of_here).
  split; [exact Hin|].
  apply (closes_only_failed_hello s_pending e 8%nat 1008 "unauthorized" Hin).
Defined.

Lemma handshake_refused_witness :
  (let o := step s_pending (Message 8 (Json (hello "cut")) (at_time 40)) in
   st o = s_pending ∧ out o = [] ∧ how o = Rejected RangeError)
  ∧ (let o := step s_pending (Message 8 (Json (hello "odd")) (at_time 40)) in
     st o = s_pending ∧ out o = [] ∧ how o = Rejected TypeError)
  ∧ (let o := step s_pending (Message 8 (Json (hello "nobody")) (at_time 40)) in
     st o = s_pending ∧ out o = []
     ∧ how o = Rejected (SqlError ER_BAD_FIELD_ERROR))
  ∧ (let o := step s_pending (Message 8 (Json (hello "mallory")) (at_time 40)) in
     out o = [Send 8 (error unauthorized); Close 8 1008 "unauthorized"]
     ∧ how o = Returned
     ∧ sessionBySocket (st o) = sessionBySocket s_pending
     ∧ connectionsByUser (st o) = connectionsByUser s_pending
     ∧ db (st o) = db s_pending
     ∧ (is_open s_pending 8 = true → readyState (st o) !! 8%nat = Some CLOSING)).
Proof.
  split_and!.
  - destruct (handshake_refused s_pending 8%nat "cut" (at_time 40)) as (Hcut & _).
    by apply Hcut.
  - destruct (handshake_refused s_pending 8%nat "odd" (at_time 40)) as (_ & Hodd & _).
    by apply Hodd.
  - destruct (handshake_refused s_pending 8%nat "nobody" (at_time 40))
      as (_ & _ & Hnan & _).
    by apply (Hnan NaN).
  - destruct (handshake_refused s_pending 8%nat "mallory" (at_time 40))
      as (_ & _ & _ & Hno).
    apply Hno.
    + discriminate.
    + discriminate.
    + intros n Hn. discriminate Hn.
    + intros [userId Hh]. inversion Hh as [ws token clk n u Htok]. discriminate Htok.
Defined.

(** Socket 8 says [hello] as bob, then as dave, and closes: bob stays
    online on a socket that is closed. *)
Lemma rehello_leaves_ghost_witness :
  let s' := run s_pending [Message 8 (Json (hello "bob")) (at_time 40);
                           Message 8 (Json (hello "dave")) (at_time 50);
                           Closed 8] in
  isUserOnline s' 2 = true
  ∧ 8%nat ∈ connectionsOf s' 2
  ∧ is_open s' 8 = false
  ∧ 8%nat ∉ connectionsOf s' 4.
Proof.
  apply (rehello_leaves_ghost s_pending 8%nat "bob" "dave" (at_time 40) (at_time 50) 2 4).
  - lia.
  - apply (handshake_hello _ _ _ _ _ (Num 2) bob_row); reflexivity.
  - apply (handshake_hello _ _ _ _ _ (Num 4) dave_row); reflexivity.
Defined.

Example ghost_roster_trace :
  let s' := run s_pending [Message 8 (Json (hello "bob")) (at_time 40);
                           Message 8 (Json (hello "dave")) (at_time 50);
                           Closed 8] in
  e_online <$> roster s' = [true; true; false]
  ∧ connectionsByUser s' !! 2 = Some [8%nat]
  ∧ connectionsByUser s' !! 4 = None.
Proof. vm_compute. by split_and!. Qed.

Lemma getOrCreateDM_sequential_witness :
  let d' := (getOrCreateDM demo_db 1 2 100).2 in
  getOrCreateDM demo_db 1 2 100 = (Ok 1, d')
  ∧ getOrCreateDM d' 1 2 200 = (Ok 1, d')
  ∧ getOrCreateDM d' 2 1 200 = (Ok 1, d').
Proof.
  intros d'.
  assert (getOrCreateDM demo_db 1 2 100 = (Ok 1, d')) as Hfirst
    by (vm_compute; reflexivity).
  split; [exact Hfirst|].
  apply (getOrCreateDM_sequential demo_db 1 2 100 1 d' 200 demo_db_ok Hfirst).
Defined.

Lemma getOrCreateDM_overlap_witness :
  ∃ d',
    dm_run [First; Second; First; Second] (AtSelect 1 2) (AtSelect 2 1) demo_db 100
    = (Resolved (Ok (conv_auto_inc demo_db)),
       Resolved (Ok (conv_auto_inc demo_db + 1)), d')
    ∧ select_conversation d' (conv_auto_inc demo_db)
      = Some (dm_row (conv_auto_inc demo_db) 1 100)
    ∧ select_conversation d' (conv_auto_inc demo_db + 1)
      = Some (dm_row (conv_auto_inc demo_db + 1) 2 100)
    ∧ (∀ c u, c = conv_auto_inc demo_db ∨ c = conv_auto_inc demo_db + 1 →
              u = 1 ∨ u = 2 → is_member d' c u = true).
Proof.
  apply (getOrCreateDM_overlap demo_db 1 2 100).
  - apply demo_db_ok.
  - reflexivity.
  - reflexivity.
  - lia.
  - reflexivity.
Defined.

(** ** A token to run the model on *)

(** A number as two code units, a sign and a size, above the full stop. *)
Definition demo_units (z : Z) : jsstring :=
  [(if z <? 0 then 48%N else 47%N); (47 + Z.abs_N z)%N].

Definition demo_number (sign size : N) : Z :=
  if (sign =? 48)%N then - Z.of_N (size - 47) else Z.of_N (size - 47).

Definition demo_encode (p : Http.token_payload) : jsstring :=
  demo_units (Http.p_userId p) ++ demo_units (Http.p_iat p)
  ++ (N.add 47 <$> Http.p_username p).

Definition demo_decode (s : jsstring) : option Http.token_payload :=
  match s with
  | a :: b :: c :: d :: name =>
      Some {| Http.p_userId := demo_number a b;
              Http.p_username := (λ x, x - 47)%N <$> name;
              Http.p_iat := demo_number c d |}
  | _ => None
  end.

Definition demo_hmac (payload : jsstring) : jsstring := js "c2ln".

Lemma demo_number_units z :
  demo_number (if z <? 0 then 48%N else 47%N) (47 + Z.abs_N z)%N = z.
Proof.
  unfold demo_number. replace (47 + Z.abs_N z - 47)%N with (Z.abs_N z) by lia.
  rewrite N2Z.inj_abs_N. destruct (Z.ltb_spec z 0); simpl; lia.
Qed.

Lemma demo_decode_encode p : demo_decode (demo_encode p) = Some p.
Proof.
  destruct p as [userId username iat]. unfold demo_encode, demo_units. simpl.
  rewrite !demo_number_units. f_equal. f_equal.
  rewrite <- list_fmap_compose. rewrite <- (list_fmap_id username) at 2.
  apply list_fmap_ext. intros i x _. simpl. lia.
Qed.

Lemma demo_encode_base64url p :
  demo_encode p ≠ [] ∧ Token.dot ∉ demo_encode p.
Proof.
  split; [done|]. unfold demo_encode, demo_units, Token.dot. simpl.
  rewrite !not_elem_of_cons. split_and!.
  - by destruct (Http.p_userId p <? 0).
  - lia.
  - by destruct (Http.p_iat p <? 0).
  - lia.
  - intros (x & Hx & _)%list_elem_of_fmap. lia.
Qed.

Lemma demo_hmac_base64url x : demo_hmac x ≠ [] ∧ Token.dot ∉ demo_hmac x.
Proof.
  split; [done|]. unfold demo_hmac, Token.dot. vm_compute.
  intros Hin. repeat (apply elem_of_cons in Hin as [Hin|Hin]; [discriminate|]).
  by apply elem_of_nil in Hin.
Qed.

Definition alice_payload : Http.token_payload :=
  {| Http.p_userId := 1; Http.p_username := js "alice"; Http.p_iat := 1700 |}.

Lemma verify_sign_witness :
  Token.verifyToken demo_hmac demo_decode
    (Some (Token.signToken demo_hmac demo_encode alice_payload)) =
    Token.Payload alice_payload
  ∧ Token.verifyToken demo_hmac demo_decode
      (Some (Token.signToken demo_hmac demo_encode alice_payload ++ js ".admin")) =
      Token.Payload alice_payload.
Proof.
  apply (Token.verify_sign demo_hmac demo_encode demo_decode demo_hmac_base64url
           demo_encode_base64url demo_decode_encode alice_payload (js ".admin")).
  right. by exists (js "admin").
Defined.

(** A signature of two bytes against a digest of four: the call throws. *)
Lemma verify_forged_witness :
  Token.verifyToken demo_hmac demo_decode (Some (js "abcd" ++ [Token.dot] ++ js "xy")) =
    Token.Throws.
Proof.
  apply (Token.verify_forged demo_hmac demo_decode (js "abcd") (js "xy")).
  - discriminate.
  - discriminate.
  - vm_compute. intros Hin.
    repeat (apply elem_of_cons in Hin as [Hin|Hin]; [discriminate|]).
    by apply elem_of_nil in Hin.
  - vm_compute. intros Hin.
    repeat (apply elem_of_cons in Hin as [Hin|Hin]; [discriminate|]).
    by apply elem_of_nil in Hin.
  - vm_compute. discriminate.
Defined.

Lemma verify_malformed_witness :
  Token.verifyToken demo_hmac demo_decode (Some (js "abcd.")) = Token.Null.
Proof.
  apply (Token.verify_malformed demo_hmac demo_decode (js "abcd.")).
  right. right. right. exists (js "abcd"). split; [|reflexivity].
  vm_compute. intros Hin.
  repeat (apply elem_of_cons in Hin as [Hin|Hin]; [discriminate|]).
  by apply elem_of_nil in Hin.
Defined.

(** ** The client on the deployment *)

Lemma escapeHtml_no_markup_witness :
  60%N ∈ js "<b>" ∧ 38%N ∈ Client.escapeHtml (js "<b>") ∧ 38%N ∉ Client.markup.
Proof.
  assert (38%N ∈ Client.escapeHtml (js "<b>")) as Hin
    by (vm_compute; apply list_elem_of_here).
  split_and!; [vm_compute; apply list_elem_of_here|exact Hin|].
  apply (Client.escapeHtml_no_markup (js "<b>") 38%N Hin).
Defined.

Lemma escapeHtml_inj_witness :
  Client.escapeHtml (js "a<b") = js "a&lt;b" ∧ js "a<b" = js "a<b".
Proof.
  split; [vm_compute; reflexivity|].
  apply (Client.escapeHtml_inj (js "a<b") (js "a<b")). reflexivity.
Defined.

(** The user with key 1 types a message; the server confirms it and relays
    the acknowledgement of the recipient: one check still. *)
Lemma typed_message_never_confirmed_witness :
  let c := Client.run_ui Client.loaded [Client.LoggedIn 1] in
  let after := [Client.Received (msg_sent 5 1); Client.Received (msg_delivered 5 2)] in
  Client.divs (Client.run_ui (Client.on_event c (Client.Submitted (js " hi "))) after)
    !! length (Client.divs c) =
    Some {| Client.d_me := true; Client.d_body := Client.escapeHtml (trim (js " hi "));
            Client.d_meta := Client.Mine false |}.
Proof.
  apply (Client.typed_message_never_confirmed [Client.LoggedIn 1] 1 (js " hi ")
           [Client.Received (msg_sent 5 1); Client.Received (msg_delivered 5 2)]).
  - reflexivity.
  - vm_compute. discriminate.
Defined.

Lemma replayed_message_confirmed_witness :
  let c := Client.run_ui Client.loaded [Client.LoggedIn 1] in
  let c' := Client.run_ui c [Client.Received (msg_new 5 1 1 (js "hi") 20);
                             Client.Received (msg_delivered 5 1)] in
  Client.divs c' !! length (Client.divs c) =
    Some {| Client.d_me := true; Client.d_body := Client.escapeHtml (js "hi");
            Client.d_meta := Client.Mine true |}.
Proof.
  apply (Client.replayed_message_confirmed
           (Client.run_ui Client.loaded [Client.LoggedIn 1]) 1 5 1 (js "hi") 20 1).
  reflexivity.
Defined.

(** ** The endpoints on the deployment *)

Definition demo_ci_eq (a b : jsstring) : bool := bool_decide (a = b).

Definition demo_lower (s : jsstring) : jsstring :=
  (λ c, if (65 <=? c) && (c <=? 90) then c + 32 else c)%N <$> s.

Definition demo_hash (p : jsstring) (salt : N) : jsstring := salt :: p.

Definition demo_compare (p hash : jsstring) : bool :=
  match hash with
  | _ :: p' => bool_decide (p' = p)
  | [] => false
  end.

Definition demo_accounts : Http.users_table :=
  {| Http.rows :=
       [ {| Http.a_id := 1; Http.a_username := js "alice";
            Http.a_email := js "alice@upv.es";
            Http.a_password_hash := demo_hash (js "wonderland") 36;
            Http.a_is_active := true |} ];
     Http.auto_inc := 2 |}.

Definition register_bob : Http.response * Http.users_table :=
  Http.register demo_ci_eq demo_lower demo_hash demo_accounts
    (Some (js " bob ")) (Some (js "Bob@UPV.es ")) (Some (js "secret")) 37%N.

Example register_trace :
  register_bob.1 = Http.Created 2
  ∧ Http.a_username <$> Http.rows register_bob.2 = [js "alice"; js "bob"]
  ∧ Http.a_email <$> Http.rows register_bob.2 = [js "alice@upv.es"; js "bob@upv.es"]
  ∧ (Http.register demo_ci_eq demo_lower demo_hash register_bob.2
       (Some (js "carol")) (Some (js "BOB@upv.es")) (Some (js "secret")) 37%N).1
    = Http.Failed 409 "user_exists"
  ∧ (Http.register demo_ci_eq demo_lower demo_hash demo_accounts
       (Some (js "  al  ")) (Some (js "al@upv.es")) (Some (js "secret")) 37%N).1
    = Http.Failed 400 "username_too_short"
  ∧ (Http.register demo_ci_eq demo_lower demo_hash demo_accounts
       (Some (js "albert")) (Some (js "al@upv.es")) (Some (js "      ")) 37%N).1
    = Http.Created 2.
Proof. vm_compute. by split_and!. Qed.

Lemma login_grants_witness :
  ∃ token r l' p',
    Http.login demo_ci_eq demo_compare demo_hmac demo_encode demo_accounts
      (Some (js "alice@upv.es")) (Some (js "wonderland")) 1700
    = Http.Granted token 1 (js "alice") (js "alice@upv.es")
    ∧ Some (js "alice@upv.es") = Some l' ∧ Some (js "wonderland") = Some p'
    ∧ r ∈ Http.rows demo_accounts
    ∧ Http.a_id r = 1 ∧ Http.a_username r = js "alice"
    ∧ Http.a_email r = js "alice@upv.es"
    ∧ Http.a_is_active r = true
    ∧ demo_compare p' (Http.a_password_hash r) = true
    ∧ demo_ci_eq (Http.a_email r) l' || demo_ci_eq (Http.a_username r) l' = true
    ∧ token = Token.signToken demo_hmac demo_encode alice_payload.
Proof.
  exists (Token.signToken demo_hmac demo_encode alice_payload).
  assert (Http.login demo_ci_eq demo_compare demo_hmac demo_encode demo_accounts
            (Some (js "alice@upv.es")) (Some (js "wonderland")) 1700
          = Http.Granted (Token.signToken demo_hmac demo_encode alice_payload)
              1 (js "alice") (js "alice@upv.es")) as Hlogin
    by (vm_compute; reflexivity).
  destruct (Http.login_grants demo_ci_eq demo_compare demo_hmac demo_encode
              demo_accounts _ _ _ _ _ _ _ Hlogin) as (r & l' & p' & Hrest).
  exists r, l', p'. split; [exact Hlogin|exact Hrest].
Defined.

Lemma register_then_login_witness :
  ∃ token,
    Http.login demo_ci_eq demo_compare demo_hmac demo_encode register_bob.2
      (Some (js "bob")) (Some (js "secret")) 1800
    = Http.Granted token 2 (js "bob") (js "bob@upv.es")
    ∧ Token.verifyToken demo_hmac demo_decode (Some token) =
        Token.Payload {| Http.p_userId := 2; Http.p_username := js "bob";
                         Http.p_iat := 1800 |}.
Proof.
  apply (Http.register_then_login demo_ci_eq demo_lower demo_hash demo_compare
           demo_hmac demo_encode demo_decode
           (λ x, bool_decide_eq_true_2 _ eq_refl)
           (λ p salt, bool_decide_eq_true_2 _ eq_refl)
           demo_hmac_base64url demo_encode_base64url demo_decode_encode
           demo_accounts (Some (js " bob ")) (Some (js "Bob@UPV.es ")) (Some (js "secret"))
           37%N 2 register_bob.2 (js "bob") 1800).
  - vm_compute. reflexivity.
  - left. split; [vm_compute; reflexivity|].
    intros r Hr. apply list_elem_of_singleton in Hr. subst r. vm_compute. reflexivity.
Defined.
